(** * VoiceCleanse: relay server and client workflow

    A shallow embedding of the stateful parts of the VoiceCleanse relay
    server (server/emailService.ts, server/notificationService.ts,
    server/apiMonitor.ts, server/storage.ts, server/routes.ts) and of the
    browser client (client/src/services/audioSeparationAPI.ts,
    client/src/hooks/useAudioSeparation.ts,
    client/src/components/AudioUploader.tsx).

    Conventions.
    - Every class becomes a record of its fields and every method a
      function from the old record to the new one.  What a method reads
      from the outside world (the clock, the result of an HTTP request)
      is an explicit argument; what it does to the outside world (mails
      handed to the transport, HTTP requests issued, dialogs) is returned
      as a list.
    - Clock readings ([Date.now()], [new Date().getTime()]) are
      milliseconds since the epoch, in [Z].
    - JavaScript strings are modelled by byte strings; [Map]s by [gmap].
    - [setInterval]/[clearInterval] act on a table of active intervals
      that is part of the state; an interval that is not in the table
      never fires again. *)

From Stdlib Require Import ZArith Lia Ascii.
From stdpp Require Import gmap strings list fin_maps pretty.

Local Open Scope Z_scope.

(** ** JavaScript idioms *)

Module Js.

(** [s || d] for a possibly undefined string: [undefined] and the empty
    string are falsy. *)
Definition or_default (s : option string) (d : string) : string :=
  match s with
  | Some (String c r) => String c r
  | Some EmptyString => d
  | None => d
  end.

(** The line break inside a template literal. *)
Definition nl : string := String "010"%char EmptyString.

(** Truthiness of a string. *)
Definition truthy (s : string) : bool :=
  match s with
  | EmptyString => false
  | String _ _ => true
  end.

(** [s.toLowerCase()] on the letters A-Z; every other byte is kept.
    On a string of ASCII characters this is what JavaScript does, and
    the bytes of the string are its UTF-16 code units, so that indices
    agree as well.  JavaScript also lower-cases letters outside ASCII,
    some of them to more than one code unit; what is said about
    lower-cased strings with such letters holds of this function, not
    of JavaScript's. *)
Definition lower (c : ascii) : ascii :=
  let n := Ascii.N_of_ascii c in
  if (65 <=? n)%N && (n <=? 90)%N then Ascii.ascii_of_N (n + 32) else c.

Fixpoint toLowerCase (s : string) : string :=
  match s with
  | EmptyString => EmptyString
  | String c r => String (lower c) (toLowerCase r)
  end.

(** The strings on which [toLowerCase] and the indices are those of
    JavaScript: every character is below 128. *)
Fixpoint is_ascii (s : string) : bool :=
  match s with
  | EmptyString => true
  | String c r => (Ascii.N_of_ascii c <? 128)%N && is_ascii r
  end.

(** [s.lastIndexOf(c)] for a one-character search string, where [i] is
    the index of the first character of [s]: the index of the last
    occurrence, or -1. *)
Fixpoint lastIndexOf_from (i : Z) (c : ascii) (s : string) : Z :=
  match s with
  | EmptyString => -1
  | String a r =>
      let j := lastIndexOf_from (i + 1) c r in
      if 0 <=? j then j else if Ascii.eqb a c then i else -1
  end.

Definition lastIndexOf (s : string) (c : ascii) : Z := lastIndexOf_from 0 c s.

Fixpoint drop (n : nat) (s : string) : string :=
  match n, s with
  | O, _ => s
  | S n', String _ r => drop n' r
  | S _, EmptyString => EmptyString
  end.

(** [s.substring(start)]: a negative [start] counts as 0, one beyond
    the end as the length. *)
Definition substring (s : string) (start : Z) : string :=
  drop (Z.to_nat (Z.max 0 start)) s.

(** What a [catch] clause may receive: an [Error] with its name and
    message, or some other thrown value. *)
Inductive Thrown :=
| ThrownError (name message : string)
| ThrownOther.

End Js.

(** ** Interval timers of the event loop *)

Module Timers.

Section Table.
Context {A : Type}.

(** [active] maps the handle of every interval that has been set and
    not cleared to a description of its callback; [next] is the next
    handle [setInterval] hands out.  Handles are positive, hence
    truthy, and are never reused. *)
Record table := Table { active : gmap positive A; next : positive }.

Definition empty : table := Table ∅ 1%positive.

Definition setInterval (cb : A) (t : table) : positive * table :=
  (next t, Table (<[next t := cb]> (active t)) (Pos.succ (next t))).

Definition clearInterval (h : positive) (t : table) : table :=
  Table (delete h (active t)) (next t).

(** Handles in use are below [next]. *)
Definition bounded (t : table) : Prop :=
  ∀ h cb, active t !! h = Some cb → (h < next t)%positive.

End Table.

Arguments table : clear implicits.

End Timers.

(** ** Notifications *)

Inductive Severity := info | warning | error.

Definition severity_string (s : Severity) : string :=
  match s with
  | info => "info"
  | warning => "warning"
  | error => "error"
  end.

(** A value of a [details] record, rendered when the message is
    formatted. *)
Inductive Detail :=
| DText (s : string)
| DNumber (n : Z)
| DLocaleTime (t : Z).

(** *** server/emailService.ts *)

Module EmailService.

Record EmailNotification := {
  title : string;
  message : string;
  severity : Severity;
  details : option (list (string * Detail))
}.

(** [transporter] is [true] when [initializeTransporter] found both
    GMAIL_EMAIL and GMAIL_APP_PASSWORD and created the transport. *)
Record t := {
  transporter : bool;
  lastNotificationTime : gmap string Z
}.

Definition COOLDOWN_MINUTES : Z := 180.
Definition TARGET_EMAIL : string := "jackycck126@gmail.com".

Definition initializeTransporter (gmailEmail gmailAppPassword : option string) : bool :=
  match gmailEmail, gmailAppPassword with
  | Some e, Some p => Js.truthy e && Js.truthy p
  | _, _ => false
  end.

Definition new (gmailEmail gmailAppPassword : option string) : t :=
  {| transporter := initializeTransporter gmailEmail gmailAppPassword;
     lastNotificationTime := ∅ |}.

(** The mail handed to [transporter.sendMail]; [html] is the
    notification that [formatEmailContent] renders. *)
Record Mail := {
  to : string;
  subject : string;
  html : EmailNotification
}.

(** What one call of [sendNotification] reads from the world: the clock
    when the cooldown is checked, whether [sendMail] resolves, and the
    clock when the send time is recorded. *)
Record Env := {
  now_check : Z;
  mail_ok : bool;
  now_sent : Z
}.

Definition notificationKey (n : EmailNotification) (apiUrl : option string) : string :=
  severity_string (severity n) +:+ "_" +:+ title n +:+ "_" +:+ Js.or_default apiUrl "unknown".

Definition isInCooldown (s : t) (key : string) (now : Z) : bool :=
  match lastNotificationTime s !! key with
  | None => false
  | Some lastTime =>
      if decide (lastTime = 0) then false
      else
        let cooldownMs := COOLDOWN_MINUTES * 60 * 1000 in
        bool_decide (now - lastTime < cooldownMs)
  end.

(** Result of a call: the returned boolean, the mails handed to the
    transport (none when delivery is skipped) and the new state. *)
Record Result := {
  returned : bool;
  attempted : list Mail;
  after : t
}.

Definition sendNotification (s : t) (notification : EmailNotification)
    (apiUrl : option string) (env : Env) : Result :=
  if negb (transporter s) then
    {| returned := false; attempted := []; after := s |}
  else
    let notificationKey := notificationKey notification apiUrl in
    if isInCooldown s notificationKey (now_check env) then
      {| returned := false; attempted := []; after := s |}
    else
      let mailOptions :=
        {| to := TARGET_EMAIL;
           subject := "🚨 音頻處理系統通知: " +:+ title notification;
           html := notification |} in
      if mail_ok env then
        {| returned := true;
           attempted := [mailOptions];
           after := {| transporter := transporter s;
                       lastNotificationTime :=
                         <[notificationKey := now_sent env]> (lastNotificationTime s) |} |}
      else
        {| returned := false; attempted := [mailOptions]; after := s |}.

(** The error handed to [notifyApiConnectionError]: its [name] and
    [message], either of which may be missing or empty. *)
Record ErrorInfo := { err_name : option string; err_message : option string }.

Definition connectionErrorNotification (apiUrl : string) (e : ErrorInfo)
    (retryCount : Z) (now : Z) : EmailNotification :=
  {| title := "API連線失敗";
     message := "音頻處理API無法連接，請立即檢查服務狀態。" +:+
                Js.nl +:+ Js.nl +:+
                "系統將持續嘗試重新連接，但可能影響音頻處理功能。";
     severity := error;
     details := Some [("API地址", DText apiUrl);
                      ("錯誤類型", DText (Js.or_default (err_name e) "未知錯誤"));
                      ("錯誤信息", DText (Js.or_default (err_message e) "連接超時"));
                      ("重試次數", DNumber retryCount);
                      ("發生時間", DLocaleTime now);
                      ("影響範圍", DText "音頻處理功能暫時無法使用")] |}.

Definition recoveredNotification (apiUrl : string) (now : Z) : EmailNotification :=
  {| title := "API連線已恢復";
     message := "音頻處理API連接已恢復正常，系統運行恢復穩定。" +:+
                Js.nl +:+ Js.nl +:+ "所有功能現已可正常使用。";
     severity := info;
     details := Some [("API地址", DText apiUrl);
                      ("恢復時間", DLocaleTime now);
                      ("系統狀態", DText "所有功能正常運行")] |}.

(** [now] is the clock reading used for the time shown in the details. *)
Definition notifyApiConnectionError (s : t) (apiUrl : string) (e : ErrorInfo)
    (retryCount : Z) (now : Z) (env : Env) : Result :=
  sendNotification s (connectionErrorNotification apiUrl e retryCount now) (Some apiUrl) env.

Definition notifyApiRecovered (s : t) (apiUrl : string) (now : Z) (env : Env) : Result :=
  sendNotification s (recoveredNotification apiUrl now) (Some apiUrl) env.

Definition testEmail (s : t) (now : Z) (env : Env) : Result :=
  sendNotification s
    {| title := "系統測試";
       message := "這是一封測試郵件，用於確認郵件通知功能正常運作。";
       severity := info;
       details := Some [("測試時間", DLocaleTime now); ("系統狀態", DText "郵件服務正常")] |}
    None env.

End EmailService.

(** *** server/notificationService.ts *)

Module NotificationService.

Record NotificationMessage := {
  title : string;
  description : string;
  timestamp : Z;
  severity : Severity;
  details : option (list (string * Detail))
}.

Record t := {
  discordWebhookUrl : option string;
  lastNotificationTime : gmap string Z
}.

Definition COOLDOWN_MINUTES : Z := 15.

(** [process.env.DISCORD_WEBHOOK_URL || null] *)
Definition new (DISCORD_WEBHOOK_URL : option string) : t :=
  {| discordWebhookUrl :=
       match DISCORD_WEBHOOK_URL with
       | Some u => if Js.truthy u then Some u else None
       | None => None
       end;
     lastNotificationTime := ∅ |}.

(** The clock when the cooldown is checked, whether the webhook POST
    comes back with an ok response, and the clock when the send time is
    recorded. *)
Record Env := {
  now_check : Z;
  webhook_ok : bool;
  now_sent : Z
}.

Definition notificationKey (m : NotificationMessage) : string :=
  severity_string (severity m) +:+ "_" +:+ title m.

Definition isInCooldown (s : t) (key : string) (now : Z) : bool :=
  match lastNotificationTime s !! key with
  | None => false
  | Some lastTime =>
      if decide (lastTime = 0) then false
      else
        let cooldownMs := COOLDOWN_MINUTES * 60 * 1000 in
        bool_decide (now - lastTime < cooldownMs)
  end.

(** [posted] lists the embeds POSTed to the webhook, [logged] the
    messages written to the console. *)
Record Result := {
  returned : bool;
  posted : list NotificationMessage;
  logged : list NotificationMessage;
  after : t
}.

Definition sendDiscordNotification (s : t) (m : NotificationMessage) (env : Env)
    : bool * list NotificationMessage :=
  match discordWebhookUrl s with
  | None => (false, [])
  | Some u => if Js.truthy u then (webhook_ok env, [m]) else (false, [])
  end.

Definition sendNotification (s : t) (m : NotificationMessage) (env : Env) : Result :=
  let notificationKey := notificationKey m in
  if isInCooldown s notificationKey (now_check env) then
    {| returned := false; posted := []; logged := []; after := s |}
  else
    let '(success, posted) :=
      match discordWebhookUrl s with
      | Some u => if Js.truthy u then sendDiscordNotification s m env else (false, [])
      | None => (false, [])
      end in
    let s' :=
      if success then
        {| discordWebhookUrl := discordWebhookUrl s;
           lastNotificationTime :=
             <[notificationKey := now_sent env]> (lastNotificationTime s) |}
      else s in
    {| returned := success; posted := posted; logged := [m]; after := s' |}.

Definition notifyApiConnectionError (s : t) (apiUrl : string)
    (err_message : option string) (retryCount : Z) (now : Z) (env : Env) : Result :=
  sendNotification s
    {| title := "API連線失敗";
       description := "音頻處理API無法連接，請檢查服務狀態。" +:+
                      Js.nl +:+ Js.nl +:+
                      "📧 通知發送至: jackycck126@gmail.com";
       timestamp := now;
       severity := error;
       details := Some [("API地址", DText apiUrl);
                        ("錯誤信息", DText (Js.or_default err_message "未知錯誤"));
                        ("重試次數", DNumber retryCount);
                        ("時間", DLocaleTime now)] |}
    env.

Definition notifyApiRecovered (s : t) (apiUrl : string) (now : Z) (env : Env) : Result :=
  sendNotification s
    {| title := "API連線已恢復";
       description := "音頻處理API連接已恢復正常。" +:+ Js.nl +:+ Js.nl +:+
                      "✅ 系統運行正常";
       timestamp := now;
       severity := info;
       details := Some [("API地址", DText apiUrl); ("恢復時間", DLocaleTime now)] |}
    env.

End NotificationService.

(** ** server/apiMonitor.ts *)

Module ApiMonitor.

Import EmailService (ErrorInfo, Build_ErrorInfo).

Record ApiHealthStatus := {
  isHealthy : bool;
  lastCheck : Z;
  lastError : option ErrorInfo;
  consecutiveFailures : Z;
  uptime : Z
}.

(** The status records are mutable objects shared between the
    [healthStatus] map and the probes in flight: [objects] is the heap
    they live in, and the map holds references into it.
    [intervals] is the event loop's table of active intervals; each
    callback probes the URL it is mapped to. *)
Record t := {
  objects : gmap positive ApiHealthStatus;
  nextObject : positive;
  healthStatus : gmap string positive;
  monitoringIntervals : gmap string positive;
  intervals : Timers.table string
}.

Definition CHECK_INTERVAL_MS : Z := 60 * 60 * 1000.
Definition MAX_RETRIES : Z := 1.
Definition TIMEOUT_MS : Z := 10000.

Definition new : t :=
  {| objects := ∅; nextObject := 1%positive; healthStatus := ∅;
     monitoringIntervals := ∅; intervals := Timers.empty |}.

(** Calls made on the [emailService] singleton. *)
Inductive Notify :=
| NotifyApiRecovered (apiUrl : string)
| NotifyApiConnectionError (apiUrl : string) (e : ErrorInfo) (retryCount : Z).

(** How the [fetch] of a probe ends: a response with its status code,
    or a rejection (network error, abort after [TIMEOUT_MS]). *)
Inductive FetchResult :=
| Response (status : Z)
| Rejected (e : ErrorInfo).

(** [response.ok] *)
Definition ok (status : Z) : bool := bool_decide (200 ≤ status ≤ 299).

Definition stopMonitoring (m : t) (apiUrl : string) : t :=
  match monitoringIntervals m !! apiUrl with
  | Some interval =>
      {| objects := objects m; nextObject := nextObject m;
         healthStatus := healthStatus m;
         monitoringIntervals := delete apiUrl (monitoringIntervals m);
         intervals := Timers.clearInterval interval (intervals m) |}
  | None => m
  end.

(** [status] is the reference to the record being updated; [now] is the
    reading of [new Date()]. *)
Definition handleHealthyResponse (m : t) (apiUrl : string) (status : positive)
    (now : Z) : t * list Notify :=
  match objects m !! status with
  | None => (m, [])
  | Some st =>
      let wasUnhealthy := negb (isHealthy st) in
      let st' := {| isHealthy := true; lastCheck := now; lastError := None;
                    consecutiveFailures := 0; uptime := uptime st |} in
      ({| objects := <[status := st']> (objects m); nextObject := nextObject m;
          healthStatus := healthStatus m;
          monitoringIntervals := monitoringIntervals m;
          intervals := intervals m |},
       if wasUnhealthy && bool_decide (lastCheck st' > 0)
       then [NotifyApiRecovered apiUrl] else [])
  end.

Definition handleUnhealthyResponse (m : t) (apiUrl : string) (status : positive)
    (e : ErrorInfo) (now : Z) : t * list Notify :=
  match objects m !! status with
  | None => (m, [])
  | Some st =>
      let wasHealthy := isHealthy st in
      let st' := {| isHealthy := false; lastCheck := now; lastError := Some e;
                    consecutiveFailures := consecutiveFailures st + 1;
                    uptime := uptime st |} in
      ({| objects := <[status := st']> (objects m); nextObject := nextObject m;
          healthStatus := healthStatus m;
          monitoringIntervals := monitoringIntervals m;
          intervals := intervals m |},
       if wasHealthy && bool_decide (consecutiveFailures st' >= MAX_RETRIES)
       then [NotifyApiConnectionError apiUrl e (consecutiveFailures st')] else [])
  end.

(** [checkApiHealth] up to its [await fetch]: the status record is
    looked up once, before the request is issued.  Returns the
    reference it holds and the URL it requests. *)
Definition checkApiHealth_begin (m : t) (apiUrl : string) : option (positive * string) :=
  match healthStatus m !! apiUrl with
  | None => None
  | Some status => Some (status, apiUrl +:+ "/health")
  end.

(** [checkApiHealth] from the point where the [fetch] has settled. *)
Definition checkApiHealth_resume (m : t) (apiUrl : string) (status : positive)
    (res : FetchResult) (now : Z) : t * list Notify :=
  match res with
  | Response code =>
      if ok code then handleHealthyResponse m apiUrl status now
      else handleUnhealthyResponse m apiUrl status
             (Build_ErrorInfo (Some "Error") (Some ("HTTP " +:+ pretty code))) now
  | Rejected e => handleUnhealthyResponse m apiUrl status e now
  end.

(** A probe that runs to completion without anything else happening in
    between.  [requests] are the GET requests issued. *)
Record Probe := {
  monitor : t;
  requests : list string;
  notified : list Notify
}.

Definition checkApiHealth (m : t) (apiUrl : string) (res : FetchResult) (now : Z) : Probe :=
  match checkApiHealth_begin m apiUrl with
  | None => {| monitor := m; requests := []; notified := [] |}
  | Some (status, healthUrl) =>
      let '(m', ns) := checkApiHealth_resume m apiUrl status res now in
      {| monitor := m'; requests := [healthUrl]; notified := ns |}
  end.

(** [startMonitoring] returns, besides the new state, the probe it has
    started and left in flight: the reference that probe holds and the
    URL it requests. *)
Definition startMonitoring (m : t) (apiUrl : string) (now : Z)
    : t * option (positive * string) :=
  let m1 := stopMonitoring m apiUrl in
  let status := nextObject m1 in
  let m2 :=
    {| objects := <[status := {| isHealthy := false; lastCheck := now;
                                 lastError := None; consecutiveFailures := 0;
                                 uptime := 100 |}]> (objects m1);
       nextObject := Pos.succ (nextObject m1);
       healthStatus := <[apiUrl := status]> (healthStatus m1);
       monitoringIntervals := monitoringIntervals m1;
       intervals := intervals m1 |} in
  let inflight := checkApiHealth_begin m2 apiUrl in
  let '(interval, tbl) := Timers.setInterval apiUrl (intervals m2) in
  ({| objects := objects m2; nextObject := nextObject m2;
      healthStatus := healthStatus m2;
      monitoringIntervals := <[apiUrl := interval]> (monitoringIntervals m2);
      intervals := tbl |},
   inflight).

Definition getHealthStatus (m : t) (apiUrl : string) : option ApiHealthStatus :=
  match healthStatus m !! apiUrl with
  | None => None
  | Some status => objects m !! status
  end.

Definition getAllHealthStatus (m : t) : gmap string ApiHealthStatus :=
  omap (λ status, objects m !! status) (healthStatus m).

(** [checkNow] when the probe runs to completion without anything else
    happening in between. *)
Definition checkNow (m : t) (apiUrl : string) (res : FetchResult) (now : Z)
    : Probe * option ApiHealthStatus :=
  let p := checkApiHealth m apiUrl res now in
  (p, getHealthStatus (monitor p) apiUrl).

(** [checkNow] in its three steps.  Up to the [await fetch] of its
    probe: the record the probe holds and the URL it requests, if the
    URL has a record. *)
Definition checkNow_begin (m : t) (apiUrl : string) : option (positive * string) :=
  checkApiHealth_begin m apiUrl.

(** From the point where the [fetch] has settled, or at once if no
    probe was started: [m] is the monitor as it is by then, [inflight]
    the record the probe looked up.  The probe updates that record and
    makes its notification; [checkNow] goes on when the mail service is
    done with it. *)
Definition checkNow_settle (m : t) (apiUrl : string) (inflight : option positive)
    (res : FetchResult) (now : Z) : t * list Notify :=
  match inflight with
  | Some status => checkApiHealth_resume m apiUrl status res now
  | None => (m, [])
  end.

(** [return this.getHealthStatus(apiUrl)], with [m] the monitor as it
    is when the promise of the probe has resolved. *)
Definition checkNow_return (m : t) (apiUrl : string) : option ApiHealthStatus :=
  getHealthStatus m apiUrl.

Definition cleanup (m : t) : t :=
  {| objects := objects m; nextObject := nextObject m;
     healthStatus := healthStatus m;
     monitoringIntervals := ∅;
     intervals := foldr (λ kv tbl, Timers.clearInterval kv.2 tbl) (intervals m)
                        (map_to_list (monitoringIntervals m)) |}.

(** The callback of interval [h], if [h] is still active: it starts a
    probe of the URL the interval was set for. *)
Definition tick (m : t) (h : positive) : option (positive * string) :=
  match Timers.active (intervals m) !! h with
  | None => None
  | Some apiUrl => checkApiHealth_begin m apiUrl
  end.

End ApiMonitor.

(** ** server/storage.ts *)

Module Storage.

Record ApiConfig := {
  id : string;
  apiUrl : string;
  isActive : bool;
  description : option string;
  updatedAt : Z;
  updatedBy : option string
}.

(** [Omit<ApiConfig, 'id' | 'updatedAt'>] *)
Record ApiConfigInput := {
  in_apiUrl : string;
  in_isActive : bool;
  in_description : option string;
  in_updatedBy : option string
}.

(** [MemStorage]: its one field, [apiConfig]. *)
Definition MemStorage := option ApiConfig.

(** The constructor; [uuid] is what [randomUUID()] returns and [now]
    the reading of [new Date()]. *)
Definition new (uuid : string) (now : Z) : MemStorage :=
  Some {| id := uuid;
          apiUrl := "https://047d79d2429a.ngrok-free.app";
          isActive := true;
          description := Some "預設音頻處理API服務";
          updatedAt := now;
          updatedBy := Some "system" |}.

Definition getApiConfig (s : MemStorage) : option ApiConfig := s.

(** [uuid] is what [randomUUID()] would return; it is only used when
    there is no current id ([this.apiConfig?.id || randomUUID()]). *)
Definition setApiConfig (s : MemStorage) (config : ApiConfigInput)
    (uuid : string) (now : Z) : ApiConfig * MemStorage :=
  let c := {| id := Js.or_default (id <$> s) uuid;
              apiUrl := in_apiUrl config;
              isActive := in_isActive config;
              description := in_description config;
              updatedAt := now;
              updatedBy := in_updatedBy config |} in
  (c, Some c).

(** [process.env.ADMIN_PASSWORD || 'fculab224'] *)
Definition ADMIN_PASSWORD (env_ADMIN_PASSWORD : option string) : string :=
  Js.or_default env_ADMIN_PASSWORD "fculab224".

End Storage.

(** ** shared/schema.ts and server/routes.ts *)

Module Routes.

(** A field of a JSON request body, as far as the schema tells values
    apart: absent, a string, or anything else (null, number, ...). *)
Inductive JsValue :=
| JUndefined
| JString (s : string)
| JOther.

(** The fields of [req.body] that [updateApiConfigSchema] looks at. *)
Record Body := {
  body_apiUrl : JsValue;
  body_description : JsValue;
  body_adminPassword : JsValue
}.

Record UpdateApiConfigRequest := {
  apiUrl : string;
  description : option string;
  adminPassword : string
}.

(** The state the handlers act on: the module-level singletons
    [storage] and [apiMonitor], and the environment variable that
    [ADMIN_PASSWORD] is read from. *)
Record Server := {
  storage : Storage.MemStorage;
  apiMonitor : ApiMonitor.t;
  env_ADMIN_PASSWORD : option string
}.

(** The fields of a config that the routes return. *)
Record ConfigView := {
  view_apiUrl : string;
  view_isActive : bool;
  view_description : option string;
  view_updatedAt : Z
}.

Definition view (c : Storage.ApiConfig) : ConfigView :=
  {| view_apiUrl := Storage.apiUrl c;
     view_isActive := Storage.isActive c;
     view_description := Storage.description c;
     view_updatedAt := Storage.updatedAt c |}.

Inductive Payload :=
| ErrorBody (error : string)
| ConfigBody (config : ConfigView)
| UpdatedBody (success : bool) (message : string) (config : ConfigView).

Record Response := { status : Z; json : Payload }.

Section Handlers.

(** [z.string().url()] accepts the strings that the URL parser of the
    platform accepts; that parser is not part of the repository. *)
Variable isUrl : string → bool.

(** [updateApiConfigSchema.parse]: [None] stands for a thrown
    [ZodError].  [body] is [None] when [req.body] is not an object. *)
Definition parse (body : option Body) : option UpdateApiConfigRequest :=
  match body with
  | None => None
  | Some b =>
      match body_apiUrl b, body_description b, body_adminPassword b with
      | JString u, JUndefined, JString p =>
          if isUrl u && bool_decide (1 ≤ String.length p)%nat
          then Some {| apiUrl := u; description := None; adminPassword := p |}
          else None
      | JString u, JString d, JString p =>
          if isUrl u && bool_decide (1 ≤ String.length p)%nat
          then Some {| apiUrl := u; description := Some d; adminPassword := p |}
          else None
      | _, _, _ => None
      end
  end.

(** [app.get('/api/config')] *)
Definition get_api_config (w : Server) : Response :=
  match Storage.getApiConfig (storage w) with
  | None => {| status := 404; json := ErrorBody "API配置未找到" |}
  | Some config => {| status := 200; json := ConfigBody (view config) |}
  end.

(** [app.post('/api/config')].  [uuid] is what [randomUUID()] would
    return, [now_set] the clock read by [setApiConfig], [now_start]
    the clock read by [startMonitoring].  The third component is the
    probe that [startMonitoring] leaves in flight. *)
Definition post_api_config (w : Server) (body : option Body)
    (uuid : string) (now_set now_start : Z)
    : Response * Server * option (positive * string) :=
  match parse body with
  | None => ({| status := 400; json := ErrorBody "請求數據格式錯誤" |}, w, None)
  | Some validatedData =>
      if bool_decide (adminPassword validatedData ≠
                        Storage.ADMIN_PASSWORD (env_ADMIN_PASSWORD w)) then
        ({| status := 401; json := ErrorBody "管理員密碼錯誤" |}, w, None)
      else
        let '(updatedConfig, storage') :=
          Storage.setApiConfig (storage w)
            {| Storage.in_apiUrl := apiUrl validatedData;
               Storage.in_isActive := true;
               Storage.in_description :=
                 Some (Js.or_default (description validatedData) "API配置已更新");
               Storage.in_updatedBy := Some "admin" |}
            uuid now_set in
        let '(monitor', inflight) :=
          ApiMonitor.startMonitoring (ApiMonitor.cleanup (apiMonitor w))
            (apiUrl validatedData) now_start in
        ({| status := 200;
            json := UpdatedBody true "API配置更新成功" (view updatedConfig) |},
         {| storage := storage'; apiMonitor := monitor';
            env_ADMIN_PASSWORD := env_ADMIN_PASSWORD w |},
         inflight)
  end.

End Handlers.

End Routes.

(** ** client/src/services/audioSeparationAPI.ts *)

Module AudioSeparationAPI.

Inductive TaskStatus := queued | processing | completed | failed.

(** [AudioTask] of shared/schema.ts, without the optional file and
    quality-score fields, which the client only displays. *)
Record AudioTask := {
  task_id : string;
  status : TaskStatus;
  progress : Z;
  message : string;
  error : option string
}.

Record t := {
  baseURL : string;
  currentTaskId : option string;
  pollingInterval : option positive
}.

(** [baseURL || process.env.VITE_BACKEND_URL || 'http://backend:5000'] *)
Definition new (baseURL VITE_BACKEND_URL : option string) : t :=
  {| baseURL := Js.or_default baseURL
                  (Js.or_default VITE_BACKEND_URL "http://backend:5000");
     currentTaskId := None;
     pollingInterval := None |}.

(** How the request of [getTaskStatus] ends: an ok response with its
    JSON body, a response that is not ok with the [error] field of its
    body if it has one, or a failure of [fetch] or of the JSON parser. *)
Inductive StatusFetch :=
| StatusOk (task : AudioTask)
| StatusNotOk (errorData_error : option string)
| StatusThrew (e : Js.Thrown).

(** [getTaskStatus]: the task, or the value it throws. *)
Definition getTaskStatus (r : StatusFetch) : AudioTask + Js.Thrown :=
  match r with
  | StatusOk task => inl task
  | StatusNotOk e => inr (Js.ThrownError "Error" (Js.or_default e "查詢失敗"))
  | StatusThrew e => inr e
  end.

(** How the request of [uploadAudio] ends. *)
Inductive UploadFetch :=
| UploadOk (task_id : string)
| UploadNotOk (errorData_error : option string)
| UploadThrew (e : Js.Thrown).

(** [uploadAudio]: the task id of the response, or the value thrown;
    the instance remembers the task id. *)
Definition uploadAudio (a : t) (r : UploadFetch) : (string + Js.Thrown) * t :=
  match r with
  | UploadOk task_id =>
      (inl task_id,
       {| baseURL := baseURL a; currentTaskId := Some task_id;
          pollingInterval := pollingInterval a |})
  | UploadNotOk e => (inr (Js.ThrownError "Error" (Js.or_default e "上傳失敗")), a)
  | UploadThrew e => (inr e, a)
  end.

Section Polling.

(** The state that the callbacks handed to [startPolling] act on. *)
Context {S : Type}.

(** [onError] receives an [Error]; it is represented by its message. *)
Record Callbacks := {
  onUpdate : AudioTask → S → S;
  onComplete : AudioTask → S → S;
  onError : string → S → S
}.

(** An API instance in its browser: the table of active intervals
    (each polls the task it is mapped to, with the callbacks it was
    started with) and the state the callbacks act on. *)
Record Browser := {
  api : t;
  timers : Timers.table (string * Callbacks);
  client : S
}.

Definition startPolling (w : Browser) (taskId : string) (cbs : Callbacks) : Browser :=
  let timers1 :=
    match pollingInterval (api w) with
    | Some h => Timers.clearInterval h (timers w)
    | None => timers w
    end in
  let '(h, timers2) := Timers.setInterval (taskId, cbs) timers1 in
  {| api := {| baseURL := baseURL (api w);
               currentTaskId := currentTaskId (api w);
               pollingInterval := Some h |};
     timers := timers2;
     client := client w |}.

Definition stopPolling (w : Browser) : Browser :=
  match pollingInterval (api w) with
  | Some h =>
      {| api := {| baseURL := baseURL (api w);
                   currentTaskId := currentTaskId (api w);
                   pollingInterval := None |};
         timers := Timers.clearInterval h (timers w);
         client := client w |}
  | None => w
  end.

Definition call (f : S → S) (w : Browser) : Browser :=
  {| api := api w; timers := timers w; client := f (client w) |}.

(** The instance after a call of [uploadAudio] whose request ended as
    [r]. *)
Definition uploaded (w : Browser) (r : UploadFetch) : Browser :=
  {| api := (uploadAudio (api w) r).2; timers := timers w; client := client w |}.

(** The callback of interval [h], if [h] is still active: the status
    request it issues, with the task and the callbacks it closes
    over. *)
Definition tick (w : Browser) (h : positive) : option (string * (string * Callbacks)) :=
  match Timers.active (timers w) !! h with
  | None => None
  | Some (taskId, cbs) =>
      Some (baseURL (api w) +:+ "/api/status/" +:+ taskId, (taskId, cbs))
  end.

(** The interval callback from the point where the status request has
    settled. *)
Definition tick_resume (w : Browser) (cbs : Callbacks) (r : StatusFetch) : Browser :=
  match getTaskStatus r with
  | inl st =>
      let w1 := call (onUpdate cbs st) w in
      match status st with
      | completed => call (onComplete cbs st) (stopPolling w1)
      | failed =>
          call (onError cbs (Js.or_default (error st) "處理失敗")) (stopPolling w1)
      | _ => w1
      end
  | inr e =>
      call (onError cbs
              match e with
              | Js.ThrownError _ message => message
              | Js.ThrownOther => "Unknown polling error"
              end)
           (stopPolling w)
  end.

End Polling.

Arguments Callbacks : clear implicits.
Arguments Browser : clear implicits.

End AudioSeparationAPI.

(** ** client/src/hooks/useAudioSeparation.ts *)

Module UseAudioSeparation.

(** The [useState] cells that the task workflow writes. *)
Record State := {
  isProcessing : bool;
  progress : Z;
  status : string;
  result : option AudioSeparationAPI.AudioTask;
  error : option string;
  currentTaskId : option string
}.

Definition initial : State :=
  {| isProcessing := false; progress := 0; status := ""; result := None;
     error := None; currentTaskId := None |}.

(** The three callbacks that [processAudio] hands to [startPolling]. *)
Definition onUpdate (statusData : AudioSeparationAPI.AudioTask) (s : State) : State :=
  {| isProcessing := isProcessing s;
     progress := AudioSeparationAPI.progress statusData;
     status := AudioSeparationAPI.message statusData;
     result := result s; error := error s; currentTaskId := currentTaskId s |}.

Definition onComplete (statusData : AudioSeparationAPI.AudioTask) (s : State) : State :=
  {| isProcessing := false; progress := 100; status := "完成！";
     result := Some statusData; error := error s;
     currentTaskId := currentTaskId s |}.

Definition onError (err_message : string) (s : State) : State :=
  {| isProcessing := false; progress := progress s; status := status s;
     result := result s; error := Some err_message;
     currentTaskId := currentTaskId s |}.

Definition callbacks : AudioSeparationAPI.Callbacks State :=
  {| AudioSeparationAPI.onUpdate := onUpdate;
     AudioSeparationAPI.onComplete := onComplete;
     AudioSeparationAPI.onError := onError |}.

(** [processAudio] up to its first [await]. *)
Definition processAudio_begin (s : State) : State :=
  {| isProcessing := true; progress := 0; status := "上傳中...";
     result := None; error := None; currentTaskId := currentTaskId s |}.

(** [processAudio] from the point where [api.uploadAudio] has resolved
    with [task_id]: it records the task and starts polling. *)
Definition processAudio_uploaded (w : AudioSeparationAPI.Browser State)
    (task_id : string) : AudioSeparationAPI.Browser State :=
  let s := AudioSeparationAPI.client w in
  AudioSeparationAPI.startPolling
    {| AudioSeparationAPI.api := AudioSeparationAPI.api w;
       AudioSeparationAPI.timers := AudioSeparationAPI.timers w;
       AudioSeparationAPI.client :=
         {| isProcessing := isProcessing s; progress := progress s;
            status := "處理中..."; result := result s; error := error s;
            currentTaskId := Some task_id |} |}
    task_id callbacks.

(** [reset] in a render whose [api] is the instance of [w]: that
    instance stops polling and the cells go back to their initial
    values.  [Workflow.reset] is the [reset] of a page, where [setApi]
    may have put another instance in place. *)
Definition reset (w : AudioSeparationAPI.Browser State)
    : AudioSeparationAPI.Browser State :=
  AudioSeparationAPI.call (λ _, initial) (AudioSeparationAPI.stopPolling w).

(** The workflow is in its failed state when an error is displayed and
    no processing is going on. *)
Definition failed (s : State) (err_message : string) : Prop :=
  error s = Some err_message ∧ isProcessing s = false.

End UseAudioSeparation.

(** ** client/src/components/AudioUploader.tsx *)

Module AudioUploader.

Record File := { name : string; size : Z }.

Inductive Effect :=
| Alert (text : string)
| Confirm (text : string)
| OnFileSelect (file : File).

Definition maxSize : Z := 50 * 1024 * 1024.

Definition allowedExtensions : list string :=
  [".wav"; ".mp3"; ".flac"; ".ogg"; ".m4a"].

(** [file.name.toLowerCase().substring(file.name.lastIndexOf('.'))]:
    the index is taken in the name as it is and applied to the
    lower-cased name.  For a name of ASCII characters the two have the
    same length and this is the component's extension; for other names
    JavaScript's lower-casing may change letters that [Js.toLowerCase]
    keeps, and may shift the index. *)
Definition fileExtension (file : File) : string :=
  Js.substring (Js.toLowerCase (name file)) (Js.lastIndexOf (name file) ".").

(** [allowedExtensions.includes(fileExtension)] *)
Definition includes (l : list string) (s : string) : bool :=
  bool_decide (s ∈ l).

(** [files] is [event.target.files]; [shouldContinue] is the answer the
    user gives if the M4A dialog is shown. *)
Definition handleFileSelect (files : list File) (shouldContinue : bool) : list Effect :=
  match files with
  | [] => []
  | file :: _ =>
      if bool_decide (size file > maxSize) then
        [Alert "文件過大，請選擇小於50MB的文件"]
      else if negb (includes allowedExtensions (fileExtension file)) then
        [Alert "不支援的文件格式，請使用WAV/MP3/FLAC/OGG/M4A格式"]
      else if bool_decide (fileExtension file = ".m4a") then
        Confirm ("M4A格式可能存在兼容性問題。" +:+ Js.nl +:+ Js.nl +:+
                 "如果遇到處理失敗，建議轉換為WAV格式以獲得最佳兼容性。" +:+
                 Js.nl +:+ Js.nl +:+ "是否要繼續使用M4A格式？") ::
        (if shouldContinue then [OnFileSelect file] else [])
      else [OnFileSelect file]
  end.

End AudioUploader.

(** ** Runs of the mail service *)

Module MailRun.

Import EmailService.

(** One call of [sendNotification] with what it reads from the world. *)
Record Call := {
  note : EmailNotification;
  url : option string;
  env : Env
}.

Definition key (c : Call) : string := notificationKey (note c) (url c).

Definition send (s : t) (c : Call) : Result :=
  sendNotification s (note c) (url c) (env c).

(** A run threads the service through the calls and keeps, next to it,
    the log of the successful deliveries: key and recorded time, latest
    first. *)
Definition step (sl : t * list (string * Z)) (c : Call) : t * list (string * Z) :=
  let r := send sl.1 c in
  (after r, if returned r then (key c, now_sent (env c)) :: sl.2 else sl.2).

Definition run (s : t) (cs : list Call) : t * list (string * Z) :=
  foldl step (s, []) cs.

(** A service whose transport is configured and that has not sent
    anything yet. *)
Definition configured : t :=
  {| transporter := true; lastNotificationTime := ∅ |}.

(** The clock readings of the calls, in the order they are taken, start
    at [t0] or later and never go backwards. *)
Fixpoint chronological (t0 : Z) (cs : list Call) : Prop :=
  match cs with
  | [] => True
  | c :: cs' =>
      t0 ≤ now_check (env c) ∧ now_check (env c) ≤ now_sent (env c) ∧
      chronological (now_sent (env c)) cs'
  end.

(** The last clock reading of the calls, [t0] if there is none. *)
Definition last_reading (t0 : Z) (cs : list Call) : Z :=
  foldl (λ _ c, now_sent (env c)) t0 cs.

Definition cooldownMs : Z := COOLDOWN_MINUTES * 60 * 1000.

(** The service after it has served [cs], starting configured and
    fresh, and the deliveries that succeeded on the way. *)
Definition state_after (cs : list Call) : t := (run configured cs).1.
Definition delivered (cs : list Call) : list (string * Z) := (run configured cs).2.

(** What a run maintains: the transport stays configured, and the
    record of last send times agrees with the log of deliveries, whose
    times lie after the epoch and up to the last clock reading [T]. *)
Definition agrees (sl : t * list (string * Z)) (T : Z) : Prop :=
  transporter sl.1 = true ∧
  (∀ k t, lastNotificationTime sl.1 !! k = Some t → (k, t) ∈ sl.2) ∧
  (∀ k t', (k, t') ∈ sl.2 →
     0 < t' ≤ T ∧ ∃ t, lastNotificationTime sl.1 !! k = Some t ∧ t' ≤ t).

(** A recovery notice for [apiUrl] sent at clock reading [now]; the
    transport answers 200 ms later. *)
Definition recovery_call (apiUrl : string) (now : Z) (ok : bool) : Call :=
  {| note := recoveredNotification apiUrl now;
     url := Some apiUrl;
     env := {| now_check := now; mail_ok := ok; now_sent := now + 200 |} |}.

End MailRun.

(** ** Runs of the health monitor *)

Module MonitorRun.

Import ApiMonitor.

(** A probe fails when the response is not ok or the request is
    rejected. *)
Definition succeeded (res : FetchResult) : bool :=
  match res with
  | Response code => ok code
  | Rejected _ => false
  end.

(** The error that a failed probe records. *)
Definition failure (res : FetchResult) : EmailService.ErrorInfo :=
  match res with
  | Response code =>
      EmailService.Build_ErrorInfo (Some "Error") (Some ("HTTP " +:+ pretty code))
  | Rejected e => e
  end.

(** Probes of [apiUrl] started by the interval, each given as the way
    its request ends and the clock reading when it does, and each
    running to completion before the next one starts.  Returns the
    notifications of every probe. *)
Fixpoint ticks (m : t) (apiUrl : string) (rs : list (FetchResult * Z))
    : t * list (list Notify) :=
  match rs with
  | [] => (m, [])
  | (res, now) :: rs' =>
      let p := checkApiHealth m apiUrl res now in
      let '(m', ns) := ticks (monitor p) apiUrl rs' in
      (m', notified p :: ns)
  end.

(** [startMonitoring m apiUrl now0] followed by the outcomes [rs] of
    its probes: the first outcome is that of the probe started by
    [startMonitoring] itself, the others are those of the interval's
    probes. *)
Definition monitored (m : t) (apiUrl : string) (now0 : Z)
    (rs : list (FetchResult * Z)) : t * list (list Notify) :=
  let '(m1, inflight) := startMonitoring m apiUrl now0 in
  match inflight, rs with
  | Some (status, _), (res, now) :: rs' =>
      let '(m2, ns) := checkApiHealth_resume m1 apiUrl status res now in
      let '(m3, nss) := ticks m2 apiUrl rs' in
      (m3, ns :: nss)
  | _, _ => (m1, [])
  end.

(** The record [st] after a probe that ended as [res] at clock reading
    [now], and the notifications that probe makes about [apiUrl]. *)
Definition settled (res : FetchResult) (now : Z) (st : ApiHealthStatus) : ApiHealthStatus :=
  {| isHealthy := succeeded res;
     lastCheck := now;
     lastError := if succeeded res then None else Some (failure res);
     consecutiveFailures := if succeeded res then 0 else consecutiveFailures st + 1;
     uptime := uptime st |}.

Definition notices (apiUrl : string) (res : FetchResult) (now : Z)
    (st : ApiHealthStatus) : list Notify :=
  if succeeded res then
    if negb (isHealthy st) && bool_decide (now > 0)
    then [NotifyApiRecovered apiUrl] else []
  else
    if isHealthy st && bool_decide (consecutiveFailures st + 1 >= MAX_RETRIES)
    then [NotifyApiConnectionError apiUrl (failure res) (consecutiveFailures st + 1)]
    else [].

(** [m] with the object at [status] replaced. *)
Definition with_object (m : t) (status : positive) (st : ApiHealthStatus) : t :=
  {| objects := <[status := st]> (objects m); nextObject := nextObject m;
     healthStatus := healthStatus m;
     monitoringIntervals := monitoringIntervals m;
     intervals := intervals m |}.

(** [apiUrl] is mapped to the object [status], which holds [st]. *)
Definition record_at (m : t) (apiUrl : string) (status : positive)
    (st : ApiHealthStatus) : Prop :=
  healthStatus m !! apiUrl = Some status ∧ objects m !! status = Some st.

(** The call on the mail service that a notification stands for;
    [now] is the clock reading shown in the mail. *)
Definition deliver (es : EmailService.t) (n : Notify) (now : Z)
    (env : EmailService.Env) : EmailService.Result :=
  match n with
  | NotifyApiRecovered apiUrl => EmailService.notifyApiRecovered es apiUrl now env
  | NotifyApiConnectionError apiUrl e retryCount =>
      EmailService.notifyApiConnectionError es apiUrl e retryCount now env
  end.

(** The mails handed to the transport when the notifications [ns] are
    made one after the other. *)
Fixpoint mails (es : EmailService.t) (ns : list (Notify * Z * EmailService.Env))
    : list EmailService.Mail :=
  match ns with
  | [] => []
  | (n, now, env) :: ns' =>
      let r := deliver es n now env in
      EmailService.attempted r ++ mails (EmailService.after r) ns'
  end.

(** The states of the monitor that its methods and its probes can
    produce. *)
Inductive reachable : t → Prop :=
| reach_new : reachable new
| reach_startMonitoring m apiUrl now :
    reachable m → reachable (startMonitoring m apiUrl now).1
| reach_stopMonitoring m apiUrl :
    reachable m → reachable (stopMonitoring m apiUrl)
| reach_cleanup m :
    reachable m → reachable (cleanup m)
| reach_probe m apiUrl status res now :
    reachable m → reachable (checkApiHealth_resume m apiUrl status res now).1.


(** The active intervals are exactly those recorded in
    [monitoringIntervals], each probing the URL it is recorded for. *)
Definition consistent (m : t) : Prop :=
  Timers.bounded (intervals m) ∧
  ∀ h u, Timers.active (intervals m) !! h = Some u ↔ monitoringIntervals m !! u = Some h.

(** The time-out error of a probe. *)
Definition timeout : FetchResult :=
  Rejected (EmailService.Build_ErrorInfo (Some "AbortError")
              (Some "This operation was aborted")).

End MonitorRun.

(** ** Runs of the polling client *)

Module PollingRun.

Import AudioSeparationAPI.

Section Client.
Context {S : Type}.

(** The states an API instance can get into: its methods are called
    with any arguments, its requests and those of its interval
    callbacks settle in any way, and the callers change their own state
    as they like. *)
Inductive reachable : Browser S → Prop :=
| reach_new baseURL VITE_BACKEND_URL s :
    reachable {| api := new baseURL VITE_BACKEND_URL;
                 timers := Timers.empty; client := s |}
| reach_startPolling w taskId cbs :
    reachable w → reachable (startPolling w taskId cbs)
| reach_stopPolling w :
    reachable w → reachable (stopPolling w)
| reach_uploadAudio w r :
    reachable w → reachable (uploaded w r)
| reach_tick w cbs r :
    reachable w → reachable (tick_resume w cbs r)
| reach_call w f :
    reachable w → reachable (call f w).

(** The interval in [pollingInterval], and no other, is active. *)
Definition consistent (w : Browser S) : Prop :=
  Timers.bounded (timers w) ∧
  ∀ h, is_Some (Timers.active (timers w) !! h) ↔ pollingInterval (api w) = Some h.

(** A run of polls of one interval: the status requests settle with
    [rs], one after the other. *)
Definition polls (w : Browser S) (cbs : Callbacks S) (rs : list StatusFetch) : Browser S :=
  foldl (λ w r, tick_resume w cbs r) w rs.

End Client.

(** The error that a poll surfaces, if it is one that ends the task:
    the response reports the task as failed, or the request itself
    fails. *)
Definition poll_failure (r : StatusFetch) : option string :=
  match r with
  | StatusOk task =>
      match status task with
      | failed => Some (Js.or_default (error task) "處理失敗")
      | _ => None
      end
  | StatusNotOk e => Some (Js.or_default e "查詢失敗")
  | StatusThrew (Js.ThrownError _ message) => Some message
  | StatusThrew Js.ThrownOther => Some "Unknown polling error"
  end.

(** A page that has uploaded a file, was given the task "abc" for it
    and is polling that task. *)
Definition polling_abc : Browser UseAudioSeparation.State :=
  UseAudioSeparation.processAudio_uploaded
    (uploaded
       {| api := new (Some "http://backend:5000") None;
          timers := Timers.empty;
          client := UseAudioSeparation.processAudio_begin UseAudioSeparation.initial |}
       (UploadOk "abc"))
    "abc".

End PollingRun.

(** ** Invariants of the health monitor *)

Module MonitorInv.

Import ApiMonitor.

(** A record that is healthy has no failures counted. *)
Definition healthy_reset (m : t) : Prop :=
  ∀ r st, objects m !! r = Some st → isHealthy st = true → consecutiveFailures st = 0.

(** Every URL has a record of its own: the references in [healthStatus]
    point to objects that exist, lie below [nextObject], and no two
    URLs share one. *)
Definition separate (m : t) : Prop :=
  (∀ u r, healthStatus m !! u = Some r →
          (r < nextObject m)%positive ∧ is_Some (objects m !! r)) ∧
  (∀ u u' r, healthStatus m !! u = Some r → healthStatus m !! u' = Some r → u = u').



End MonitorInv.

(** ** Runs of the configuration store *)

Module StorageRun.

Import Storage.

(** One call of [setApiConfig]: the new fields, what [randomUUID()]
    would return, and the clock reading. *)
Definition write (s : MemStorage) (c : ApiConfigInput * string * Z) : MemStorage :=
  (setApiConfig s c.1.1 c.1.2 c.2).2.

Definition writes (s : MemStorage) (cs : list (ApiConfigInput * string * Z)) : MemStorage :=
  foldl write s cs.

End StorageRun.

(** ** client/src/services/apiConfigService.ts *)

Module ApiConfigService.

(** The configuration as the client sees it.  [updatedAt] stands for
    the string in the JSON: it is the time that
    [new Date(updatedAt).getTime()] gives, [None] when that is NaN. *)
Record ApiConfig := {
  apiUrl : string;
  isActive : bool;
  description : option string;
  updatedAt : option Z
}.

(** [configPromise] holds the pending promise, if any; promises are
    told apart by a number, and [nextPromise] is the number of the next
    one created. *)
Record t := {
  cachedConfig : option ApiConfig;
  configPromise : option positive;
  nextPromise : positive
}.

Definition new : t :=
  {| cachedConfig := None; configPromise := None; nextPromise := 1%positive |}.

(** How a request to /api/config ends: an ok response with its JSON
    body, a response that is not ok, or a failure of [fetch] or of the
    JSON parser. *)
Inductive ConfigFetch :=
| ConfigOk (config : ApiConfig)
| ConfigNotOk (status : Z)
| ConfigThrew.

(** [fetchConfig] from the point where the request has settled; [now]
    is the reading of [new Date()] in the catch clause. *)
Definition fetchConfig (VITE_BACKEND_URL : option string) (r : ConfigFetch) (now : Z)
    : ApiConfig :=
  match r with
  | ConfigOk config => config
  | ConfigNotOk _ | ConfigThrew =>
      {| apiUrl := Js.or_default VITE_BACKEND_URL "http://backend:5000";
         isActive := false;
         description := Some "無法連接到配置服務器，使用默認配置";
         updatedAt := Some now |}
  end.

(** [cacheAge < 5 * 60 * 1000]; a comparison with NaN is false. *)
Definition fresh (c : ApiConfig) (now : Z) : bool :=
  match updatedAt c with
  | Some t => bool_decide (now - t < 5 * 60 * 1000)
  | None => false
  end.

(** How a call of [getConfig] goes on after its synchronous part: it
    returns the cached configuration, it returns the pending promise,
    or it has started a request of its own. *)
Inductive Started :=
| Hit (config : ApiConfig)
| Joined (promise : positive)
| Fetching (promise : positive).

(** [getConfig] up to its [await]. *)
Definition getConfig_begin (s : t) (now : Z) : Started * t :=
  match cachedConfig s with
  | Some c =>
      if fresh c now then (Hit c, s)
      else
        match configPromise s with
        | Some p => (Joined p, s)
        | None =>
            (Fetching (nextPromise s),
             {| cachedConfig := cachedConfig s;
                configPromise := Some (nextPromise s);
                nextPromise := Pos.succ (nextPromise s) |})
        end
  | None =>
      match configPromise s with
      | Some p => (Joined p, s)
      | None =>
          (Fetching (nextPromise s),
           {| cachedConfig := cachedConfig s;
              configPromise := Some (nextPromise s);
              nextPromise := Pos.succ (nextPromise s) |})
      end
  end.

(** [getConfig], for the call that started the request, from the point
    where its promise has resolved with [config]. *)
Definition getConfig_settle (s : t) (config : ApiConfig) : ApiConfig * t :=
  (config,
   {| cachedConfig := Some config; configPromise := None;
      nextPromise := nextPromise s |}).

(** A call of [getConfig] that runs to completion with nothing in
    between.  [r] and [now_fail] say how the request it waits for ends;
    the last component lists the requests this call issues. *)
Definition getConfig (VITE_BACKEND_URL : option string) (s : t) (now : Z)
    (r : ConfigFetch) (now_fail : Z) : ApiConfig * t * list string :=
  match getConfig_begin s now with
  | (Hit c, s') => (c, s', [])
  | (Joined _, s') => (fetchConfig VITE_BACKEND_URL r now_fail, s', [])
  | (Fetching _, s') =>
      let '(c, s'') := getConfig_settle s' (fetchConfig VITE_BACKEND_URL r now_fail) in
      (c, s'', ["/api/config"])
  end.

(** How the POST of [updateConfig] ends. *)
Inductive UpdateFetch :=
| UpdateOk (result_config : ApiConfig)
| UpdateNotOk (errorData_error : option string)
| UpdateThrew (e : Js.Thrown).

(** [updateConfig]: the new configuration, or the value thrown. *)
Definition updateConfig (s : t) (r : UpdateFetch) : (ApiConfig + Js.Thrown) * t :=
  match r with
  | UpdateOk config =>
      (inl config,
       {| cachedConfig := Some config; configPromise := configPromise s;
          nextPromise := nextPromise s |})
  | UpdateNotOk e =>
      (inr (Js.ThrownError "Error" (Js.or_default e "配置更新失敗")), s)
  | UpdateThrew e => (inr e, s)
  end.

Definition clearCache (s : t) : t :=
  {| cachedConfig := None; configPromise := None; nextPromise := nextPromise s |}.

(** [this.cachedConfig?.apiUrl || null] *)
Definition getCachedApiUrl (s : t) : option string :=
  match cachedConfig s with
  | Some c => if Js.truthy (apiUrl c) then Some (apiUrl c) else None
  | None => None
  end.

End ApiConfigService.

(** ** The whole of [processAudio] *)

Module Workflow.

Import AudioSeparationAPI.

(** [s.startsWith(p)], [s.includes(t)] and [s.endsWith(t)]. *)
Fixpoint startsWith (p s : string) : bool :=
  match p, s with
  | EmptyString, _ => true
  | String a p', String b s' => Ascii.eqb a b && startsWith p' s'
  | String _ _, EmptyString => false
  end.

Fixpoint includes (t s : string) : bool :=
  startsWith t s ||
  match s with
  | EmptyString => false
  | String _ s' => includes t s'
  end.

Definition endsWith (s t : string) : bool :=
  bool_decide (String.length t ≤ String.length s)%nat &&
  bool_decide (Js.drop (String.length s - String.length t) s = t).

(** [HealthResponse] of shared/schema.ts. *)
Record HealthResponse := {
  health_status : string;
  model_loaded : bool;
  gpu_available : bool;
  device : string;
  timestamp : string
}.

Inductive ConnectionStatus := checking | connected | disconnected.

(** The cells of the hook besides those of the task workflow, and the
    API instance with its intervals.  [nextApi] is the instance that
    [setApi] has put in place for the renders to come; the callbacks of
    the current render keep using [api browser]. *)
Record Page := {
  browser : Browser UseAudioSeparation.State;
  connectionStatus : ConnectionStatus;
  healthData : option HealthResponse;
  currentApiUrl : string;
  nextApi : option AudioSeparationAPI.t;
  originalAudioBlob : option AudioUploader.File
}.

Inductive Request :=
| GetHealth (url : string)
| PostConnectionError (apiUrl : string) (error : string)
| PostUpload (url : string) (file : AudioUploader.File).

(** What one call of the hook's [checkHealth] reads from the world: how
    [api.checkHealth()] ends, and what the two calls of
    [apiConfigService.getConfig()] in its catch clause return. *)
Record HealthEnv := {
  health : HealthResponse + Js.Thrown;
  config_retry : ApiConfigService.ApiConfig;
  config_report : ApiConfigService.ApiConfig
}.

Definition with_cells (p : Page) (f : UseAudioSeparation.State → UseAudioSeparation.State) : Page :=
  {| browser := call f (browser p);
     connectionStatus := connectionStatus p; healthData := healthData p;
     currentApiUrl := currentApiUrl p; nextApi := nextApi p;
     originalAudioBlob := originalAudioBlob p |}.

(** The hook's [checkHealth].  [closure_url] is the [currentApiUrl] of
    the render the callback belongs to. *)
Definition checkHealth (VITE_BACKEND_URL : option string) (closure_url : string)
    (p : Page) (retryWithNewConfig : bool) (env : HealthEnv)
    : bool * Page * list Request :=
  let get := GetHealth (baseURL (api (browser p)) +:+ "/api/health") in
  match health env with
  | inl h =>
      let ok := bool_decide (health_status h = "ok") in
      (ok,
       {| browser := browser p;
          connectionStatus := if ok then connected else disconnected;
          healthData := Some h;
          currentApiUrl := currentApiUrl p; nextApi := nextApi p;
          originalAudioBlob := originalAudioBlob p |},
       [get])
  | inr e =>
      if retryWithNewConfig &&
         bool_decide (ApiConfigService.apiUrl (config_retry env) ≠ closure_url)
      then
        (false,
         {| browser := browser p;
            connectionStatus := disconnected;
            healthData := None;
            currentApiUrl := ApiConfigService.apiUrl (config_retry env);
            nextApi := Some (AudioSeparationAPI.new
                               (Some (ApiConfigService.apiUrl (config_retry env)))
                               VITE_BACKEND_URL);
            originalAudioBlob := originalAudioBlob p |},
         [get])
      else
        (false,
         {| browser := browser p;
            connectionStatus := disconnected;
            healthData := None;
            currentApiUrl := currentApiUrl p; nextApi := nextApi p;
            originalAudioBlob := originalAudioBlob p |},
         [get;
          PostConnectionError (ApiConfigService.apiUrl (config_report env))
            match e with
            | Js.ThrownError _ message => message
            | Js.ThrownOther => "連接失敗"
            end])
  end.

(** The message that the catch clause of [processAudio] displays. *)
Definition displayed_error (audioFile : AudioUploader.File) (err : Js.Thrown) : string :=
  let errorMessage :=
    match err with
    | Js.ThrownError _ message => message
    | Js.ThrownOther => "未知錯誤"
    end in
  if endsWith (Js.toLowerCase (AudioUploader.name audioFile)) ".m4a" &&
     (includes "list index out of range" errorMessage ||
      includes "上傳失敗" errorMessage ||
      includes "Format not recognised" errorMessage ||
      includes "格式無法識別" errorMessage)
  then
    "M4A格式無法處理：" +:+ AudioUploader.name audioFile +:+ Js.nl +:+ Js.nl +:+
    "❌ 錯誤原因：音頻處理庫無法識別M4A格式" +:+ Js.nl +:+ Js.nl +:+
    "💡 解決方案：" +:+ Js.nl +:+
    "• 使用音頻轉換工具將M4A轉為WAV格式" +:+ Js.nl +:+
    "• 推薦使用Audacity、FFmpeg或線上轉換器" +:+ Js.nl +:+
    "• WAV格式具有最佳兼容性和音質保證"
  else errorMessage.

(** The catch clause of [processAudio]. *)
Definition processAudio_catch (p : Page) (audioFile : AudioUploader.File)
    (err : Js.Thrown) : Page :=
  with_cells p (UseAudioSeparation.onError (displayed_error audioFile err)).

(** [processAudio] with [api] initialised.  [e1], [e2], [e3] are what
    the first, second and third call of [checkHealth] read, should they
    be made; [upload] says how the upload ends, should it be made. *)
Definition processAudio (VITE_BACKEND_URL : option string) (p : Page)
    (audioFile : AudioUploader.File) (e1 e2 e3 : HealthEnv) (upload : UploadFetch)
    : Page * list Request :=
  let closure_url := currentApiUrl p in
  let a := api (browser p) in
  let p0 :=
    {| browser := call UseAudioSeparation.processAudio_begin (browser p);
       connectionStatus := connectionStatus p; healthData := healthData p;
       currentApiUrl := currentApiUrl p; nextApi := nextApi p;
       originalAudioBlob := Some audioFile |} in
  let '(isHealthy1, p1, rs1) := checkHealth VITE_BACKEND_URL closure_url p0 false e1 in
  let '(isHealthy, p3, rs3) :=
    if isHealthy1 then (true, p1, [])
    else
      let '(isConfigReloaded, p2, rs2) :=
        checkHealth VITE_BACKEND_URL closure_url p1 true e2 in
      if negb isConfigReloaded then
        let '(isHealthy3, p3, rs3) :=
          checkHealth VITE_BACKEND_URL closure_url p2 false e3 in
        (isHealthy3, p3, rs2 ++ rs3)
      else (false, p2, rs2) in
  if negb isHealthy then
    (processAudio_catch p3 audioFile
       (Js.ThrownError "Error" "後端服務不可用，請檢查API配置或稍後再試"),
     rs1 ++ rs3)
  else
    let post := PostUpload (baseURL a +:+ "/api/upload") audioFile in
    match uploadAudio (api (browser p3)) upload with
    | (inl task_id, a') =>
        ({| browser :=
              UseAudioSeparation.processAudio_uploaded
                {| api := a'; timers := timers (browser p3);
                   client := client (browser p3) |}
                task_id;
            connectionStatus := connectionStatus p3; healthData := healthData p3;
            currentApiUrl := currentApiUrl p3; nextApi := nextApi p3;
            originalAudioBlob := originalAudioBlob p3 |},
         rs1 ++ rs3 ++ [post])
    | (inr err, _) =>
        (processAudio_catch p3 audioFile err, rs1 ++ rs3 ++ [post])
    end.

(** [reset], called from the latest render.  Its [api] is the
    instance that [setApi] has put in place, if it has, and otherwise
    the one of [browser p]; it is that instance which stops polling.
    The intervals of all instances are in the one table of the event
    loop. *)
Definition reset (p : Page) : Page :=
  match nextApi p with
  | None =>
      {| browser := UseAudioSeparation.reset (browser p);
         connectionStatus := connectionStatus p; healthData := healthData p;
         currentApiUrl := currentApiUrl p; nextApi := None;
         originalAudioBlob := None |}
  | Some a =>
      let w := stopPolling {| api := a; timers := timers (browser p);
                              client := client (browser p) |} in
      {| browser := {| api := api (browser p); timers := timers w;
                       client := UseAudioSeparation.initial |};
         connectionStatus := connectionStatus p; healthData := healthData p;
         currentApiUrl := currentApiUrl p; nextApi := Some (api w);
         originalAudioBlob := None |}
  end.

(** [api.checkHealth()] returned a response whose status is "ok". *)
Definition answers_ok (e : HealthEnv) : bool :=
  match health e with
  | inl h => bool_decide (health_status h = "ok")
  | inr _ => false
  end.

(** A backend that answers ok and one whose health request fails, with
    the configuration service naming the same URL throughout; a page
    that has just been loaded; a small file. *)
Definition up_env : HealthEnv :=
  {| health := inl {| health_status := "ok"; model_loaded := true;
                      gpu_available := false; device := "cpu";
                      timestamp := "2025-09-05T10:00:00" |};
     config_retry := ApiConfigService.Build_ApiConfig
                       "http://backend:5000" true None (Some 1000);
     config_report := ApiConfigService.Build_ApiConfig
                        "http://backend:5000" true None (Some 1000) |}.

Definition down_env : HealthEnv :=
  {| health := inr (Js.ThrownError "Error" "HTTP 502: Bad Gateway");
     config_retry := ApiConfigService.Build_ApiConfig
                       "http://backend:5000" true None (Some 1000);
     config_report := ApiConfigService.Build_ApiConfig
                        "http://backend:5000" true None (Some 1000) |}.

(** A backend whose health request fails while the configuration
    service names another URL. *)
Definition moved_env : HealthEnv :=
  {| health := inr (Js.ThrownError "Error" "HTTP 502: Bad Gateway");
     config_retry := ApiConfigService.Build_ApiConfig
                       "https://new.example" true None (Some 2000);
     config_report := ApiConfigService.Build_ApiConfig
                        "https://new.example" true None (Some 2000) |}.

Definition loaded_page : Page :=
  {| browser := {| api := AudioSeparationAPI.new (Some "http://backend:5000") None;
                   timers := Timers.empty;
                   client := UseAudioSeparation.initial |};
     connectionStatus := connected; healthData := None;
     currentApiUrl := "http://backend:5000"; nextApi := None;
     originalAudioBlob := None |}.

Definition talk_wav : AudioUploader.File :=
  {| AudioUploader.name := "talk.wav"; AudioUploader.size := 2097152 |}.

Definition is_upload (r : Request) : bool :=
  match r with
  | PostUpload _ _ => true
  | _ => false
  end.

Definition is_health (r : Request) : bool :=
  match r with
  | GetHealth _ => true
  | _ => false
  end.

End Workflow.

(** ** The download with its retry, and the test-mail route *)

Module Download.

Import AudioSeparationAPI Workflow.

Section Blobs.

(** The audio data that a download returns. *)
Context {Blob : Type}.



End Blobs.

(** The body of the answer of POST /api/test-email. *)
Record TestEmailBody := { success : bool; message : string }.

(** [app.post('/api/test-email')]: the status, the body, the mail
    service afterwards and the mails handed to the transport.  [now] is
    the clock reading shown in the mail. *)
Definition post_test_email (es : EmailService.t) (now : Z) (env : EmailService.Env)
    : Z * TestEmailBody * EmailService.t * list EmailService.Mail :=
  let r := EmailService.testEmail es now env in
  (200,
   if EmailService.returned r
   then {| success := true; message := "測試郵件發送成功" |}
   else {| success := false; message := "郵件服務未配置或發送失敗" |},
   EmailService.after r,
   EmailService.attempted r).

End Download.

(** * Properties *)

(** ** Interval tables *)

Module TimersFacts.

Import Timers.

Section Table.
Context {A : Type}.
Implicit Types t : table A.

Lemma bounded_empty : bounded (@empty A).
Proof. intros h cb; cbn. by rewrite lookup_empty. Qed.

Lemma bounded_setInterval cb t :
  bounded t → bounded (setInterval cb t).2.
Proof.
  intros Hb h cb'; cbn. rewrite lookup_insert.
  case_decide as E; [intros _; lia |].
  intros H%Hb. lia.
Qed.

Lemma bounded_clearInterval h t :
  bounded t → bounded (clearInterval h t).
Proof.
  intros Hb h' cb; cbn. rewrite lookup_delete.
  case_decide; [done | apply Hb].
Qed.

Lemma bounded_next_free t : bounded t → active t !! next t = None.
Proof.
  intros Hb. destruct (active t !! next t) as [cb|] eqn:E; [|done].
  apply Hb in E. lia.
Qed.

End Table.

End TimersFacts.

(** ** The upload form *)

Module UploaderFacts.

Import AudioUploader.

Example extension_upper : fileExtension {| name := "Talk.WAV"; size := 1 |} = ".wav".
Proof. reflexivity. Qed.

Example extension_last_dot : fileExtension {| name := "a.wav.exe"; size := 1 |} = ".exe".
Proof. reflexivity. Qed.

Example extension_no_dot : fileExtension {| name := "WAV"; size := 1 |} = "wav".
Proof. reflexivity. Qed.

Example accept_mp3 :
  handleFileSelect [{| name := "a.b.mp3"; size := 2 * 1024 * 1024 |}] false
  = [OnFileSelect {| name := "a.b.mp3"; size := 2 * 1024 * 1024 |}].
Proof. reflexivity. Qed.

Example accept_at_limit :
  handleFileSelect [{| name := "x.ogg"; size := 52428800 |}] false
  = [OnFileSelect {| name := "x.ogg"; size := 52428800 |}].
Proof. reflexivity. Qed.

Lemma includes_spec l s : includes l s = true ↔ s ∈ l.
Proof. unfold includes. apply bool_decide_eq_true. Qed.

(** The file reaches [onFileSelect] only if it passes both checks. *)
Lemma handleFileSelect_accepts file rest shouldContinue g :
  OnFileSelect g ∈ handleFileSelect (file :: rest) shouldContinue →
  g = file ∧ size file ≤ maxSize ∧ fileExtension file ∈ allowedExtensions.
Proof.
  cbn [handleFileSelect].
  case_bool_decide as Hsz.
  { intros H%list_elem_of_singleton. discriminate. }
  destruct (includes allowedExtensions (fileExtension file)) eqn:Hin; cbn [negb].
  2:{ intros H%list_elem_of_singleton. discriminate. }
  apply includes_spec in Hin.
  intros H. assert (g = file) as ->; [|split; [done | split; [lia | done]]].
  case_bool_decide; [destruct shouldContinue|];
    repeat (apply elem_of_cons in H as [H|H]; [try discriminate; try congruence|]);
    by apply elem_of_nil in H.
Qed.

(** C8: a selected file that is larger than 50 MB, or whose extension
    (the lower-cased name from its last dot on) is not one of .wav,
    .mp3, .flac, .ogg, .m4a, is turned away with an alert and is never
    passed to [onFileSelect], so nothing is uploaded. *)
Theorem handleFileSelect_rejects (file : File) (rest : list File) (shouldContinue : bool) :
  size file > 50 * 1024 * 1024 ∨
    fileExtension file ∉ [".wav"; ".mp3"; ".flac"; ".ogg"; ".m4a"] →
  (∃ text, handleFileSelect (file :: rest) shouldContinue = [Alert text]) ∧
  ∀ g, OnFileSelect g ∉ handleFileSelect (file :: rest) shouldContinue.
Proof.
  intros Hbad.
  assert (∀ g, OnFileSelect g ∉ handleFileSelect (file :: rest) shouldContinue) as Hno.
  { intros g Hg. apply handleFileSelect_accepts in Hg as (_ & Hsz & Hext).
    unfold maxSize in Hsz. destruct Hbad as [Hbig | Hout]; [lia | by apply Hout]. }
  split; [|done].
  cbn [handleFileSelect] in *.
  case_bool_decide; [by eexists|].
  destruct (includes allowedExtensions (fileExtension file)); cbn [negb] in *; [|by eexists].
  exfalso. case_bool_decide as Hm4a; [destruct shouldContinue|].
  - apply (Hno file). do 2 constructor.
  - destruct Hbad as [Hbig | Hout]; [unfold maxSize in *; lia|].
    apply Hout. rewrite Hm4a. do 5 constructor.
  - apply (Hno file). constructor.
Qed.

Lemma handleFileSelect_rejects_witness :
  (size {| name := "notes.txt"; size := 10 |} > 50 * 1024 * 1024 ∨
     fileExtension {| name := "notes.txt"; size := 10 |}
       ∉ [".wav"; ".mp3"; ".flac"; ".ogg"; ".m4a"]) ∧
  ((∃ text, handleFileSelect [{| name := "notes.txt"; size := 10 |}] true = [Alert text]) ∧
   ∀ g, OnFileSelect g ∉ handleFileSelect [{| name := "notes.txt"; size := 10 |}] true).
Proof.
  assert (fileExtension {| name := "notes.txt"; size := 10 |}
            ∉ [".wav"; ".mp3"; ".flac"; ".ogg"; ".m4a"]) as Hout.
  { vm_compute. intros H.
    repeat (apply elem_of_cons in H as [H|H]; [discriminate|]).
    by apply elem_of_nil in H. }
  split; [by right|].
  apply (handleFileSelect_rejects {| name := "notes.txt"; size := 10 |} [] true).
  by right.
Defined.

End UploaderFacts.

(** ** Cooldown of the mail service *)

Module MailFacts.

Import EmailService MailRun.

Lemma isInCooldown_true s k now :
  isInCooldown s k now = true ↔
  ∃ lastTime, lastNotificationTime s !! k = Some lastTime ∧ lastTime ≠ 0 ∧
              now - lastTime < cooldownMs.
Proof.
  unfold isInCooldown, cooldownMs. destruct (lastNotificationTime s !! k) as [t0|].
  - case_decide as Hz.
    + split; [done | intros (? & [= <-] & ? & _); done].
    + rewrite bool_decide_eq_true. split; [by eauto | by intros (? & [= <-] & _ & ?)].
  - split; [done | by intros (? & ? & _)].
Qed.

(** The four ways a call can go. *)
Lemma sendNotification_cases s n u e :
  let r := sendNotification s n u e in
  let k := notificationKey n u in
  (transporter s = false ∧ returned r = false ∧ attempted r = [] ∧ after r = s) ∨
  (transporter s = true ∧ isInCooldown s k (now_check e) = true ∧
     returned r = false ∧ attempted r = [] ∧ after r = s) ∨
  (transporter s = true ∧ isInCooldown s k (now_check e) = false ∧ mail_ok e = true ∧
     returned r = true ∧ length (attempted r) = 1%nat ∧
     after r = {| transporter := true;
                  lastNotificationTime := <[k := now_sent e]> (lastNotificationTime s) |}) ∨
  (transporter s = true ∧ isInCooldown s k (now_check e) = false ∧ mail_ok e = false ∧
     returned r = false ∧ length (attempted r) = 1%nat ∧ after r = s).
Proof.
  cbn zeta. unfold sendNotification.
  destruct (transporter s) eqn:Ht; cbn [negb]; [|by left].
  destruct (isInCooldown s _ _) eqn:Hc; [right; left; done|].
  destruct (mail_ok e) eqn:Hm; [right; right; left | right; right; right]; done.
Qed.

Lemma sendNotification_delivered s n u e :
  transporter s = true →
  isInCooldown s (notificationKey n u) (now_check e) = false →
  mail_ok e = true →
  sendNotification s n u e
  = {| returned := true;
       attempted := [{| to := TARGET_EMAIL;
                        subject := "🚨 音頻處理系統通知: " +:+ title n;
                        html := n |}];
       after := {| transporter := true;
                   lastNotificationTime :=
                     <[notificationKey n u := now_sent e]> (lastNotificationTime s) |} |}.
Proof.
  intros Ht Hc Hm. unfold sendNotification. by rewrite Ht, Hc, Hm.
Qed.

Lemma agrees_configured T : agrees (configured, []) T.
Proof.
  split; [done|]. split.
  - intros k t. cbn. by rewrite lookup_empty.
  - intros k t' H. by apply elem_of_nil in H.
Qed.

Lemma agrees_step sl T c :
  0 < T → T ≤ now_check (env c) → now_check (env c) ≤ now_sent (env c) →
  agrees sl T → agrees (step sl c) (now_sent (env c)).
Proof.
  intros HT H1 H2 (Htr & Hin & Hlog). unfold step, send.
  destruct (sendNotification_cases sl.1 (note c) (url c) (env c))
    as [(Hf & _) | [(_ & _ & -> & _ & ->) | [(_ & _ & _ & -> & _ & ->) | (_ & _ & _ & -> & _ & ->)]]];
    [congruence | | |].
  - split; [done|]. split; [done|]. intros k t' Hk.
    destruct (Hlog k t' Hk) as (? & ?). split; [lia | done].
  - cbn [fst snd]. split; [done|]. split.
    + intros k t. cbn. rewrite lookup_insert. fold (key c). case_decide as E.
      * intros [= <-]. subst k. constructor.
      * intros H%Hin. by constructor.
    + intros k t'. cbn. fold (key c). rewrite lookup_insert.
      intros [[= -> ->] | Hk]%elem_of_cons.
      * rewrite decide_True by done. split; [lia | by eexists].
      * destruct (Hlog k t' Hk) as (? & t & Ht & ?). split; [lia|].
        case_decide; [exists (now_sent (env c)); split; [done | lia] | by exists t].
  - split; [done|]. split; [done|]. intros k t' Hk.
    destruct (Hlog k t' Hk) as (? & ?). split; [lia | done].
Qed.

Lemma chronological_last t0 cs : chronological t0 cs → t0 ≤ last_reading t0 cs.
Proof.
  revert t0. induction cs as [|c cs IH]; intros t0; cbn; [lia|].
  intros (? & ? & H%IH). unfold last_reading in H. lia.
Qed.

Lemma chronological_app t0 cs cs' :
  chronological t0 (cs ++ cs') ↔
  chronological t0 cs ∧ chronological (last_reading t0 cs) cs'.
Proof.
  revert t0. induction cs as [|c cs IH]; intros t0; cbn; [tauto|].
  rewrite IH. unfold last_reading. cbn. tauto.
Qed.

Lemma agrees_foldl cs : ∀ sl T,
  0 < T → chronological T cs → agrees sl T →
  agrees (foldl step sl cs) (last_reading T cs).
Proof.
  induction cs as [|c cs IH]; intros sl T HT Hch Hag; [done|].
  cbn in Hch. destruct Hch as (H1 & H2 & Hch). cbn [foldl].
  change (last_reading T (c :: cs)) with (last_reading (now_sent (env c)) cs).
  apply IH; [lia | done | by apply agrees_step with T].
Qed.

Lemma agrees_run t0 cs :
  0 < t0 → chronological t0 cs → agrees (run configured cs) (last_reading t0 cs).
Proof. intros. apply agrees_foldl; [done | done | apply agrees_configured]. Qed.

Lemma not_in_cooldown_later s k now now' :
  isInCooldown s k now = false → now ≤ now' → isInCooldown s k now' = false.
Proof.
  unfold isInCooldown. destruct (lastNotificationTime s !! k) as [t0|]; [|done].
  case_decide; [done|]. rewrite !bool_decide_eq_false. lia.
Qed.

(** C3: take a mail service whose transport is configured, any calls
    [cs] it has served since it was created and a further call [c],
    with clock readings after the epoch that never go backwards.
    Then [c] is skipped (nothing is handed to the transport, and the
    call returns false) if and only if some earlier call with the same
    key was delivered less than 180 minutes before; the send time is
    recorded under the key when, and only when, the delivery succeeds;
    and after a failed delivery the record is unchanged and the next
    call with that key is attempted again. *)
Theorem sendNotification_cooldown (cs : list Call) (c : Call) :
  chronological 1 (cs ++ [c]) →
  (attempted (send (state_after cs) c) = [] ↔
     ∃ t, (key c, t) ∈ delivered cs ∧ now_check (env c) - t < 180 * 60 * 1000) ∧
  (attempted (send (state_after cs) c) = [] →
     returned (send (state_after cs) c) = false ∧
     after (send (state_after cs) c) = state_after cs) ∧
  (returned (send (state_after cs) c) = true ↔
     attempted (send (state_after cs) c) ≠ [] ∧ mail_ok (env c) = true) ∧
  (returned (send (state_after cs) c) = true →
     lastNotificationTime (after (send (state_after cs) c))
     = <[key c := now_sent (env c)]> (lastNotificationTime (state_after cs))) ∧
  (returned (send (state_after cs) c) = false →
     after (send (state_after cs) c) = state_after cs) ∧
  (attempted (send (state_after cs) c) ≠ [] →
   returned (send (state_after cs) c) = false →
     ∀ c', key c' = key c → now_check (env c) ≤ now_check (env c') →
           attempted (send (after (send (state_after cs) c)) c') ≠ []).
Proof.
  unfold state_after, delivered, send, key.
  intros Hch. cbn zeta.
  apply chronological_app in Hch as (Hcs & Hc).
  cbn in Hc. destruct Hc as (Hnow & _ & _).
  pose proof (chronological_last 1 cs Hcs) as Hlast.
  destruct (agrees_run 1 cs ltac:(lia) Hcs) as (Htr & Hin & Hlog).
  set (s := (run configured cs).1) in *.
  set (delivered := (run configured cs).2) in *.
  pose proof (sendNotification_cases s (note c) (url c) (env c)) as Hcases.
  cbn zeta in Hcases.
  set (k := notificationKey (note c) (url c)) in *.
  set (r := sendNotification s (note c) (url c) (env c)) in *. clearbody r.
  assert (isInCooldown s k (now_check (env c)) = true ↔
          ∃ t, (k, t) ∈ delivered ∧ now_check (env c) - t < 180 * 60 * 1000) as Hcool.
  { rewrite isInCooldown_true. unfold cooldownMs, COOLDOWN_MINUTES. split.
    - intros (t & Ht & _ & Hlt). exists t. split; [by apply Hin | done].
    - intros (t' & Ht' & Hlt). destruct (Hlog k t' Ht') as (Hpos & t & Ht & Hle).
      exists t. split; [done|]. split; [|lia].
      destruct (Hlog k t (Hin k t Ht)) as (? & _). lia. }
  destruct Hcases as
    [(Hf & _) | [(_ & Hc & Hr & Ha & Hs) | [(_ & Hc & Hm & Hr & Hl & Hs) | (_ & Hc & Hm & Hr & Hl & Hs)]]];
    [congruence | | |].
  - (* skipped *)
    split; [|split; [|split; [|split; [|split]]]].
    + split; [intros _; by apply Hcool | done].
    + done.
    + rewrite Hr. split; [done | intros [H _]; by destruct H].
    + rewrite Hr. done.
    + done.
    + intros H. by destruct H.
  - (* delivered *)
    assert (attempted r ≠ []) as Hne by (intros E; rewrite E in Hl; discriminate).
    split; [|split; [|split; [|split; [|split]]]].
    + split; [done | intros H%Hcool; congruence].
    + done.
    + done.
    + intros _. by rewrite Hs.
    + rewrite Hr. done.
    + rewrite Hr. done.
  - (* delivery failed *)
    assert (attempted r ≠ []) as Hne by (intros E; rewrite E in Hl; discriminate).
    split; [|split; [|split; [|split; [|split]]]].
    + split; [done | intros H%Hcool; congruence].
    + done.
    + rewrite Hr, Hm. split; [done | by intros [_ ?]].
    + rewrite Hr. done.
    + done.
    + intros _ _ c' Hk Hle. rewrite Hs.
      pose proof (sendNotification_cases s (note c') (url c') (env c')) as Hc'.
      cbn zeta in Hc'.
      rewrite Hk in Hc'.
      pose proof (not_in_cooldown_later s k _ _ Hc Hle) as Hlater.
      destruct Hc' as [(? & _) | [(_ & ? & _) | [(_ & _ & _ & _ & Hl' & _) | (_ & _ & _ & _ & Hl' & _)]]];
        [congruence | congruence | |]; intros E; rewrite E in Hl'; discriminate.
Qed.

(** Two recovery notices for one backend, 1 s apart: the second one is
    skipped. *)
Lemma sendNotification_cooldown_witness :
  chronological 1 ([recovery_call "http://backend:5000" 1000 true]
                   ++ [recovery_call "http://backend:5000" 2000 true]) ∧
  (attempted (send (state_after [recovery_call "http://backend:5000" 1000 true])
                   (recovery_call "http://backend:5000" 2000 true)) = [] ↔
     ∃ t, (key (recovery_call "http://backend:5000" 2000 true), t)
            ∈ delivered [recovery_call "http://backend:5000" 1000 true] ∧
          now_check (env (recovery_call "http://backend:5000" 2000 true)) - t
            < 180 * 60 * 1000).
Proof.
  assert (chronological 1 ([recovery_call "http://backend:5000" 1000 true]
                           ++ [recovery_call "http://backend:5000" 2000 true])) as H
    by (cbn; lia).
  split; [exact H|].
  exact (proj1 (sendNotification_cooldown
                  [recovery_call "http://backend:5000" 1000 true]
                  (recovery_call "http://backend:5000" 2000 true) H)).
Defined.

Example second_notice_skipped :
  send (state_after [recovery_call "http://backend:5000" 1000 true])
       (recovery_call "http://backend:5000" 2000 true)
  = {| returned := false; attempted := [];
       after := state_after [recovery_call "http://backend:5000" 1000 true] |}.
Proof. vm_compute. done. Qed.

Example notice_after_cooldown_delivered :
  returned (send (state_after [recovery_call "http://backend:5000" 1000 true])
                 (recovery_call "http://backend:5000" (1200 + 180 * 60 * 1000) true))
  = true.
Proof. vm_compute. done. Qed.

Example failed_delivery_retried :
  returned (send (state_after [recovery_call "http://backend:5000" 1000 false])
                 (recovery_call "http://backend:5000" 2000 true))
  = true.
Proof. vm_compute. done. Qed.

End MailFacts.

(** ** Cooldown keys and backend URLs *)

Module KeyFacts.

Lemma or_default_truthy u d : Js.truthy u = true → Js.or_default (Some u) d = u.
Proof. by destruct u. Qed.

Lemma append_inj (p a b : string) : p +:+ a = p +:+ b → a = b.
Proof. induction p as [|c p IH]; cbn; [done|]. intros [= H]. by apply IH. Qed.

(** The mail service's key tells two non-empty URLs apart. *)
Lemma mail_key_url_inj (n1 n2 : EmailService.EmailNotification) (u1 u2 : string) :
  EmailService.severity n1 = EmailService.severity n2 →
  EmailService.title n1 = EmailService.title n2 →
  Js.truthy u1 = true → Js.truthy u2 = true → u1 ≠ u2 →
  EmailService.notificationKey n1 (Some u1) ≠ EmailService.notificationKey n2 (Some u2).
Proof.
  intros Hs Ht H1 H2 Hne. unfold EmailService.notificationKey.
  rewrite Hs, Ht, !or_default_truthy by done.
  intros E. do 4 apply append_inj in E. done.
Qed.

(** In the mail service, a notice about one backend never changes
    whether a like notice about another backend is in cooldown. *)
Lemma mail_cooldown_per_url (s : EmailService.t)
    (n1 n2 : EmailService.EmailNotification) (u1 u2 : string)
    (e : EmailService.Env) (now : Z) :
  EmailService.severity n1 = EmailService.severity n2 →
  EmailService.title n1 = EmailService.title n2 →
  Js.truthy u1 = true → Js.truthy u2 = true → u1 ≠ u2 →
  EmailService.isInCooldown
    (EmailService.after (EmailService.sendNotification s n1 (Some u1) e))
    (EmailService.notificationKey n2 (Some u2)) now
  = EmailService.isInCooldown s (EmailService.notificationKey n2 (Some u2)) now.
Proof.
  intros Hs Ht H1 H2 Hne.
  pose proof (mail_key_url_inj n1 n2 u1 u2 Hs Ht H1 H2 Hne) as Hk.
  destruct (MailFacts.sendNotification_cases s n1 (Some u1) e)
    as [(_ & _ & _ & ->) | [(_ & _ & _ & _ & ->) | [(_ & _ & _ & _ & _ & ->) | (_ & _ & _ & _ & _ & ->)]]];
    try done.
  unfold EmailService.isInCooldown. cbn. by rewrite lookup_insert_ne.
Qed.

(** The fallback for a missing URL makes the empty URL and the URL
    "unknown" share a key. *)
Example mail_key_unknown :
  EmailService.notificationKey (EmailService.recoveredNotification "" 1) (Some "")
  = EmailService.notificationKey (EmailService.recoveredNotification "unknown" 1) (Some "unknown").
Proof. reflexivity. Qed.

(** The webhook service's key does not depend on the backend at all. *)
Lemma discord_key_ignores_url (s : NotificationService.t) (u1 u2 : string)
    (m1 m2 : option string) (c1 c2 t1 : Z) (e1 : NotificationService.Env) :
  NotificationService.lastNotificationTime
    (NotificationService.after
       (NotificationService.notifyApiConnectionError s u1 m1 c1 t1 e1))
  = NotificationService.lastNotificationTime
      (NotificationService.after
         (NotificationService.notifyApiConnectionError s u2 m2 c2 t1 e1)).
Proof.
  unfold NotificationService.notifyApiConnectionError, NotificationService.sendNotification.
  unfold NotificationService.sendDiscordNotification.
  cbn. destruct (NotificationService.isInCooldown s _ _); [done|].
  destruct (NotificationService.discordWebhookUrl s) as [u|]; [|done].
  destruct (Js.truthy u); [|done].
  by destruct (NotificationService.webhook_ok e1).
Qed.

(** In the webhook service a delivered connection-error notice about
    one backend puts the notice about any other backend into cooldown
    for the next 15 minutes. *)
Lemma discord_cooldown_any_url (s : NotificationService.t) (u1 u2 : string)
    (m1 m2 : option string) (c1 c2 t1 t2 : Z) (e1 e2 : NotificationService.Env) :
  NotificationService.returned
    (NotificationService.notifyApiConnectionError s u1 m1 c1 t1 e1) = true →
  NotificationService.now_sent e1 ≠ 0 →
  NotificationService.now_check e2 - NotificationService.now_sent e1 < 15 * 60 * 1000 →
  NotificationService.notifyApiConnectionError
    (NotificationService.after
       (NotificationService.notifyApiConnectionError s u1 m1 c1 t1 e1))
    u2 m2 c2 t2 e2
  = {| NotificationService.returned := false;
       NotificationService.posted := [];
       NotificationService.logged := [];
       NotificationService.after :=
         NotificationService.after
           (NotificationService.notifyApiConnectionError s u1 m1 c1 t1 e1) |}.
Proof.
  unfold NotificationService.notifyApiConnectionError.
  unfold NotificationService.sendNotification at 1 3 4.
  unfold NotificationService.sendDiscordNotification. cbn.
  destruct (NotificationService.isInCooldown s _ _); [done|].
  destruct (NotificationService.discordWebhookUrl s) as [u|]; [|done].
  destruct (Js.truthy u); [|done].
  destruct (NotificationService.webhook_ok e1); [|done].
  intros _ Hnz Hlt. cbn.
  unfold NotificationService.sendNotification, NotificationService.isInCooldown. cbn.
  rewrite lookup_insert_eq, decide_False by done.
  unfold NotificationService.COOLDOWN_MINUTES.
  by rewrite bool_decide_eq_true_2 by lia.
Qed.

(** C4: with the webhook configured, a connection-error notice about
    http://a:5000 is delivered at clock reading 1000; one second later
    the notice about http://b:5000 is skipped (it returns false and
    nothing is posted), because the key is "error_API連線失敗" for
    both.  The mail service delivers both. *)
Theorem discord_cooldown_shared_across_urls :
  NotificationService.returned
    (NotificationService.notifyApiConnectionError
       (NotificationService.new (Some "https://discord.example/api/webhooks/1"))
       "http://a:5000" (Some "fetch failed") 1 1000
       {| NotificationService.now_check := 1000;
          NotificationService.webhook_ok := true;
          NotificationService.now_sent := 1100 |})
  = true ∧
  NotificationService.returned
    (NotificationService.notifyApiConnectionError
       (NotificationService.after
          (NotificationService.notifyApiConnectionError
             (NotificationService.new (Some "https://discord.example/api/webhooks/1"))
             "http://a:5000" (Some "fetch failed") 1 1000
             {| NotificationService.now_check := 1000;
                NotificationService.webhook_ok := true;
                NotificationService.now_sent := 1100 |}))
       "http://b:5000" (Some "fetch failed") 1 2000
       {| NotificationService.now_check := 2000;
          NotificationService.webhook_ok := true;
          NotificationService.now_sent := 2100 |})
  = false ∧
  NotificationService.posted
    (NotificationService.notifyApiConnectionError
       (NotificationService.after
          (NotificationService.notifyApiConnectionError
             (NotificationService.new (Some "https://discord.example/api/webhooks/1"))
             "http://a:5000" (Some "fetch failed") 1 1000
             {| NotificationService.now_check := 1000;
                NotificationService.webhook_ok := true;
                NotificationService.now_sent := 1100 |}))
       "http://b:5000" (Some "fetch failed") 1 2000
       {| NotificationService.now_check := 2000;
          NotificationService.webhook_ok := true;
          NotificationService.now_sent := 2100 |})
  = [] ∧
  EmailService.returned
    (EmailService.notifyApiConnectionError
       (EmailService.after
          (EmailService.notifyApiConnectionError MailRun.configured
             "http://a:5000" (EmailService.Build_ErrorInfo (Some "TypeError") (Some "fetch failed"))
             1 1000
             {| EmailService.now_check := 1000; EmailService.mail_ok := true;
                EmailService.now_sent := 1100 |}))
       "http://b:5000" (EmailService.Build_ErrorInfo (Some "TypeError") (Some "fetch failed"))
       1 2000
       {| EmailService.now_check := 2000; EmailService.mail_ok := true;
          EmailService.now_sent := 2100 |})
  = true.
Proof. vm_compute. done. Qed.

End KeyFacts.

(** ** The health monitor *)

Module MonitorFacts.

Import ApiMonitor MonitorRun.

Lemma resume_at m u r st res now :
  objects m !! r = Some st →
  checkApiHealth_resume m u r res now
  = (with_object m r (settled res now st), notices u res now st).
Proof.
  intros Hst. unfold checkApiHealth_resume, settled, notices, with_object.
  destruct res as [code|e]; cbn [succeeded failure].
  - destruct (ok code);
      unfold handleHealthyResponse, handleUnhealthyResponse; by rewrite Hst.
  - unfold handleUnhealthyResponse. by rewrite Hst.
Qed.

Lemma resume_missing m u r res now :
  objects m !! r = None → checkApiHealth_resume m u r res now = (m, []).
Proof.
  intros Hst. unfold checkApiHealth_resume.
  destruct res as [code|e]; [destruct (ok code)|];
    unfold handleHealthyResponse, handleUnhealthyResponse; by rewrite Hst.
Qed.

Lemma record_at_with_object m u r st st' :
  record_at m u r st → record_at (with_object m r st') u r st'.
Proof. intros [Hu _]. split; [done|]. cbn. apply lookup_insert_eq. Qed.

Lemma checkApiHealth_at m u r st res now :
  record_at m u r st →
  checkApiHealth m u res now
  = {| monitor := with_object m r (settled res now st);
       requests := [u +:+ "/health"];
       notified := notices u res now st |}.
Proof.
  intros [Hu Hst]. unfold checkApiHealth, checkApiHealth_begin.
  rewrite Hu. by rewrite (resume_at _ _ _ st).
Qed.

Lemma ticks_cons_at m u r st res now rs :
  record_at m u r st →
  ticks m u ((res, now) :: rs)
  = ((ticks (with_object m r (settled res now st)) u rs).1,
     notices u res now st :: (ticks (with_object m r (settled res now st)) u rs).2).
Proof.
  intros Hat. cbn [ticks]. rewrite (checkApiHealth_at _ _ _ _ _ _ Hat). cbn.
  by destruct (ticks _ u rs).
Qed.

Lemma startMonitoring_at m u now0 :
  ∃ m1 r,
    startMonitoring m u now0 = (m1, Some (r, u +:+ "/health")) ∧
    record_at m1 u r {| isHealthy := false; lastCheck := now0; lastError := None;
                        consecutiveFailures := 0; uptime := 100 |}.
Proof.
  unfold startMonitoring, checkApiHealth_begin. cbn.
  rewrite lookup_insert_eq. eexists _, _. split; [reflexivity|].
  split; cbn; apply lookup_insert_eq.
Qed.

(** The probe that [startMonitoring] starts is a probe like those of
    the interval. *)
Lemma monitored_ticks m u now0 rs :
  monitored m u now0 rs = ticks (startMonitoring m u now0).1 u rs.
Proof.
  unfold monitored.
  destruct (startMonitoring_at m u now0) as (m1 & r & -> & Hat).
  destruct rs as [|[res now] rs]; [done|].
  cbn [fst]. rewrite (ticks_cons_at _ _ _ _ _ _ _ Hat).
  destruct Hat as [_ Hst]. rewrite (resume_at _ _ _ _ _ _ Hst).
  by destruct (ticks _ u rs).
Qed.

Lemma ticks_app m u rs rs' :
  ticks m u (rs ++ rs')
  = ((ticks (ticks m u rs).1 u rs').1, (ticks m u rs).2 ++ (ticks (ticks m u rs).1 u rs').2).
Proof.
  revert m. induction rs as [|[res now] rs IH]; intros m.
  - cbn. by destruct (ticks m u rs').
  - cbn [ticks app]. rewrite IH.
    destruct (ticks (monitor (checkApiHealth m u res now)) u rs) as [m' ns]. cbn.
    by destruct (ticks m' u rs').
Qed.

(** While the record is unhealthy, failed probes keep it so and notify
    nobody. *)
Lemma ticks_failures u r rs : ∀ m st,
  record_at m u r st → isHealthy st = false →
  Forall (λ p, succeeded p.1 = false) rs →
  (ticks m u rs).2 = replicate (length rs) [] ∧
  ∃ st', record_at (ticks m u rs).1 u r st' ∧ isHealthy st' = false.
Proof.
  induction rs as [|[res now] rs IH]; intros m st Hat Hun Hall.
  - split; [done | by exists st].
  - apply Forall_cons in Hall as [Hres Hall]. cbn in Hres.
    rewrite (ticks_cons_at _ _ _ _ _ _ _ Hat). cbn [fst snd].
    destruct (IH (with_object m r (settled res now st)) (settled res now st))
      as (Hns & st' & Hat' & Hun'); [by eapply record_at_with_object | by cbn | done |].
    split; [|by exists st'].
    rewrite Hns. cbn. f_equal. unfold notices. by rewrite Hres, Hun.
Qed.

(** *** Edge-triggered notifications *)

(** Started on a fresh monitor, the probes [fail, fail, success, fail]
    notify nobody after the first failure and report a connection
    error after the last one. *)
Lemma startMonitoring_first_failure_silent :
  (monitored new "http://dead:5000" 1000
     [(timeout, 11000); (timeout, 3611000); (Response 200, 7200500);
      (timeout, 10811000)]).2
  = [[]; []; [NotifyApiRecovered "http://dead:5000"];
     [NotifyApiConnectionError "http://dead:5000" (failure timeout) 1]] ∧
  (monitored new "http://dead:5000" 1000
     [(timeout, 11000); (timeout, 3611000); (Response 200, 7200500);
      (timeout, 10811000)]).2
  ≠ [[NotifyApiConnectionError "http://dead:5000" (failure timeout) 1]; [];
     [NotifyApiRecovered "http://dead:5000"]; []].
Proof. split; [by vm_compute | vm_compute; discriminate]. Qed.

(** From a record that is healthy, the same outcomes give the
    notifications of an edge-triggered monitor that starts healthy. *)
Lemma notifications_from_healthy m u r st f1 f2 s3 f4 t1 t2 t3 t4 :
  record_at m u r st → isHealthy st = true → 0 ≤ consecutiveFailures st →
  succeeded f1 = false → succeeded f2 = false → succeeded s3 = true →
  succeeded f4 = false → 0 < t3 →
  (ticks m u [(f1, t1); (f2, t2); (s3, t3); (f4, t4)]).2
  = [[NotifyApiConnectionError u (failure f1) (consecutiveFailures st + 1)]; [];
     [NotifyApiRecovered u]; [NotifyApiConnectionError u (failure f4) 1]].
Proof.
  intros Hat Hh Hcf H1 H2 H3 H4 Ht3.
  rewrite (ticks_cons_at _ _ _ _ _ _ _ Hat). cbn [snd].
  eapply record_at_with_object in Hat.
  rewrite (ticks_cons_at _ _ _ _ _ _ _ Hat). cbn [snd].
  eapply record_at_with_object in Hat.
  rewrite (ticks_cons_at _ _ _ _ _ _ _ Hat). cbn [snd].
  eapply record_at_with_object in Hat.
  rewrite (ticks_cons_at _ _ _ _ _ _ _ Hat). cbn [snd ticks].
  unfold notices, settled, MAX_RETRIES. cbn.
  rewrite H1, H2, H3, H4, Hh. cbn.
  rewrite !bool_decide_eq_true_2 by lia. done.
Qed.

Lemma mails_recovered_then_error u e n3 n4 e3 e4 :
  EmailService.mail_ok e3 = true → EmailService.mail_ok e4 = true →
  mails MailRun.configured
    [(NotifyApiRecovered u, n3, e3); (NotifyApiConnectionError u e 1, n4, e4)]
  = [{| EmailService.to := EmailService.TARGET_EMAIL;
        EmailService.subject := "🚨 音頻處理系統通知: API連線已恢復";
        EmailService.html := EmailService.recoveredNotification u n3 |};
     {| EmailService.to := EmailService.TARGET_EMAIL;
        EmailService.subject := "🚨 音頻處理系統通知: API連線失敗";
        EmailService.html := EmailService.connectionErrorNotification u e 1 n4 |}].
Proof.
  intros H3 H4. cbn [mails deliver].
  unfold EmailService.notifyApiRecovered, EmailService.notifyApiConnectionError.
  rewrite MailFacts.sendNotification_delivered; [|done| |done].
  2:{ unfold EmailService.isInCooldown. cbn. by rewrite lookup_empty. }
  cbn [EmailService.attempted EmailService.after].
  rewrite MailFacts.sendNotification_delivered; [|done| |done].
  2:{ unfold EmailService.isInCooldown. cbn [EmailService.lastNotificationTime].
      rewrite lookup_insert_ne by (cbn; discriminate).
      cbn. by rewrite lookup_empty. }
  done.
Qed.

(** C1 (as the code has it): after [startMonitoring(url)] the record is
    unhealthy, so for the probe outcomes [fail, fail, success, fail],
    with threshold 1, the two leading failures notify nobody, the
    success (at a clock reading after the epoch) makes the one
    recovery notification, and the trailing failure, being the first
    one after a healthy state, makes the one connection-error
    notification, with retry count 1.  When the mail service is
    configured, has no cooldown running and the transport delivers,
    these two notifications are exactly the two mails sent. *)
Theorem notifications_after_startMonitoring
    (m : t) (apiUrl : string) (now0 : Z) (f1 f2 s3 f4 : FetchResult)
    (t1 t2 t3 t4 n3 n4 : Z) (e3 e4 : EmailService.Env) :
  succeeded f1 = false → succeeded f2 = false → succeeded s3 = true →
  succeeded f4 = false → 0 < t3 →
  EmailService.mail_ok e3 = true → EmailService.mail_ok e4 = true →
  (monitored m apiUrl now0 [(f1, t1); (f2, t2); (s3, t3); (f4, t4)]).2
  = [[]; []; [NotifyApiRecovered apiUrl];
     [NotifyApiConnectionError apiUrl (failure f4) 1]] ∧
  mails MailRun.configured
    [(NotifyApiRecovered apiUrl, n3, e3);
     (NotifyApiConnectionError apiUrl (failure f4) 1, n4, e4)]
  = [{| EmailService.to := EmailService.TARGET_EMAIL;
        EmailService.subject := "🚨 音頻處理系統通知: API連線已恢復";
        EmailService.html := EmailService.recoveredNotification apiUrl n3 |};
     {| EmailService.to := EmailService.TARGET_EMAIL;
        EmailService.subject := "🚨 音頻處理系統通知: API連線失敗";
        EmailService.html :=
          EmailService.connectionErrorNotification apiUrl (failure f4) 1 n4 |}].
Proof.
  intros H1 H2 H3 H4 Ht3 Hm3 Hm4.
  split; [|by apply mails_recovered_then_error].
  rewrite monitored_ticks.
  destruct (startMonitoring_at m apiUrl now0) as (m1 & r & -> & Hat). cbn [fst].
  rewrite (ticks_cons_at _ _ _ _ _ _ _ Hat). cbn [snd].
  eapply record_at_with_object in Hat.
  rewrite (ticks_cons_at _ _ _ _ _ _ _ Hat). cbn [snd].
  eapply record_at_with_object in Hat.
  rewrite (ticks_cons_at _ _ _ _ _ _ _ Hat). cbn [snd].
  eapply record_at_with_object in Hat.
  rewrite (ticks_cons_at _ _ _ _ _ _ _ Hat). cbn [snd ticks].
  unfold notices, settled, MAX_RETRIES. cbn.
  rewrite H1, H2, H3, H4. cbn.
  rewrite bool_decide_eq_true_2 by lia. done.
Qed.

Lemma notifications_after_startMonitoring_witness :
  (succeeded timeout = false ∧ succeeded (Response 200) = true ∧ 0 < 7200500 ∧
   EmailService.mail_ok (EmailService.Build_Env 7200500 true 7200900) = true ∧
   EmailService.mail_ok (EmailService.Build_Env 10811000 true 10811400) = true) ∧
  (monitored new "http://dead:5000" 1000
     [(timeout, 11000); (timeout, 3611000); (Response 200, 7200500);
      (timeout, 10811000)]).2
  = [[]; []; [NotifyApiRecovered "http://dead:5000"];
     [NotifyApiConnectionError "http://dead:5000" (failure timeout) 1]].
Proof.
  split; [repeat split; (reflexivity || lia)|].
  exact (proj1 (notifications_after_startMonitoring new "http://dead:5000" 1000
                  timeout timeout (Response 200) timeout
                  11000 3611000 7200500 10811000 7200500 10811000
                  (EmailService.Build_Env 7200500 true 7200900)
                  (EmailService.Build_Env 10811000 true 10811400)
                  eq_refl eq_refl eq_refl eq_refl eq_refl eq_refl eq_refl)).
Defined.

(** *** The first success *)

Lemma getHealthStatus_at m u r st : record_at m u r st → getHealthStatus m u = Some st.
Proof. intros [Hu Hst]. unfold getHealthStatus. by rewrite Hu. Qed.

(** C2: [startMonitoring(url)] leaves the record of [url] unhealthy
    with zero consecutive failures.  The first probe that succeeds
    after it (at a clock reading after the epoch), whether or not
    failed probes come before it, finds the record unhealthy, leaves it
    healthy (checked at the time of the probe, no error, no failures)
    and makes a recovery notification; the failed probes before it make
    no notification. *)
Theorem first_success_notifies_recovery
    (m : t) (apiUrl : string) (now0 : Z) (fails : list (FetchResult * Z))
    (res : FetchResult) (now : Z) :
  Forall (λ p, succeeded p.1 = false) fails → succeeded res = true → 0 < now →
  getHealthStatus (startMonitoring m apiUrl now0).1 apiUrl
  = Some {| isHealthy := false; lastCheck := now0; lastError := None;
            consecutiveFailures := 0; uptime := 100 |} ∧
  (∃ st, getHealthStatus (monitored m apiUrl now0 fails).1 apiUrl = Some st ∧
         isHealthy st = false) ∧
  (∃ st, getHealthStatus (monitored m apiUrl now0 (fails ++ [(res, now)])).1 apiUrl
         = Some st ∧
         isHealthy st = true ∧ lastCheck st = now ∧ lastError st = None ∧
         consecutiveFailures st = 0) ∧
  (monitored m apiUrl now0 (fails ++ [(res, now)])).2
  = replicate (length fails) [] ++ [[NotifyApiRecovered apiUrl]].
Proof.
  intros Hfails Hres Hnow. rewrite !monitored_ticks.
  destruct (startMonitoring_at m apiUrl now0) as (m1 & r & -> & Hat). cbn [fst].
  split; [by apply (getHealthStatus_at _ _ r)|].
  rewrite ticks_app. cbn [fst snd].
  destruct (ticks_failures apiUrl r fails m1 _ Hat eq_refl Hfails)
    as (-> & st' & Hat' & Hun).
  rewrite (ticks_cons_at _ _ _ _ _ _ _ Hat'). cbn [fst snd ticks].
  split; [exists st'; split; [by apply (getHealthStatus_at _ _ r) | done]|].
  split.
  - exists (settled res now st'). split.
    + apply (getHealthStatus_at _ _ r). by eapply record_at_with_object.
    + unfold settled. cbn. by rewrite Hres.
  - f_equal. unfold notices. rewrite Hres, Hun. cbn.
    by rewrite bool_decide_eq_true_2 by lia.
Qed.

Lemma first_success_notifies_recovery_witness :
  (Forall (λ p : FetchResult * Z, succeeded p.1 = false) [(Response 503, 2000)] ∧
   succeeded (Response 200) = true ∧ 0 < 3602000) ∧
  (∃ st, getHealthStatus
           (monitored new "http://backend:5000" 1000
              ([(Response 503, 2000)] ++ [(Response 200, 3602000)])).1
           "http://backend:5000" = Some st ∧
         isHealthy st = true ∧ lastCheck st = 3602000 ∧ lastError st = None ∧
         consecutiveFailures st = 0) ∧
  (monitored new "http://backend:5000" 1000
     ([(Response 503, 2000)] ++ [(Response 200, 3602000)])).2
  = replicate (length [(Response 503, 2000)]) [] ++ [[NotifyApiRecovered "http://backend:5000"]].
Proof.
  assert (Forall (λ p : FetchResult * Z, succeeded p.1 = false) [(Response 503, 2000)]) as H
    by (repeat constructor).
  split; [split; [exact H | split; [reflexivity | lia]]|].
  exact (proj2 (proj2 (first_success_notifies_recovery new "http://backend:5000" 1000
                         [(Response 503, 2000)] (Response 200) 3602000 H eq_refl eq_refl))).
Defined.

(** At the epoch itself the guard [lastCheck.getTime() > 0] holds the
    notification back. *)
Example first_success_at_epoch :
  (monitored new "http://backend:5000" 0 [(Response 200, 0)]).2 = [[]].
Proof. by vm_compute. Qed.

(** *** Probes on demand *)


Example checkNow_monitored :
  (checkNow (startMonitoring new "http://backend:5000" 1000).1
     "http://backend:5000" (Response 503) 2000).2
  = Some {| isHealthy := false; lastCheck := 2000;
            lastError := Some (EmailService.Build_ErrorInfo (Some "Error") (Some "HTTP 503"));
            consecutiveFailures := 1; uptime := 100 |}.
Proof. by vm_compute. Qed.

(** When [startMonitoring] is called again while the first probe is
    still in flight, that probe updates, and reports on, the record it
    looked up, which is no longer the one the map holds: the fresh
    record is untouched. *)
Example probe_in_flight_updates_old_record :
  (checkApiHealth_resume
     (startMonitoring (startMonitoring new "http://backend:5000" 1000).1
        "http://backend:5000" 2000).1
     "http://backend:5000" 1%positive (Response 200) 3000).2
  = [NotifyApiRecovered "http://backend:5000"] ∧
  getHealthStatus
    (checkApiHealth_resume
       (startMonitoring (startMonitoring new "http://backend:5000" 1000).1
          "http://backend:5000" 2000).1
       "http://backend:5000" 1%positive (Response 200) 3000).1
    "http://backend:5000"
  = Some {| isHealthy := false; lastCheck := 2000; lastError := None;
            consecutiveFailures := 0; uptime := 100 |}.
Proof. split; by vm_compute. Qed.

(** *** One interval per URL *)

Lemma consistent_new : consistent new.
Proof.
  split; [apply TimersFacts.bounded_empty|].
  intros h u. cbn. by rewrite !lookup_empty.
Qed.

Lemma stopMonitoring_forgets m u : monitoringIntervals (stopMonitoring m u) !! u = None.
Proof.
  unfold stopMonitoring. destruct (monitoringIntervals m !! u) eqn:E; [|done].
  cbn. apply lookup_delete_eq.
Qed.

Lemma consistent_stopMonitoring m u : consistent m → consistent (stopMonitoring m u).
Proof.
  intros [Hb Hc]. unfold stopMonitoring.
  destruct (monitoringIntervals m !! u) as [h|] eqn:E; [|done].
  split; cbn; [by apply TimersFacts.bounded_clearInterval|].
  intros h' u'. rewrite !lookup_delete.
  destruct (decide (h = h')) as [<-|Hh], (decide (u = u')) as [<-|Hu]; try done.
  - split; [done|]. intros H%Hc. apply Hc in E. congruence.
  - split; [|done]. intros H%Hc. congruence.
Qed.

Lemma consistent_startMonitoring m u now :
  consistent m → consistent (startMonitoring m u now).1.
Proof.
  intros Hm. pose proof (consistent_stopMonitoring m u Hm) as [Hb Hc].
  pose proof (stopMonitoring_forgets m u) as Hnone.
  pose proof (TimersFacts.bounded_next_free _ Hb) as Hfree.
  unfold startMonitoring. cbn. split; cbn.
  - by apply (TimersFacts.bounded_setInterval u) in Hb.
  - intros h' u'. rewrite !lookup_insert.
    destruct (decide (Timers.next (intervals (stopMonitoring m u)) = h')) as [<-|Hh],
             (decide (u = u')) as [<-|Hu].
    + done.
    + split; [congruence|]. intros H%Hc. congruence.
    + split; [|congruence]. intros H%Hc. congruence.
    + apply Hc.
Qed.

Lemma clear_all_lookup (l : list (string * positive)) (tbl : Timers.table string) h :
  Timers.active (foldr (λ kv tbl, Timers.clearInterval kv.2 tbl) tbl l) !! h
  = if decide (h ∈ l.*2) then None else Timers.active tbl !! h.
Proof.
  induction l as [|[u h0] l IH]; cbn.
  - rewrite decide_False; [done | apply not_elem_of_nil].
  - rewrite lookup_delete, IH.
    destruct (decide (h0 = h)) as [->|Hne].
    + rewrite decide_True; [done | constructor].
    + destruct (decide (h ∈ l.*2)) as [Hin|Hout].
      * rewrite decide_True; [done | by constructor].
      * rewrite decide_False; [done|]. intros [?|?]%elem_of_cons; congruence.
Qed.

Lemma clear_all_next (l : list (string * positive)) (tbl : Timers.table string) :
  Timers.next (foldr (λ kv tbl, Timers.clearInterval kv.2 tbl) tbl l) = Timers.next tbl.
Proof. induction l as [|[u h0] l IH]; cbn; done. Qed.

Lemma consistent_cleanup m : consistent m → consistent (cleanup m).
Proof.
  intros [Hb Hc]. unfold cleanup. split; cbn.
  - intros h cb. rewrite clear_all_lookup, clear_all_next.
    case_decide; [done | apply Hb].
  - intros h u. rewrite clear_all_lookup, lookup_empty.
    case_decide as Hin; [done|]. split; [|done].
    intros H%Hc. destruct Hin. apply list_elem_of_fmap.
    exists (u, h). split; [done|]. by apply elem_of_map_to_list.
Qed.

Lemma consistent_probe m u r res now :
  consistent m → consistent (checkApiHealth_resume m u r res now).1.
Proof.
  intros Hm. destruct (objects m !! r) as [st|] eqn:Hst.
  - by rewrite (resume_at _ _ _ st).
  - by rewrite resume_missing.
Qed.

Lemma reachable_consistent m : reachable m → consistent m.
Proof.
  induction 1;
    auto using consistent_new, consistent_startMonitoring, consistent_stopMonitoring,
               consistent_cleanup, consistent_probe.
Qed.

(** C9: in any state the monitor can be in, after [startMonitoring(url)]
    has been called twice in a row exactly one active interval probes
    [url]: the one the second call has set and recorded.  The interval
    that the first call had set is cleared. *)
Theorem startMonitoring_twice_one_timer (m : t) (apiUrl : string) (now1 now2 : Z) :
  reachable m →
  ∃ h1 h2,
    monitoringIntervals (startMonitoring m apiUrl now1).1 !! apiUrl = Some h1 ∧
    monitoringIntervals
      (startMonitoring (startMonitoring m apiUrl now1).1 apiUrl now2).1 !! apiUrl
    = Some h2 ∧
    h1 ≠ h2 ∧
    Timers.active
      (intervals (startMonitoring (startMonitoring m apiUrl now1).1 apiUrl now2).1) !! h1
    = None ∧
    ∀ h, Timers.active
           (intervals (startMonitoring (startMonitoring m apiUrl now1).1 apiUrl now2).1) !! h
         = Some apiUrl ↔ h = h2.
Proof.
  intros Hm%reachable_consistent.
  pose proof (consistent_startMonitoring m apiUrl now1 Hm) as H1.
  pose proof (consistent_startMonitoring _ apiUrl now2 H1) as [Hb2 H2].
  set (m1 := (startMonitoring m apiUrl now1).1) in *.
  set (m2 := (startMonitoring m1 apiUrl now2).1) in *.
  assert (∃ h1, monitoringIntervals m1 !! apiUrl = Some h1) as [h1 Hh1].
  { eexists. unfold m1, startMonitoring. cbn. apply lookup_insert_eq. }
  clearbody m1.
  assert (∃ h2, monitoringIntervals m2 !! apiUrl = Some h2) as [h2 Hh2].
  { eexists. unfold m2, startMonitoring. cbn. apply lookup_insert_eq. }
  assert (Timers.active (intervals m2) !! h1 = None) as Hcleared.
  { destruct H1 as [Hb1 Hc1].
    pose proof (Hb1 _ _ (proj2 (Hc1 _ _) Hh1)) as Hlt.
    unfold m2, startMonitoring, stopMonitoring. rewrite Hh1. cbn.
    rewrite lookup_insert_ne by lia. apply lookup_delete_eq. }
  exists h1, h2. split; [done|]. split; [done|]. split.
  { intros ->. apply H2 in Hh2. congruence. }
  split; [done|].
  intros h. rewrite H2. split; [congruence | by intros ->].
Qed.

Lemma startMonitoring_twice_one_timer_witness :
  reachable new ∧
  ∃ h1 h2,
    monitoringIntervals (startMonitoring new "http://backend:5000" 1000).1
      !! "http://backend:5000" = Some h1 ∧
    monitoringIntervals
      (startMonitoring (startMonitoring new "http://backend:5000" 1000).1
         "http://backend:5000" 2000).1 !! "http://backend:5000"
    = Some h2 ∧
    h1 ≠ h2 ∧
    Timers.active
      (intervals (startMonitoring (startMonitoring new "http://backend:5000" 1000).1
                    "http://backend:5000" 2000).1) !! h1
    = None ∧
    ∀ h, Timers.active
           (intervals (startMonitoring (startMonitoring new "http://backend:5000" 1000).1
                         "http://backend:5000" 2000).1) !! h
         = Some "http://backend:5000" ↔ h = h2.
Proof.
  split; [exact reach_new|].
  exact (startMonitoring_twice_one_timer new "http://backend:5000" 1000 2000 reach_new).
Defined.

Example two_calls_one_interval :
  Timers.active
    (intervals (startMonitoring (startMonitoring new "http://backend:5000" 1000).1
                  "http://backend:5000" 2000).1)
  = {[ 2%positive := "http://backend:5000" ]}.
Proof. by vm_compute. Qed.

End MonitorFacts.

(** ** The configuration route *)

Module RoutesFacts.

Import Routes.

(** The admin secret is never empty, so an empty password never
    matches it. *)
Lemma ADMIN_PASSWORD_nonempty env : Storage.ADMIN_PASSWORD env ≠ "".
Proof. unfold Storage.ADMIN_PASSWORD. by destruct env as [[|c s]|]. Qed.

(** A request with the default configuration in place, a well-formed
    URL and an empty password, which is not the admin secret, is
    answered with 400, not 401. *)
Lemma post_api_config_empty_password :
  "" ≠ Storage.ADMIN_PASSWORD None ∧
  post_api_config (λ _, true)
    {| storage := Storage.new "7d1c" 1000; apiMonitor := ApiMonitor.new;
       env_ADMIN_PASSWORD := None |}
    (Some {| body_apiUrl := JString "https://new.example";
             body_description := JUndefined;
             body_adminPassword := JString "" |})
    "0000" 2000 2001
  = ({| status := 400; json := ErrorBody "請求數據格式錯誤" |},
     {| storage := Storage.new "7d1c" 1000; apiMonitor := ApiMonitor.new;
        env_ADMIN_PASSWORD := None |},
     None).
Proof. split; [discriminate | reflexivity]. Qed.

(** Whatever the URL parser accepts, an empty password is a schema
    error. *)
Lemma parse_empty_password isUrl u d :
  parse isUrl (Some {| body_apiUrl := u; body_description := d;
                       body_adminPassword := JString "" |}) = None.
Proof.
  unfold parse. cbn. destruct u as [|u|], d as [|d|]; try done;
    by rewrite andb_false_r.
Qed.

(** The accepted request. *)
Lemma post_api_config_accepted isUrl w body uuid now_set now_start v :
  parse isUrl body = Some v →
  adminPassword v = Storage.ADMIN_PASSWORD (env_ADMIN_PASSWORD w) →
  status (post_api_config isUrl w body uuid now_set now_start).1.1 = 200 ∧
  storage (post_api_config isUrl w body uuid now_set now_start).1.2
  = Some {| Storage.id := Js.or_default (Storage.id <$> storage w) uuid;
            Storage.apiUrl := apiUrl v;
            Storage.isActive := true;
            Storage.description :=
              Some (Js.or_default (description v) "API配置已更新");
            Storage.updatedAt := now_set;
            Storage.updatedBy := Some "admin" |} ∧
  apiMonitor (post_api_config isUrl w body uuid now_set now_start).1.2
  = (ApiMonitor.startMonitoring (ApiMonitor.cleanup (apiMonitor w))
       (apiUrl v) now_start).1.
Proof.
  unfold post_api_config. intros -> Heq.
  rewrite bool_decide_eq_false_2 by (by intros ?).
  cbn.
  by destruct (ApiMonitor.startMonitoring (ApiMonitor.cleanup (apiMonitor w))
                 (apiUrl v) now_start).
Qed.

(** C5 (as the code has it): a POST /api/config request that fails
    schema validation is answered with 400; one that passes it with a
    password other than the admin secret is answered with 401; in both
    cases the server state is unchanged.  A request that passes
    validation with the admin secret is answered with 200 and replaces
    the stored record: URL from the request, active, description from
    the request or else the default text, updated by "admin" at the
    current time; of the previous record only the id is kept.  The
    monitor is restarted on the new URL. *)
Theorem post_api_config_replaces (isUrl : string → bool) (w : Server)
    (body : option Body) (uuid : string) (now_set now_start : Z) :
  (parse isUrl body = None →
     (post_api_config isUrl w body uuid now_set now_start).1
     = ({| status := 400; json := ErrorBody "請求數據格式錯誤" |}, w)) ∧
  (∀ v, parse isUrl body = Some v →
        adminPassword v ≠ Storage.ADMIN_PASSWORD (env_ADMIN_PASSWORD w) →
     (post_api_config isUrl w body uuid now_set now_start).1
     = ({| status := 401; json := ErrorBody "管理員密碼錯誤" |}, w)) ∧
  (∀ v, parse isUrl body = Some v →
        adminPassword v = Storage.ADMIN_PASSWORD (env_ADMIN_PASSWORD w) →
     status (post_api_config isUrl w body uuid now_set now_start).1.1 = 200 ∧
     storage (post_api_config isUrl w body uuid now_set now_start).1.2
     = Some {| Storage.id := Js.or_default (Storage.id <$> storage w) uuid;
               Storage.apiUrl := apiUrl v;
               Storage.isActive := true;
               Storage.description :=
                 Some (Js.or_default (description v) "API配置已更新");
               Storage.updatedAt := now_set;
               Storage.updatedBy := Some "admin" |} ∧
     apiMonitor (post_api_config isUrl w body uuid now_set now_start).1.2
     = (ApiMonitor.startMonitoring (ApiMonitor.cleanup (apiMonitor w))
          (apiUrl v) now_start).1).
Proof.
  unfold post_api_config. split; [|split].
  - by intros ->.
  - intros v -> Hne. by rewrite bool_decide_eq_true_2.
  - intros v Hv Heq. fold (post_api_config isUrl w body uuid now_set now_start).
    by apply post_api_config_accepted.
Qed.

(** A wrong password against the default configuration. *)
Lemma post_api_config_replaces_witness :
  (parse (λ _, true)
     (Some {| body_apiUrl := JString "https://new.example";
              body_description := JString "lab server";
              body_adminPassword := JString "guess" |})
   = Some {| apiUrl := "https://new.example"; description := Some "lab server";
             adminPassword := "guess" |} ∧
   "guess" ≠ Storage.ADMIN_PASSWORD None) ∧
  (post_api_config (λ _, true)
     {| storage := Storage.new "7d1c" 1000; apiMonitor := ApiMonitor.new;
        env_ADMIN_PASSWORD := None |}
     (Some {| body_apiUrl := JString "https://new.example";
              body_description := JString "lab server";
              body_adminPassword := JString "guess" |})
     "0000" 2000 2001).1
  = ({| status := 401; json := ErrorBody "管理員密碼錯誤" |},
     {| storage := Storage.new "7d1c" 1000; apiMonitor := ApiMonitor.new;
        env_ADMIN_PASSWORD := None |}).
Proof.
  split; [split; [reflexivity | discriminate]|].
  apply (proj1 (proj2 (post_api_config_replaces (λ _, true)
                         {| storage := Storage.new "7d1c" 1000;
                            apiMonitor := ApiMonitor.new;
                            env_ADMIN_PASSWORD := None |}
                         (Some {| body_apiUrl := JString "https://new.example";
                                  body_description := JString "lab server";
                                  body_adminPassword := JString "guess" |})
                         "0000" 2000 2001))
           {| apiUrl := "https://new.example"; description := Some "lab server";
              adminPassword := "guess" |}).
  - reflexivity.
  - discriminate.
Defined.

(** The fields of the new record that the routes show do not depend on
    the record it replaces. *)
Lemma post_api_config_total isUrl w1 w2 body uuid1 uuid2 now_set now1 now2 v :
  parse isUrl body = Some v →
  adminPassword v = Storage.ADMIN_PASSWORD (env_ADMIN_PASSWORD w1) →
  adminPassword v = Storage.ADMIN_PASSWORD (env_ADMIN_PASSWORD w2) →
  view <$> storage (post_api_config isUrl w1 body uuid1 now_set now1).1.2
  = view <$> storage (post_api_config isUrl w2 body uuid2 now_set now2).1.2.
Proof.
  intros Hv H1 H2.
  destruct (post_api_config_accepted isUrl w1 body uuid1 now_set now1 v Hv H1)
    as (_ & -> & _).
  destruct (post_api_config_accepted isUrl w2 body uuid2 now_set now2 v Hv H2)
    as (_ & -> & _).
  done.
Qed.

(** Setting only the URL does not retain the previous description. *)
Example post_api_config_only_url :
  storage
    (post_api_config (λ _, true)
       {| storage := Storage.new "7d1c" 1000; apiMonitor := ApiMonitor.new;
          env_ADMIN_PASSWORD := None |}
       (Some {| body_apiUrl := JString "https://new.example";
                body_description := JUndefined;
                body_adminPassword := JString "fculab224" |})
       "0000" 2000 2001).1.2
  = Some {| Storage.id := "7d1c"; Storage.apiUrl := "https://new.example";
            Storage.isActive := true;
            Storage.description := Some "API配置已更新";
            Storage.updatedAt := 2000; Storage.updatedBy := Some "admin" |}.
Proof. reflexivity. Qed.

End RoutesFacts.

(** ** The polling client *)

Module PollingFacts.

Import AudioSeparationAPI PollingRun.

Section Client.
Context {S : Type}.
Implicit Types w : Browser S.

Lemma polling_consistent_new baseURL VITE (s : S) :
  consistent {| api := new baseURL VITE; timers := Timers.empty; client := s |}.
Proof.
  split; [apply TimersFacts.bounded_empty|].
  intros h. cbn. rewrite lookup_empty. split; [by intros [? ?] | done].
Qed.

(** Once the interval in [pollingInterval] is cleared, none is left. *)
Lemma cleared_empty w :
  consistent w →
  Timers.active
    match pollingInterval (api w) with
    | Some h => Timers.clearInterval h (timers w)
    | None => timers w
    end = ∅.
Proof.
  intros [_ Hc]. apply map_empty. intros h'.
  destruct (pollingInterval (api w)) as [h|] eqn:E; cbn.
  - rewrite lookup_delete. case_decide as Hh; [done|].
    apply eq_None_not_Some. intros H%Hc. congruence.
  - apply eq_None_not_Some. intros H%Hc. congruence.
Qed.

Lemma startPolling_active w taskId cbs :
  consistent w →
  pollingInterval (api (startPolling w taskId cbs))
  = Some (Timers.next (timers w)) ∧
  Timers.active (timers (startPolling w taskId cbs))
  = {[ Timers.next (timers w) := (taskId, cbs) ]} ∧
  Timers.next (timers (startPolling w taskId cbs)) = Pos.succ (Timers.next (timers w)).
Proof.
  intros Hw. pose proof (cleared_empty w Hw) as He.
  unfold startPolling. cbn.
  assert (Timers.next match pollingInterval (api w) with
                      | Some h => Timers.clearInterval h (timers w)
                      | None => timers w
                      end = Timers.next (timers w)) as ->
    by (by destruct (pollingInterval (api w))).
  split; [done|]. split; [by rewrite He | done].
Qed.

Lemma stopPolling_active w :
  consistent w →
  pollingInterval (api (stopPolling w)) = None ∧
  Timers.active (timers (stopPolling w)) = ∅.
Proof.
  intros Hw. pose proof (cleared_empty w Hw) as He.
  unfold stopPolling. destruct (pollingInterval (api w)) eqn:E; cbn; [done|].
  by rewrite E.
Qed.

Lemma bounded_stopPolling w :
  Timers.bounded (timers w) → Timers.bounded (timers (stopPolling w)).
Proof.
  intros Hb. unfold stopPolling. destruct (pollingInterval (api w)); [|done].
  cbn. by apply TimersFacts.bounded_clearInterval.
Qed.

Lemma consistent_stopPolling w : consistent w → consistent (stopPolling w).
Proof.
  intros Hw. destruct (stopPolling_active w Hw) as [Hp Ha].
  split; [apply bounded_stopPolling, Hw|].
  intros h. rewrite Hp, Ha, lookup_empty. split; [by intros [? ?] | done].
Qed.

Lemma consistent_startPolling w taskId cbs :
  consistent w → consistent (startPolling w taskId cbs).
Proof.
  intros Hw. destruct (startPolling_active w taskId cbs Hw) as (Hp & Ha & Hn).
  split.
  - intros h cb. rewrite Ha, Hn, lookup_singleton.
    case_decide; [intros _; lia | done].
  - intros h. rewrite Hp, Ha. rewrite lookup_singleton_is_Some. split; congruence.
Qed.

Lemma consistent_call w f : consistent w → consistent (call f w).
Proof. done. Qed.

Lemma consistent_tick_resume w cbs r :
  consistent w → consistent (tick_resume w cbs r).
Proof.
  intros Hw. unfold tick_resume. destruct (getTaskStatus r) as [st|e].
  - destruct (status st);
      auto using consistent_call, consistent_stopPolling.
  - auto using consistent_call, consistent_stopPolling.
Qed.

Lemma consistent_uploaded w r : consistent w → consistent (uploaded w r).
Proof. intros Hw. unfold consistent, uploaded. by destruct r. Qed.

Lemma polling_reachable_consistent w : reachable w → consistent w.
Proof.
  induction 1;
    auto using polling_consistent_new, consistent_startPolling, consistent_stopPolling,
               consistent_tick_resume, consistent_call, consistent_uploaded.
Qed.

(** C10: an API instance never has more than one active polling
    interval, and the active one is the one in [pollingInterval]:
    after [startPolling] the only active interval is the new one,
    polling the new task, so the interval of the preceding task is
    gone; after [stopPolling] none is active. *)
Theorem one_polling_interval w (taskId : string) (cbs : Callbacks S) :
  reachable w →
  (size (Timers.active (timers w)) ≤ 1)%nat ∧
  (∀ h, is_Some (Timers.active (timers w) !! h) ↔ pollingInterval (api w) = Some h) ∧
  (∃ h, pollingInterval (api (startPolling w taskId cbs)) = Some h ∧
        Timers.active (timers (startPolling w taskId cbs)) = {[ h := (taskId, cbs) ]}) ∧
  (pollingInterval (api (stopPolling w)) = None ∧
   Timers.active (timers (stopPolling w)) = ∅).
Proof.
  intros Hw%polling_reachable_consistent. split; [|split; [apply Hw | split]].
  - destruct Hw as [_ Hc].
    destruct (pollingInterval (api w)) as [h|] eqn:E.
    + destruct (proj2 (Hc h) eq_refl) as [cb Hcb].
      assert (Timers.active (timers w) = {[ h := cb ]}) as ->.
      { apply map_eq. intros h'. rewrite lookup_singleton.
        case_decide as Hh; [by subst|].
        apply eq_None_not_Some. intros H%Hc. congruence. }
      by rewrite map_size_singleton.
    + assert (Timers.active (timers w) = ∅) as ->.
      { apply map_empty. intros h'. apply eq_None_not_Some. by intros H%Hc. }
      rewrite map_size_empty. lia.
  - destruct (startPolling_active w taskId cbs Hw) as (Hp & Ha & _). by eexists.
  - by apply stopPolling_active.
Qed.

End Client.

Lemma polling_abc_reachable : reachable polling_abc.
Proof.
  unfold polling_abc, UseAudioSeparation.processAudio_uploaded.
  apply reach_startPolling.
  apply (reach_call _ (λ s, {| UseAudioSeparation.isProcessing := UseAudioSeparation.isProcessing s;
                               UseAudioSeparation.progress := UseAudioSeparation.progress s;
                               UseAudioSeparation.status := "處理中...";
                               UseAudioSeparation.result := UseAudioSeparation.result s;
                               UseAudioSeparation.error := UseAudioSeparation.error s;
                               UseAudioSeparation.currentTaskId := Some "abc" |})).
  apply reach_uploadAudio, reach_new.
Qed.

Lemma one_polling_interval_witness :
  reachable polling_abc ∧
  Timers.active (timers polling_abc)
  = {[ 1%positive := ("abc", UseAudioSeparation.callbacks) ]} ∧
  (size (Timers.active (timers polling_abc)) ≤ 1)%nat ∧
  (∀ h, is_Some (Timers.active (timers polling_abc) !! h)
        ↔ pollingInterval (api polling_abc) = Some h) ∧
  (∃ h, pollingInterval (api (startPolling polling_abc "def" UseAudioSeparation.callbacks))
        = Some h ∧
        Timers.active (timers (startPolling polling_abc "def" UseAudioSeparation.callbacks))
        = {[ h := ("def", UseAudioSeparation.callbacks) ]}) ∧
  (pollingInterval (api (stopPolling polling_abc)) = None ∧
   Timers.active (timers (stopPolling polling_abc)) = ∅).
Proof.
  split; [exact polling_abc_reachable|]. split; [reflexivity|].
  exact (one_polling_interval polling_abc "def" UseAudioSeparation.callbacks
           polling_abc_reachable).
Defined.

(** Polling for a second task takes the place of polling for the
    first. *)
Example second_task_replaces_first :
  Timers.active
    (timers (UseAudioSeparation.processAudio_uploaded
               (UseAudioSeparation.processAudio_uploaded
                  {| api := new (Some "http://backend:5000") None;
                     timers := Timers.empty;
                     client := UseAudioSeparation.initial |}
                  "abc")
               "def"))
  = {[ 2%positive := ("def", UseAudioSeparation.callbacks) ]}.
Proof. reflexivity. Qed.

(** *** Failed polls *)

Lemma tick_resume_failure {S} (w : Browser S) cbs r msg :
  poll_failure r = Some msg →
  tick_resume w cbs r
  = call (onError cbs msg)
      (stopPolling match r with
                   | StatusOk st => call (onUpdate cbs st) w
                   | _ => w
                   end).
Proof.
  unfold poll_failure, tick_resume.
  destruct r as [st|e|[name message|]]; cbn.
  - destruct (status st); try done. by intros [= <-].
  - by intros [= <-].
  - by intros [= <-].
  - by intros [= <-].
Qed.

(** C7: when a poll of a task reports the task as failed, or the poll
    request itself fails (a response that is not ok, a network error),
    the workflow ends up failed with the error displayed and no
    processing going on, and polling has stopped: no polling interval
    is active any more, so no further status request is issued. *)
Theorem poll_failure_fails_workflow
    (w : Browser UseAudioSeparation.State) (r : StatusFetch) (msg : string) :
  reachable w → poll_failure r = Some msg →
  UseAudioSeparation.failed
    (client (tick_resume w UseAudioSeparation.callbacks r)) msg ∧
  pollingInterval (api (tick_resume w UseAudioSeparation.callbacks r)) = None ∧
  Timers.active (timers (tick_resume w UseAudioSeparation.callbacks r)) = ∅ ∧
  ∀ h, tick (tick_resume w UseAudioSeparation.callbacks r) h = None.
Proof.
  intros Hw%polling_reachable_consistent Hf.
  rewrite (tick_resume_failure _ _ _ _ Hf).
  set (w1 := match r with
             | StatusOk st => call (onUpdate UseAudioSeparation.callbacks st) w
             | _ => w
             end).
  assert (consistent w1) as Hw1 by (unfold w1; by destruct r).
  destruct (stopPolling_active w1 Hw1) as [Hp Ha].
  split; [done|]. split; [done|]. split; [done|].
  intros h. unfold tick. cbn. by rewrite Ha, lookup_empty.
Qed.

Lemma poll_failure_fails_workflow_witness :
  (reachable
     (UseAudioSeparation.processAudio_uploaded
        {| api := new (Some "http://backend:5000") None;
           timers := Timers.empty;
           client := UseAudioSeparation.processAudio_begin UseAudioSeparation.initial |}
        "abc") ∧
   poll_failure (StatusThrew (Js.ThrownError "TypeError" "Failed to fetch"))
   = Some "Failed to fetch") ∧
  UseAudioSeparation.failed
    (client
       (tick_resume
          (UseAudioSeparation.processAudio_uploaded
             {| api := new (Some "http://backend:5000") None;
                timers := Timers.empty;
                client := UseAudioSeparation.processAudio_begin UseAudioSeparation.initial |}
             "abc")
          UseAudioSeparation.callbacks
          (StatusThrew (Js.ThrownError "TypeError" "Failed to fetch"))))
    "Failed to fetch".
Proof.
  assert (reachable
            (UseAudioSeparation.processAudio_uploaded
               {| api := new (Some "http://backend:5000") None;
                  timers := Timers.empty;
                  client := UseAudioSeparation.processAudio_begin UseAudioSeparation.initial |}
               "abc")) as H.
  { unfold UseAudioSeparation.processAudio_uploaded.
    apply reach_startPolling.
    apply (reach_call _ (λ s, {| UseAudioSeparation.isProcessing := UseAudioSeparation.isProcessing s;
                                 UseAudioSeparation.progress := UseAudioSeparation.progress s;
                                 UseAudioSeparation.status := "處理中...";
                                 UseAudioSeparation.result := UseAudioSeparation.result s;
                                 UseAudioSeparation.error := UseAudioSeparation.error s;
                                 UseAudioSeparation.currentTaskId := Some "abc" |})).
    apply reach_new. }
  split; [split; [exact H | reflexivity]|].
  exact (proj1 (poll_failure_fails_workflow _
                  (StatusThrew (Js.ThrownError "TypeError" "Failed to fetch"))
                  "Failed to fetch" H eq_refl)).
Defined.

(** A poll that finds the task queued or processing only updates the
    display; the interval stays. *)
Lemma tick_resume_continues {S} (w : Browser S) cbs st :
  status st = queued ∨ status st = processing →
  tick_resume w cbs (StatusOk st) = call (onUpdate cbs st) w.
Proof. unfold tick_resume. cbn. by intros [-> | ->]. Qed.

Example failed_task_message :
  client
    (tick_resume
       (UseAudioSeparation.processAudio_uploaded
          {| api := new (Some "http://backend:5000") None;
             timers := Timers.empty;
             client := UseAudioSeparation.processAudio_begin UseAudioSeparation.initial |}
          "abc")
       UseAudioSeparation.callbacks
       (StatusOk {| task_id := "abc"; status := failed; progress := 40;
                    message := "decoding"; error := Some "decode error" |}))
  = {| UseAudioSeparation.isProcessing := false;
       UseAudioSeparation.progress := 40;
       UseAudioSeparation.status := "decoding";
       UseAudioSeparation.result := None;
       UseAudioSeparation.error := Some "decode error";
       UseAudioSeparation.currentTaskId := Some "abc" |}.
Proof. reflexivity. Qed.

End PollingFacts.

(** ** More on the health monitor *)

Module MonitorMore.

Import ApiMonitor MonitorRun MonitorInv.





(** *** Notifications come in turns *)






(** *** What every reachable state satisfies *)

Lemma healthy_reset_with_object m r res now st :
  healthy_reset m → healthy_reset (with_object m r (settled res now st)).
Proof.
  intros Hm r' st'. cbn. rewrite lookup_insert. case_decide.
  - intros [= <-]. unfold settled. cbn. by intros ->.
  - apply Hm.
Qed.

Lemma healthy_reset_resume m u r res now :
  healthy_reset m → healthy_reset (checkApiHealth_resume m u r res now).1.
Proof.
  intros Hm. destruct (objects m !! r) as [st|] eqn:Hst.
  - rewrite (MonitorFacts.resume_at _ _ _ st) by done. by apply healthy_reset_with_object.
  - by rewrite MonitorFacts.resume_missing.
Qed.

Lemma healthy_reset_stopMonitoring m u : healthy_reset m → healthy_reset (stopMonitoring m u).
Proof. intros Hm. unfold stopMonitoring. by destruct (monitoringIntervals m !! u). Qed.

Lemma healthy_reset_startMonitoring m u now :
  healthy_reset m → healthy_reset (startMonitoring m u now).1.
Proof.
  intros Hm%(healthy_reset_stopMonitoring m u) r st. unfold startMonitoring. cbn.
  rewrite lookup_insert. case_decide; [by intros [= <-]|apply Hm].
Qed.

Lemma reachable_healthy_reset m : reachable m → healthy_reset m.
Proof.
  induction 1.
  - intros r st. cbn. by rewrite lookup_empty.
  - by apply healthy_reset_startMonitoring.
  - by apply healthy_reset_stopMonitoring.
  - done.
  - by apply healthy_reset_resume.
Qed.

Lemma separate_stopMonitoring m u : separate m → separate (stopMonitoring m u).
Proof. intros Hm. unfold stopMonitoring. by destruct (monitoringIntervals m !! u). Qed.


Lemma separate_startMonitoring m u now : separate m → separate (startMonitoring m u now).1.
Proof.
  intros [Hb Hi]%(separate_stopMonitoring m u). unfold separate, startMonitoring. cbn.
  set (m1 := stopMonitoring m u) in *. split.
  - intros u' r. rewrite lookup_insert. case_decide.
    + intros [= <-]. split; [lia|]. rewrite lookup_insert_eq. by eexists.
    + intros [Hlt Hsome]%Hb. split; [lia|].
      rewrite lookup_insert_ne by lia. done.
  - intros u1 u2 r. rewrite !lookup_insert.
    repeat case_decide; subst; try done.
    + intros [= <-] [Hlt _]%Hb. lia.
    + intros [Hlt _]%Hb [= <-]. lia.
    + apply Hi.
Qed.

Lemma separate_resume m u r res now :
  separate m → separate (checkApiHealth_resume m u r res now).1.
Proof.
  intros [Hb Hi]. destruct (objects m !! r) as [st|] eqn:Hst.
  - rewrite (MonitorFacts.resume_at _ _ _ st) by done. split; [|done].
    intros u' r' [Hlt Hsome]%Hb. split; [done|]. cbn.
    rewrite lookup_insert. by case_decide.
  - by rewrite MonitorFacts.resume_missing.
Qed.

Lemma reachable_separate m : reachable m → separate m.
Proof.
  induction 1.
  - split; [intros u r | intros u u' r]; cbn; by rewrite lookup_empty.
  - by apply separate_startMonitoring.
  - by apply separate_stopMonitoring.
  - done.
  - by apply separate_resume.
Qed.

(** X3: in every state the monitor can reach, a connection-error
    notification is only made by a failed probe of a record that was
    healthy, whose failure count is then 1: the reported retry count is
    always 1, whatever [MAX_RETRIES] would allow. *)
Theorem connection_error_retry_count
    (m : t) (apiUrl : string) (status : positive) (res : FetchResult) (now : Z)
    (u : string) (e : EmailService.ErrorInfo) (retryCount : Z) :
  reachable m →
  NotifyApiConnectionError u e retryCount
    ∈ (checkApiHealth_resume m apiUrl status res now).2 →
  u = apiUrl ∧ e = failure res ∧ retryCount = 1 ∧ succeeded res = false.
Proof.
  intros Hm%reachable_healthy_reset.
  destruct (objects m !! status) as [st|] eqn:Hst.
  - rewrite (MonitorFacts.resume_at _ _ _ st) by done. cbn [snd]. unfold notices.
    destruct (succeeded res) eqn:Hres.
    + destruct (negb (isHealthy st) && bool_decide (now > 0));
        [intros [=]%list_elem_of_singleton | intros []%elem_of_nil].
    + destruct (isHealthy st) eqn:Hh; cbn; [|intros []%elem_of_nil].
      case_bool_decide; [|intros []%elem_of_nil].
      intros [= -> -> ->]%list_elem_of_singleton.
      rewrite (Hm _ _ Hst Hh). done.
  - rewrite MonitorFacts.resume_missing by done. intros []%elem_of_nil.
Qed.

Lemma connection_error_retry_count_witness :
  (reachable (monitored new "http://backend:5000" 1000 [(Response 200, 2000)]).1 ∧
   NotifyApiConnectionError "http://backend:5000" (failure (Response 502)) 1
     ∈ (checkApiHealth_resume
          (monitored new "http://backend:5000" 1000 [(Response 200, 2000)]).1
          "http://backend:5000" 1%positive (Response 502) 3000).2) ∧
  ("http://backend:5000" = "http://backend:5000" ∧
   failure (Response 502) = failure (Response 502) ∧ 1 = 1 ∧
   succeeded (Response 502) = false).
Proof.
  assert (reachable (monitored new "http://backend:5000" 1000 [(Response 200, 2000)]).1) as H.
  { change (monitored new "http://backend:5000" 1000 [(Response 200, 2000)]).1
      with (checkApiHealth_resume (startMonitoring new "http://backend:5000" 1000).1
              "http://backend:5000" 1%positive (Response 200) 2000).1.
    apply reach_probe, reach_startMonitoring, reach_new. }
  assert (NotifyApiConnectionError "http://backend:5000" (failure (Response 502)) 1
            ∈ (checkApiHealth_resume
                 (monitored new "http://backend:5000" 1000 [(Response 200, 2000)]).1
                 "http://backend:5000" 1%positive (Response 502) 3000).2) as Hin.
  { vm_compute. constructor. }
  split; [by split|].
  exact (connection_error_retry_count _ _ _ _ _ _ _ _ H Hin).
Defined.

(** X4: a probe of one URL leaves the records of all other URLs as
    they are. *)
Theorem probe_leaves_other_urls
    (m : t) (apiUrl other : string) (res : FetchResult) (now : Z) :
  reachable m → other ≠ apiUrl →
  getHealthStatus (monitor (checkApiHealth m apiUrl res now)) other
  = getHealthStatus m other.
Proof.
  intros [Hb Hi]%reachable_separate Hne.
  unfold checkApiHealth, checkApiHealth_begin.
  destruct (healthStatus m !! apiUrl) as [r|] eqn:Hu; [|done].
  destruct (objects m !! r) as [st|] eqn:Hst.
  - rewrite (MonitorFacts.resume_at _ _ _ st) by done. cbn.
    unfold getHealthStatus. cbn.
    destruct (healthStatus m !! other) as [r'|] eqn:Hu'; [|done].
    rewrite lookup_insert_ne; [done|]. intros ->. apply Hne. by eapply Hi.
  - by rewrite MonitorFacts.resume_missing.
Qed.

Lemma probe_leaves_other_urls_witness :
  (reachable (startMonitoring (startMonitoring new "http://a:5000" 1000).1
                "http://b:5000" 1500).1 ∧
   "http://b:5000" ≠ "http://a:5000") ∧
  getHealthStatus
    (monitor (checkApiHealth
                (startMonitoring (startMonitoring new "http://a:5000" 1000).1
                   "http://b:5000" 1500).1
                "http://a:5000" (Response 200) 2000))
    "http://b:5000"
  = getHealthStatus
      (startMonitoring (startMonitoring new "http://a:5000" 1000).1
         "http://b:5000" 1500).1
      "http://b:5000".
Proof.
  assert (reachable (startMonitoring (startMonitoring new "http://a:5000" 1000).1
                       "http://b:5000" 1500).1) as H
    by (do 2 apply reach_startMonitoring; apply reach_new).
  assert ("http://b:5000" ≠ "http://a:5000") as Hne by discriminate.
  split; [by split|].
  exact (probe_leaves_other_urls _ _ _ (Response 200) 2000 H Hne).
Defined.

(** *** Stopping *)

(** X5: in every state the monitor can reach, [stopMonitoring(url)]
    leaves no active interval that probes [url], leaves the intervals
    of the other URLs as they are and keeps every status record,
    that of [url] included; stopping a second time changes nothing. *)
Theorem stopMonitoring_stops (m : t) (apiUrl : string) :
  reachable m →
  (∀ h, Timers.active (intervals (stopMonitoring m apiUrl)) !! h ≠ Some apiUrl) ∧
  (∀ h u, u ≠ apiUrl →
     Timers.active (intervals (stopMonitoring m apiUrl)) !! h = Some u ↔
     Timers.active (intervals m) !! h = Some u) ∧
  (∀ u, getHealthStatus (stopMonitoring m apiUrl) u = getHealthStatus m u) ∧
  stopMonitoring (stopMonitoring m apiUrl) apiUrl = stopMonitoring m apiUrl.
Proof.
  intros Hm%MonitorFacts.reachable_consistent.
  pose proof (MonitorFacts.consistent_stopMonitoring m apiUrl Hm) as [_ Hc'].
  pose proof (MonitorFacts.stopMonitoring_forgets m apiUrl) as Hnone.
  split; [|split; [|split]].
  - intros h Hh%Hc'. congruence.
  - intros h u Hne. destruct Hm as [_ Hc]. unfold stopMonitoring.
    destruct (monitoringIntervals m !! apiUrl) as [h0|] eqn:E; [|done]. cbn.
    rewrite lookup_delete. case_decide as Hh; [|done]. subst h0.
    split; [done|]. intros Hu. apply Hc in E. congruence.
  - intros u. unfold stopMonitoring, getHealthStatus.
    by destruct (monitoringIntervals m !! apiUrl).
  - unfold stopMonitoring at 1. by rewrite Hnone.
Qed.

Lemma stopMonitoring_stops_witness :
  reachable (startMonitoring new "http://backend:5000" 1000).1 ∧
  ∀ h, Timers.active
         (intervals (stopMonitoring (startMonitoring new "http://backend:5000" 1000).1
                       "http://backend:5000")) !! h
       ≠ Some "http://backend:5000".
Proof.
  assert (reachable (startMonitoring new "http://backend:5000" 1000).1) as H
    by apply reach_startMonitoring, reach_new.
  split; [exact H|].
  exact (proj1 (stopMonitoring_stops _ "http://backend:5000" H)).
Defined.

Lemma cleanup_active m :
  consistent m → Timers.active (intervals (cleanup m)) = ∅.
Proof.
  intros Hm. destruct (MonitorFacts.consistent_cleanup m Hm) as [_ Hc].
  apply map_empty. intros h.
  destruct (Timers.active (intervals (cleanup m)) !! h) as [u|] eqn:E; [|done].
  apply Hc in E. cbn in E. by rewrite lookup_empty in E.
Qed.

(** X6: in every state the monitor can reach, [cleanup] leaves no
    active interval at all, and keeps every status record. *)
Theorem cleanup_stops_all (m : t) :
  reachable m →
  Timers.active (intervals (cleanup m)) = ∅ ∧
  monitoringIntervals (cleanup m) = ∅ ∧
  (∀ h, tick (cleanup m) h = None) ∧
  ∀ u, getHealthStatus (cleanup m) u = getHealthStatus m u.
Proof.
  intros Hm%MonitorFacts.reachable_consistent.
  pose proof (cleanup_active m Hm) as Ha.
  split; [done|]. split; [done|]. split; [|done].
  intros h. unfold tick. by rewrite Ha, lookup_empty.
Qed.

Lemma cleanup_stops_all_witness :
  reachable (startMonitoring (startMonitoring new "http://a:5000" 1000).1
               "http://b:5000" 1500).1 ∧
  Timers.active
    (intervals (cleanup (startMonitoring (startMonitoring new "http://a:5000" 1000).1
                           "http://b:5000" 1500).1)) = ∅.
Proof.
  assert (reachable (startMonitoring (startMonitoring new "http://a:5000" 1000).1
                       "http://b:5000" 1500).1) as H
    by (do 2 apply reach_startMonitoring; apply reach_new).
  split; [exact H|].
  exact (proj1 (cleanup_stops_all _ H)).
Defined.

End MonitorMore.

(** ** Probes on demand, with what goes on in the meantime *)

Module CheckNowFacts.

Import ApiMonitor MonitorRun MonitorInv.

(** A [checkNow] with nothing in between is its three steps, one after
    the other. *)
Lemma checkNow_steps m u res now :
  (monitor (checkNow m u res now).1, notified (checkNow m u res now).1)
  = checkNow_settle m u (fst <$> checkNow_begin m u) res now ∧
  (checkNow m u res now).2
  = checkNow_return (checkNow_settle m u (fst <$> checkNow_begin m u) res now).1 u ∧
  requests (checkNow m u res now).1 = option_list (snd <$> checkNow_begin m u).
Proof.
  unfold checkNow, checkNow_settle, checkNow_return, checkNow_begin, checkApiHealth.
  destruct (checkApiHealth_begin m u) as [[r url]|]; cbn; [|done].
  by destruct (checkApiHealth_resume m u r res now).
Qed.






(** When [startMonitoring(url)] is called while the probe of
    [checkNow(url)] is in flight, the probe updates the record it
    looked up, and [checkNow] returns the fresh record that the map
    holds by then: unhealthy and dated by [startMonitoring], although
    the probe succeeded. *)
Example checkNow_during_startMonitoring :
  checkNow_begin (startMonitoring new "http://backend:5000" 1000).1 "http://backend:5000"
  = Some (1%positive, "http://backend:5000/health") ∧
  checkNow_return
    (checkNow_settle
       (startMonitoring (startMonitoring new "http://backend:5000" 1000).1
          "http://backend:5000" 2000).1
       "http://backend:5000" (Some 1%positive) (Response 200) 3000).1
    "http://backend:5000"
  = Some {| isHealthy := false; lastCheck := 2000; lastError := None;
            consecutiveFailures := 0; uptime := 100 |}.
Proof. split; by vm_compute. Qed.

(** When the probe of [checkNow(url)] has failed and, while its
    notification is with the mail service, a probe of the interval
    settles on the same record, [checkNow] returns the record as that
    later probe leaves it. *)
Example checkNow_overtaken :
  (checkNow_settle
     (checkApiHealth_resume (startMonitoring new "http://backend:5000" 1000).1
        "http://backend:5000" 1%positive (Response 200) 1200).1
     "http://backend:5000" (Some 1%positive) (Response 503) 2000).2
  = [NotifyApiConnectionError "http://backend:5000"
       (EmailService.Build_ErrorInfo (Some "Error") (Some "HTTP 503")) 1] ∧
  checkNow_return
    (checkApiHealth_resume
       (checkNow_settle
          (checkApiHealth_resume (startMonitoring new "http://backend:5000" 1000).1
             "http://backend:5000" 1%positive (Response 200) 1200).1
          "http://backend:5000" (Some 1%positive) (Response 503) 2000).1
       "http://backend:5000" 1%positive (Response 200) 2100).1
    "http://backend:5000"
  = Some {| isHealthy := true; lastCheck := 2100; lastError := None;
            consecutiveFailures := 0; uptime := 100 |}.
Proof. split; by vm_compute. Qed.

End CheckNowFacts.

(** ** More on the configuration store and its routes *)

Module StoreMore.

Import Routes StorageRun.

Lemma writes_snoc s cs c : writes s (cs ++ [c]) = write (writes s cs) c.
Proof. unfold writes. by rewrite foldl_app. Qed.

Lemma writes_id uuid now cs :
  uuid ≠ "" → Storage.id <$> writes (Storage.new uuid now) cs = Some uuid.
Proof.
  intros Hne. induction cs as [|c cs IH] using rev_ind; [done|].
  rewrite writes_snoc. unfold write, Storage.setApiConfig. cbn [snd fmap option_fmap option_map].
  rewrite IH. cbn. by destruct uuid.
Qed.

(** X7: the store holds the last write and the first id: after any
    writes, the stored record has the fields of the last
    [setApiConfig] call and the time of that call, and still the id it
    was created with (when that id is not empty). *)
Theorem store_last_write_first_id
    (uuid : string) (now0 : Z) (cs : list (Storage.ApiConfigInput * string * Z))
    (config : Storage.ApiConfigInput) (uuid' : string) (now : Z) :
  uuid ≠ "" →
  Storage.getApiConfig (writes (Storage.new uuid now0) (cs ++ [(config, uuid', now)]))
  = Some {| Storage.id := uuid;
            Storage.apiUrl := Storage.in_apiUrl config;
            Storage.isActive := Storage.in_isActive config;
            Storage.description := Storage.in_description config;
            Storage.updatedAt := now;
            Storage.updatedBy := Storage.in_updatedBy config |}.
Proof.
  intros Hne. rewrite writes_snoc. unfold write, Storage.setApiConfig, Storage.getApiConfig.
  cbn [fst snd]. rewrite (writes_id uuid now0 cs Hne). cbn. by destruct uuid.
Qed.

Lemma store_last_write_first_id_witness :
  "7d1c" ≠ "" ∧
  Storage.getApiConfig
    (writes (Storage.new "7d1c" 1000)
       ([(Storage.Build_ApiConfigInput "https://one.example" true None (Some "admin"),
          "aaaa", 2000)]
        ++ [(Storage.Build_ApiConfigInput "https://two.example" true
               (Some "second") (Some "admin"), "bbbb", 3000)]))
  = Some {| Storage.id := "7d1c";
            Storage.apiUrl := "https://two.example";
            Storage.isActive := true;
            Storage.description := Some "second";
            Storage.updatedAt := 3000;
            Storage.updatedBy := Some "admin" |}.
Proof.
  assert ("7d1c" ≠ "") as H by discriminate.
  split; [exact H|].
  exact (store_last_write_first_id "7d1c" 1000 _
           (Storage.Build_ApiConfigInput "https://two.example" true
              (Some "second") (Some "admin")) "bbbb" 3000 H).
Defined.

(** X8: what an accepted POST /api/config answers is what GET
    /api/config answers from then on: the response carries the view of
    the stored record, and a GET on the new state returns 200 with the
    same view. *)
Theorem post_then_get (isUrl : string → bool) (w : Server) (body : option Body)
    (v : UpdateApiConfigRequest) (uuid : string) (now_set now_start : Z) :
  parse isUrl body = Some v →
  adminPassword v = Storage.ADMIN_PASSWORD (env_ADMIN_PASSWORD w) →
  ∃ c, (post_api_config isUrl w body uuid now_set now_start).1.1
       = {| status := 200; json := UpdatedBody true "API配置更新成功" c |} ∧
       get_api_config (post_api_config isUrl w body uuid now_set now_start).1.2
       = {| status := 200; json := ConfigBody c |} ∧
       view_apiUrl c = apiUrl v ∧
       view_updatedAt c = now_set.
Proof.
  intros Hv Hpw. unfold post_api_config. rewrite Hv.
  rewrite bool_decide_eq_false_2 by (by intros ?). cbn.
  destruct (ApiMonitor.startMonitoring (ApiMonitor.cleanup (apiMonitor w))
              (apiUrl v) now_start) as [m' inflight].
  eexists. cbn. split; [reflexivity|]. split; [reflexivity|]. done.
Qed.

Lemma post_then_get_witness :
  (parse (λ _, true)
     (Some {| body_apiUrl := JString "https://new.example";
              body_description := JUndefined;
              body_adminPassword := JString "fculab224" |})
   = Some {| apiUrl := "https://new.example"; description := None;
             adminPassword := "fculab224" |} ∧
   "fculab224" = Storage.ADMIN_PASSWORD None) ∧
  ∃ c, (post_api_config (λ _, true)
          {| storage := Storage.new "7d1c" 1000; apiMonitor := ApiMonitor.new;
             env_ADMIN_PASSWORD := None |}
          (Some {| body_apiUrl := JString "https://new.example";
                   body_description := JUndefined;
                   body_adminPassword := JString "fculab224" |})
          "0000" 2000 2001).1.1
       = {| status := 200; json := UpdatedBody true "API配置更新成功" c |} ∧
       get_api_config
         (post_api_config (λ _, true)
            {| storage := Storage.new "7d1c" 1000; apiMonitor := ApiMonitor.new;
               env_ADMIN_PASSWORD := None |}
            (Some {| body_apiUrl := JString "https://new.example";
                     body_description := JUndefined;
                     body_adminPassword := JString "fculab224" |})
            "0000" 2000 2001).1.2
       = {| status := 200; json := ConfigBody c |} ∧
       view_apiUrl c = "https://new.example" ∧
       view_updatedAt c = 2000.
Proof.
  split; [split; reflexivity|].
  exact (post_then_get (λ _, true)
           {| storage := Storage.new "7d1c" 1000; apiMonitor := ApiMonitor.new;
              env_ADMIN_PASSWORD := None |}
           (Some {| body_apiUrl := JString "https://new.example";
                    body_description := JUndefined;
                    body_adminPassword := JString "fculab224" |})
           {| apiUrl := "https://new.example"; description := None;
              adminPassword := "fculab224" |}
           "0000" 2000 2001 eq_refl eq_refl).
Defined.

(** X9: an accepted POST /api/config moves the monitoring to the new
    URL: afterwards exactly one interval is active and it probes the
    new URL, whatever was monitored before; the new URL gets a fresh
    unhealthy record, and the records of all other URLs are kept. *)
Theorem post_api_config_moves_monitoring (isUrl : string → bool) (w : Server)
    (body : option Body) (v : UpdateApiConfigRequest) (uuid : string)
    (now_set now_start : Z) :
  MonitorRun.reachable (apiMonitor w) →
  parse isUrl body = Some v →
  adminPassword v = Storage.ADMIN_PASSWORD (env_ADMIN_PASSWORD w) →
  (∃ h, Timers.active
          (ApiMonitor.intervals
             (apiMonitor (post_api_config isUrl w body uuid now_set now_start).1.2))
        = {[ h := apiUrl v ]}) ∧
  ApiMonitor.getHealthStatus
    (apiMonitor (post_api_config isUrl w body uuid now_set now_start).1.2) (apiUrl v)
  = Some {| ApiMonitor.isHealthy := false; ApiMonitor.lastCheck := now_start;
            ApiMonitor.lastError := None; ApiMonitor.consecutiveFailures := 0;
            ApiMonitor.uptime := 100 |} ∧
  ∀ u, u ≠ apiUrl v →
    ApiMonitor.getHealthStatus
      (apiMonitor (post_api_config isUrl w body uuid now_set now_start).1.2) u
    = ApiMonitor.getHealthStatus (apiMonitor w) u.
Proof.
  intros Hm Hv Hpw.
  destruct (RoutesFacts.post_api_config_accepted isUrl w body uuid now_set now_start v Hv Hpw)
    as (_ & _ & ->).
  pose proof (MonitorMore.reachable_separate _ Hm) as [Hb Hi].
  apply MonitorFacts.reachable_consistent in Hm.
  pose proof (MonitorMore.cleanup_active _ Hm) as Ha.
  assert (ApiMonitor.monitoringIntervals (ApiMonitor.cleanup (apiMonitor w)) = ∅) as Hmi
    by done.
  assert (ApiMonitor.healthStatus (ApiMonitor.cleanup (apiMonitor w))
          = ApiMonitor.healthStatus (apiMonitor w)) as Hhs by done.
  assert (ApiMonitor.objects (ApiMonitor.cleanup (apiMonitor w))
          = ApiMonitor.objects (apiMonitor w)) as Hob by done.
  assert (ApiMonitor.nextObject (ApiMonitor.cleanup (apiMonitor w))
          = ApiMonitor.nextObject (apiMonitor w)) as Hno by done.
  set (m0 := ApiMonitor.cleanup (apiMonitor w)) in *. clearbody m0.
  assert (ApiMonitor.stopMonitoring m0 (apiUrl v) = m0) as Hstop.
  { unfold ApiMonitor.stopMonitoring. by rewrite Hmi, lookup_empty. }
  split; [|split].
  - exists (Timers.next (ApiMonitor.intervals m0)).
    unfold ApiMonitor.startMonitoring. rewrite Hstop. cbn. by rewrite Ha.
  - destruct (MonitorFacts.startMonitoring_at m0 (apiUrl v) now_start)
      as (m1 & r & -> & Hu & Hst).
    unfold ApiMonitor.getHealthStatus. cbn. by rewrite Hu.
  - intros u Hne.
    unfold ApiMonitor.startMonitoring. rewrite Hstop.
    unfold ApiMonitor.getHealthStatus. cbn.
    rewrite lookup_insert_ne by done. rewrite Hhs, Hob, Hno.
    destruct (ApiMonitor.healthStatus (apiMonitor w) !! u) as [r|] eqn:Hu; [|done].
    rewrite lookup_insert_ne; [done|].
    destruct (Hb u r Hu) as [Hlt _]. lia.
Qed.

Lemma post_api_config_moves_monitoring_witness :
  (MonitorRun.reachable (ApiMonitor.startMonitoring ApiMonitor.new "https://old.example" 1000).1 ∧
   parse (λ _, true)
     (Some {| body_apiUrl := JString "https://new.example";
              body_description := JUndefined;
              body_adminPassword := JString "fculab224" |})
   = Some {| apiUrl := "https://new.example"; description := None;
             adminPassword := "fculab224" |} ∧
   "fculab224" = Storage.ADMIN_PASSWORD None) ∧
  ∃ h, Timers.active
         (ApiMonitor.intervals
            (apiMonitor
               (post_api_config (λ _, true)
                  {| storage := Storage.new "7d1c" 1000;
                     apiMonitor :=
                       (ApiMonitor.startMonitoring ApiMonitor.new "https://old.example" 1000).1;
                     env_ADMIN_PASSWORD := None |}
                  (Some {| body_apiUrl := JString "https://new.example";
                           body_description := JUndefined;
                           body_adminPassword := JString "fculab224" |})
                  "0000" 2000 2001).1.2))
       = {[ h := "https://new.example" ]}.
Proof.
  assert (MonitorRun.reachable
            (ApiMonitor.startMonitoring ApiMonitor.new "https://old.example" 1000).1) as H
    by apply MonitorRun.reach_startMonitoring, MonitorRun.reach_new.
  split; [split; [exact H | split; reflexivity]|].
  exact (proj1 (post_api_config_moves_monitoring (λ _, true)
                  {| storage := Storage.new "7d1c" 1000;
                     apiMonitor :=
                       (ApiMonitor.startMonitoring ApiMonitor.new "https://old.example" 1000).1;
                     env_ADMIN_PASSWORD := None |}
                  (Some {| body_apiUrl := JString "https://new.example";
                           body_description := JUndefined;
                           body_adminPassword := JString "fculab224" |})
                  {| apiUrl := "https://new.example"; description := None;
                     adminPassword := "fculab224" |}
                  "0000" 2000 2001 H eq_refl eq_refl)).
Defined.

End StoreMore.

(** ** More on the two notification services *)

Module NotifyMore.

Import EmailService.

Lemma new_unconfigured e p :
  (e = None ∨ e = Some "") ∨ (p = None ∨ p = Some "") →
  new e p = {| transporter := false; lastNotificationTime := ∅ |}.
Proof.
  unfold new, initializeTransporter.
  intros [[-> | ->] | [-> | ->]]; try done.
  - by destruct p.
  - by destruct e.
  - destruct e as [e|]; [|done]. cbn. by rewrite andb_false_r.
Qed.

(** X10: when GMAIL_EMAIL or GMAIL_APP_PASSWORD is missing or empty, the
    mail service never sends: after any calls, every further call
    returns false, hands nothing to the transport and leaves the
    service as it was created. *)
Theorem unconfigured_never_sends (gmailEmail gmailAppPassword : option string)
    (cs : list MailRun.Call) (c : MailRun.Call) :
  (gmailEmail = None ∨ gmailEmail = Some "") ∨
  (gmailAppPassword = None ∨ gmailAppPassword = Some "") →
  MailRun.run (new gmailEmail gmailAppPassword) cs
  = (new gmailEmail gmailAppPassword, []) ∧
  MailRun.send (MailRun.run (new gmailEmail gmailAppPassword) cs).1 c
  = {| returned := false; attempted := []; after := new gmailEmail gmailAppPassword |}.
Proof.
  intros Hmissing. rewrite (new_unconfigured _ _ Hmissing).
  assert (MailRun.run {| transporter := false; lastNotificationTime := ∅ |} cs
          = ({| transporter := false; lastNotificationTime := ∅ |}, [])) as Hrun.
  { unfold MailRun.run. induction cs as [|c' cs IH] using rev_ind; [done|].
    by rewrite foldl_app, IH. }
  by rewrite Hrun.
Qed.

Lemma unconfigured_never_sends_witness :
  ((Some "ops@example.com" = None ∨ Some "ops@example.com" = Some "") ∨
   (@None string = None ∨ @None string = Some "")) ∧
  MailRun.send
    (MailRun.run (new (Some "ops@example.com") None)
       [MailRun.recovery_call "http://backend:5000" 1000 true]).1
    (MailRun.recovery_call "http://backend:5000" 2000 true)
  = {| returned := false; attempted := [];
       after := new (Some "ops@example.com") None |}.
Proof.
  assert ((Some "ops@example.com" = None ∨ Some "ops@example.com" = Some "") ∨
          (@None string = None ∨ @None string = Some "")) as H
    by (right; by left).
  split; [exact H|].
  exact (proj2 (unconfigured_never_sends (Some "ops@example.com") None
                  [MailRun.recovery_call "http://backend:5000" 1000 true]
                  (MailRun.recovery_call "http://backend:5000" 2000 true) H)).
Defined.

Lemma key_severity n1 n2 u1 u2 :
  severity n1 ≠ severity n2 → notificationKey n1 u1 ≠ notificationKey n2 u2.
Proof.
  unfold notificationKey.
  destruct (severity n1), (severity n2); intros Hne; try done; cbn; discriminate.
Qed.

(** X11: notices of different severity never put each other into
    cooldown: whatever the mail service does with a notice, a notice
    of another severity is in cooldown afterwards exactly if it was
    before.  So a recovery notice never holds back the next
    connection-error notice, nor the other way round. *)
Theorem cooldown_per_severity (s : t) (n1 n2 : EmailNotification)
    (u1 u2 : option string) (e : Env) (now : Z) :
  severity n1 ≠ severity n2 →
  isInCooldown (after (sendNotification s n1 u1 e)) (notificationKey n2 u2) now
  = isInCooldown s (notificationKey n2 u2) now.
Proof.
  intros Hk%(key_severity n1 n2 u1 u2).
  destruct (MailFacts.sendNotification_cases s n1 u1 e)
    as [(_ & _ & _ & ->) | [(_ & _ & _ & _ & ->) | [(_ & _ & _ & _ & _ & ->) | (_ & _ & _ & _ & _ & ->)]]];
    try done.
  unfold isInCooldown. cbn. by rewrite lookup_insert_ne.
Qed.

Lemma cooldown_per_severity_witness :
  severity (recoveredNotification "http://backend:5000" 1000)
  ≠ severity (connectionErrorNotification "http://backend:5000"
                (Build_ErrorInfo (Some "Error") (Some "HTTP 503")) 1 2000) ∧
  isInCooldown
    (after (sendNotification MailRun.configured
              (recoveredNotification "http://backend:5000" 1000)
              (Some "http://backend:5000") (Build_Env 1000 true 1200)))
    (notificationKey
       (connectionErrorNotification "http://backend:5000"
          (Build_ErrorInfo (Some "Error") (Some "HTTP 503")) 1 2000)
       (Some "http://backend:5000")) 2000
  = isInCooldown MailRun.configured
      (notificationKey
         (connectionErrorNotification "http://backend:5000"
            (Build_ErrorInfo (Some "Error") (Some "HTTP 503")) 1 2000)
         (Some "http://backend:5000")) 2000.
Proof.
  assert (severity (recoveredNotification "http://backend:5000" 1000)
          ≠ severity (connectionErrorNotification "http://backend:5000"
                        (Build_ErrorInfo (Some "Error") (Some "HTTP 503")) 1 2000)) as H
    by discriminate.
  split; [exact H|].
  exact (cooldown_per_severity MailRun.configured _ _ _ _ (Build_Env 1000 true 1200) 2000 H).
Defined.

Lemma second_notice (s : t) (n1 n2 : EmailNotification)
    (u1 u2 : option string) (e1 e2 : Env) :
  transporter s = true →
  isInCooldown s (notificationKey n1 u1) (now_check e1) = false →
  mail_ok e1 = true → now_sent e1 ≠ 0 →
  notificationKey n2 u2 = notificationKey n1 u1 →
  mail_ok e2 = true →
  returned (sendNotification (after (sendNotification s n1 u1 e1)) n2 u2 e2)
  = bool_decide (now_sent e1 + 180 * 60 * 1000 ≤ now_check e2) ∧
  length (attempted (sendNotification (after (sendNotification s n1 u1 e1)) n2 u2 e2))
  = if bool_decide (now_sent e1 + 180 * 60 * 1000 ≤ now_check e2) then 1%nat else 0%nat.
Proof.
  intros Ht Hc Hm Hnz Hk Hm2.
  rewrite (MailFacts.sendNotification_delivered s n1 u1 e1 Ht Hc Hm).
  cbn [after]. unfold sendNotification. cbn [transporter negb].
  rewrite Hk. unfold isInCooldown at 1 2. cbn [lastNotificationTime].
  rewrite lookup_insert_eq, decide_False by done.
  unfold COOLDOWN_MINUTES. rewrite Hm2.
  case_bool_decide as H1; case_bool_decide as H2; try lia; done.
Qed.

(** X12: the cooldown runs from the clock reading taken after the
    delivery: once a notice has been delivered and its time [now_sent]
    recorded, the next notice with the same key, with the transport
    working, is delivered exactly if it is checked 180 minutes or more
    after [now_sent], and is skipped before that. *)
Theorem second_notice_boundary (s : t) (n1 n2 : EmailNotification)
    (u1 u2 : option string) (e1 e2 : Env) :
  transporter s = true →
  isInCooldown s (notificationKey n1 u1) (now_check e1) = false →
  mail_ok e1 = true → now_sent e1 ≠ 0 →
  notificationKey n2 u2 = notificationKey n1 u1 →
  mail_ok e2 = true →
  returned (sendNotification (after (sendNotification s n1 u1 e1)) n2 u2 e2)
  = bool_decide (now_sent e1 + 180 * 60 * 1000 ≤ now_check e2) ∧
  length (attempted (sendNotification (after (sendNotification s n1 u1 e1)) n2 u2 e2))
  = if bool_decide (now_sent e1 + 180 * 60 * 1000 ≤ now_check e2) then 1%nat else 0%nat.
Proof. apply second_notice. Qed.

Lemma second_notice_boundary_witness :
  (transporter MailRun.configured = true ∧
   isInCooldown MailRun.configured
     (notificationKey (recoveredNotification "http://backend:5000" 1000)
        (Some "http://backend:5000")) 1000 = false ∧
   1200 ≠ 0) ∧
  returned
    (sendNotification
       (after (sendNotification MailRun.configured
                 (recoveredNotification "http://backend:5000" 1000)
                 (Some "http://backend:5000") (Build_Env 1000 true 1200)))
       (recoveredNotification "http://backend:5000" 10801200)
       (Some "http://backend:5000") (Build_Env 10801200 true 10801300))
  = bool_decide (1200 + 180 * 60 * 1000 ≤ 10801200).
Proof.
  split; [split; [reflexivity | split; [reflexivity | discriminate]]|].
  exact (proj1 (second_notice_boundary MailRun.configured
                  (recoveredNotification "http://backend:5000" 1000)
                  (recoveredNotification "http://backend:5000" 10801200)
                  (Some "http://backend:5000") (Some "http://backend:5000")
                  (Build_Env 1000 true 1200) (Build_Env 10801200 true 10801300)
                  eq_refl eq_refl eq_refl ltac:(discriminate) eq_refl eq_refl)).
Defined.

(** X13: without a webhook URL the other service never posts and never
    starts a cooldown: every call returns false, posts nothing, writes
    the message to the console and leaves the service unchanged, however
    many calls came before. *)
Theorem discord_unconfigured_only_logs (DISCORD_WEBHOOK_URL : option string)
    (ms : list (NotificationService.NotificationMessage * NotificationService.Env))
    (m : NotificationService.NotificationMessage) (env : NotificationService.Env) :
  DISCORD_WEBHOOK_URL = None ∨ DISCORD_WEBHOOK_URL = Some "" →
  NotificationService.sendNotification
    (foldl (λ s c, NotificationService.after (NotificationService.sendNotification s c.1 c.2))
           (NotificationService.new DISCORD_WEBHOOK_URL) ms)
    m env
  = {| NotificationService.returned := false;
       NotificationService.posted := [];
       NotificationService.logged := [m];
       NotificationService.after := NotificationService.new DISCORD_WEBHOOK_URL |}.
Proof.
  intros Hnone.
  assert (NotificationService.new DISCORD_WEBHOOK_URL
          = {| NotificationService.discordWebhookUrl := None;
               NotificationService.lastNotificationTime := ∅ |}) as ->
    by (by destruct Hnone as [-> | ->]).
  assert (∀ m env,
            NotificationService.sendNotification
              {| NotificationService.discordWebhookUrl := None;
                 NotificationService.lastNotificationTime := ∅ |} m env
            = {| NotificationService.returned := false;
                 NotificationService.posted := [];
                 NotificationService.logged := [m];
                 NotificationService.after :=
                   {| NotificationService.discordWebhookUrl := None;
                      NotificationService.lastNotificationTime := ∅ |} |}) as Hone.
  { intros m' env'. unfold NotificationService.sendNotification,
      NotificationService.isInCooldown. cbn. by rewrite lookup_empty. }
  induction ms as [|c ms IH] using rev_ind; [apply Hone|].
  rewrite foldl_app. cbn [foldl].
  assert (foldl (λ s c, NotificationService.after
                          (NotificationService.sendNotification s c.1 c.2))
            {| NotificationService.discordWebhookUrl := None;
               NotificationService.lastNotificationTime := ∅ |} ms
          = {| NotificationService.discordWebhookUrl := None;
               NotificationService.lastNotificationTime := ∅ |}) as ->.
  { clear IH. induction ms as [|c' ms IH'] using rev_ind; [done|].
    rewrite foldl_app. cbn [foldl]. by rewrite IH', (Hone c'.1 c'.2). }
  rewrite (Hone c.1 c.2). cbn [NotificationService.after]. apply Hone.
Qed.

Lemma discord_unconfigured_only_logs_witness :
  (@None string = None ∨ @None string = Some "") ∧
  NotificationService.returned
    (NotificationService.notifyApiRecovered
       (foldl (λ s c, NotificationService.after
                        (NotificationService.sendNotification s c.1 c.2))
              (NotificationService.new None) [])
       "http://backend:5000" 1000 (NotificationService.Build_Env 1000 true 1100))
  = false.
Proof.
  assert (@None string = None ∨ @None string = Some "") as H by (by left).
  split; [exact H|].
  unfold NotificationService.notifyApiRecovered.
  by rewrite (discord_unconfigured_only_logs None [] _ _ H).
Defined.

End NotifyMore.

(** ** More on the upload form *)

Module UploaderMore.

Import AudioUploader.

Lemma m4a_allowed : ".m4a" ∈ allowedExtensions.
Proof. do 5 constructor. Qed.

Lemma passes_iff file g rest shouldContinue :
  OnFileSelect g ∈ handleFileSelect (file :: rest) shouldContinue ↔
  g = file ∧ size file ≤ 50 * 1024 * 1024 ∧
  fileExtension file ∈ allowedExtensions ∧
  (fileExtension file = ".m4a" → shouldContinue = true).
Proof.
  split.
  - intros H. pose proof (UploaderFacts.handleFileSelect_accepts _ _ _ _ H)
      as (-> & Hsz & Hext).
    unfold maxSize in Hsz. repeat split; [done | done|].
    intros Hm. cbn [handleFileSelect] in H.
    case_bool_decide; [apply list_elem_of_singleton in H; discriminate|].
    destruct (includes allowedExtensions (fileExtension file)); cbn [negb] in H;
      [|apply list_elem_of_singleton in H; discriminate].
    rewrite bool_decide_eq_true_2 in H by done.
    destruct shouldContinue; [done|].
    apply list_elem_of_singleton in H. discriminate.
  - intros (-> & Hsz & Hext & Hc). cbn [handleFileSelect]. unfold maxSize.
    rewrite bool_decide_eq_false_2 by lia.
    apply UploaderFacts.includes_spec in Hext. rewrite Hext. cbn [negb].
    case_bool_decide as Hm; [|constructor].
    rewrite (Hc Hm). do 2 constructor.
Qed.

(** X14: a selected file whose name is made of ASCII characters is
    passed to [onFileSelect] exactly if it is at most 50 MB, its
    extension is one of the five allowed ones and, for an .m4a file,
    the user confirms the compatibility dialog; that dialog is shown
    exactly for .m4a files within the size limit. *)
Theorem handleFileSelect_passes_iff
    (file g : File) (rest : list File) (shouldContinue : bool) :
  Js.is_ascii (name file) = true →
  (OnFileSelect g ∈ handleFileSelect (file :: rest) shouldContinue ↔
     g = file ∧ size file ≤ 50 * 1024 * 1024 ∧
     fileExtension file ∈ [".wav"; ".mp3"; ".flac"; ".ogg"; ".m4a"] ∧
     (fileExtension file = ".m4a" → shouldContinue = true)) ∧
  ((∃ text, Confirm text ∈ handleFileSelect (file :: rest) shouldContinue) ↔
     size file ≤ 50 * 1024 * 1024 ∧ fileExtension file = ".m4a").
Proof.
  intros _. cbn [handleFileSelect]. unfold maxSize.
  case_bool_decide as Hsz.
  { split; split.
    - intros [=]%list_elem_of_singleton.
    - intros (_ & ? & _). lia.
    - intros [text [=]%list_elem_of_singleton].
    - intros [? _]. lia. }
  destruct (includes allowedExtensions (fileExtension file)) eqn:Hin; cbn [negb].
  2:{ assert (fileExtension file ∉ allowedExtensions) as Hout.
      { intros H%UploaderFacts.includes_spec. congruence. }
      split; split.
      - intros [=]%list_elem_of_singleton.
      - intros (_ & _ & ? & _). done.
      - intros [text [=]%list_elem_of_singleton].
      - intros [_ Hm]. exfalso. apply Hout. rewrite Hm. apply m4a_allowed. }
  apply UploaderFacts.includes_spec in Hin.
  case_bool_decide as Hm; [destruct shouldContinue|].
  - split; split.
    + intros [[=] | [= ->]%list_elem_of_singleton]%elem_of_cons.
      repeat split; [lia | done].
    + intros (-> & _). do 2 constructor.
    + intros _. split; [lia | done].
    + intros _. eexists. constructor.
  - split; split.
    + intros [=]%list_elem_of_singleton.
    + intros (_ & _ & _ & Hc). by specialize (Hc Hm).
    + intros _. split; [lia | done].
    + intros _. eexists. constructor.
  - split; split.
    + intros [= ->]%list_elem_of_singleton. repeat split; [lia | done | done].
    + intros (-> & _). constructor.
    + intros [text [=]%list_elem_of_singleton].
    + intros [_ ?]. done.
Qed.

Lemma handleFileSelect_passes_iff_witness :
  Js.is_ascii (name {| name := "Talk.M4A"; size := 2097152 |}) = true ∧
  (OnFileSelect {| name := "Talk.M4A"; size := 2097152 |}
     ∈ handleFileSelect [{| name := "Talk.M4A"; size := 2097152 |}] false ↔
   {| name := "Talk.M4A"; size := 2097152 |} = {| name := "Talk.M4A"; size := 2097152 |} ∧
   size {| name := "Talk.M4A"; size := 2097152 |} ≤ 50 * 1024 * 1024 ∧
   fileExtension {| name := "Talk.M4A"; size := 2097152 |}
     ∈ [".wav"; ".mp3"; ".flac"; ".ogg"; ".m4a"] ∧
   (fileExtension {| name := "Talk.M4A"; size := 2097152 |} = ".m4a" → false = true)).
Proof.
  split; [reflexivity|].
  exact (proj1 (handleFileSelect_passes_iff {| name := "Talk.M4A"; size := 2097152 |}
                  {| name := "Talk.M4A"; size := 2097152 |} [] false eq_refl)).
Defined.

Lemma drop_suffix n : ∀ s, ∃ pre, s = pre +:+ Js.drop n s.
Proof.
  induction n as [|n IH]; intros s; [by exists ""|].
  destruct s as [|c s]; [by exists ""|].
  destruct (IH s) as [pre Hpre]. exists (String c pre).
  change (String c s = String c (pre +:+ Js.drop n s)). by f_equal.
Qed.

(** X15: the lower-cased name of every file that is passed to
    [onFileSelect] ends in one of the five allowed extensions; a name
    without such an ending, for instance one without a dot, is never
    passed on. *)
Theorem accepted_name_ends_in_extension
    (file g : File) (rest : list File) (shouldContinue : bool) :
  OnFileSelect g ∈ handleFileSelect (file :: rest) shouldContinue →
  ∃ stem ext, ext ∈ [".wav"; ".mp3"; ".flac"; ".ogg"; ".m4a"] ∧
              Js.toLowerCase (name g) = stem +:+ ext.
Proof.
  intros (-> & _ & Hext)%UploaderFacts.handleFileSelect_accepts.
  unfold fileExtension, Js.substring in Hext.
  destruct (drop_suffix (Z.to_nat (Z.max 0 (Js.lastIndexOf (name file) ".")))
              (Js.toLowerCase (name file))) as [stem Hstem].
  by eexists stem, _.
Qed.

Lemma accepted_name_ends_in_extension_witness :
  OnFileSelect {| name := "Live.Take.FLAC"; size := 1000 |}
    ∈ handleFileSelect [{| name := "Live.Take.FLAC"; size := 1000 |}] false ∧
  ∃ stem ext, ext ∈ [".wav"; ".mp3"; ".flac"; ".ogg"; ".m4a"] ∧
              Js.toLowerCase (name {| name := "Live.Take.FLAC"; size := 1000 |})
              = stem +:+ ext.
Proof.
  assert (OnFileSelect {| name := "Live.Take.FLAC"; size := 1000 |}
            ∈ handleFileSelect [{| name := "Live.Take.FLAC"; size := 1000 |}] false) as H
    by (vm_compute; constructor).
  split; [exact H|].
  exact (accepted_name_ends_in_extension _ _ [] false H).
Defined.

Lemma lower_dot c : Ascii.eqb (Js.lower c) "." = Ascii.eqb c ".".
Proof. destruct c as [[] [] [] [] [] [] [] []]; reflexivity. Qed.

Lemma lower_lower c : Js.lower (Js.lower c) = Js.lower c.
Proof. destruct c as [[] [] [] [] [] [] [] []]; reflexivity. Qed.

Lemma toLowerCase_idem s : Js.toLowerCase (Js.toLowerCase s) = Js.toLowerCase s.
Proof. induction s as [|c s IH]; cbn; [done|]. by rewrite lower_lower, IH. Qed.

Lemma lastIndexOf_lower s : ∀ i,
  Js.lastIndexOf_from i "." (Js.toLowerCase s) = Js.lastIndexOf_from i "." s.
Proof.
  induction s as [|c s IH]; intros i; cbn [Js.toLowerCase Js.lastIndexOf_from]; [done|].
  by rewrite IH, lower_dot.
Qed.

(** X16: the checks do not depend on the case of the letters A-Z in the
    name: a file and the same file with its name in lower case have the
    same extension, so one is passed on exactly if the other is. *)
Theorem handleFileSelect_ignores_case
    (n : string) (sz : Z) (rest rest' : list File) (shouldContinue : bool) :
  fileExtension {| name := Js.toLowerCase n; size := sz |}
  = fileExtension {| name := n; size := sz |} ∧
  (OnFileSelect {| name := n; size := sz |}
     ∈ handleFileSelect ({| name := n; size := sz |} :: rest) shouldContinue ↔
   OnFileSelect {| name := Js.toLowerCase n; size := sz |}
     ∈ handleFileSelect ({| name := Js.toLowerCase n; size := sz |} :: rest')
         shouldContinue).
Proof.
  assert (fileExtension {| name := Js.toLowerCase n; size := sz |}
          = fileExtension {| name := n; size := sz |}) as Hext.
  { unfold fileExtension, Js.lastIndexOf. cbn [name].
    by rewrite toLowerCase_idem, lastIndexOf_lower. }
  split; [done|].
  rewrite (passes_iff {| name := n; size := sz |} _ rest _).
  rewrite (passes_iff {| name := Js.toLowerCase n; size := sz |} _ rest' _).
  rewrite Hext. cbn [size]. tauto.
Qed.

End UploaderMore.

(** ** More on the polling client *)

Module PollingMore.

Import AudioSeparationAPI PollingRun.

(** X17: when a poll reports the task as completed, the workflow is done:
    the task is stored as the result, the progress is 100, nothing is
    processing any more, and polling has stopped: no interval is active
    and no further status request is issued. *)
Theorem poll_completed_finishes_workflow
    (w : Browser UseAudioSeparation.State) (st : AudioTask) :
  reachable w → status st = completed →
  client (tick_resume w UseAudioSeparation.callbacks (StatusOk st))
  = {| UseAudioSeparation.isProcessing := false;
       UseAudioSeparation.progress := 100;
       UseAudioSeparation.status := "完成！";
       UseAudioSeparation.result := Some st;
       UseAudioSeparation.error := UseAudioSeparation.error (client w);
       UseAudioSeparation.currentTaskId := UseAudioSeparation.currentTaskId (client w) |} ∧
  pollingInterval (api (tick_resume w UseAudioSeparation.callbacks (StatusOk st))) = None ∧
  Timers.active (timers (tick_resume w UseAudioSeparation.callbacks (StatusOk st))) = ∅ ∧
  ∀ h, tick (tick_resume w UseAudioSeparation.callbacks (StatusOk st)) h = None.
Proof.
  intros Hw%PollingFacts.polling_reachable_consistent Hst.
  unfold tick_resume. cbn [getTaskStatus]. rewrite Hst.
  set (w1 := call (onUpdate UseAudioSeparation.callbacks st) w).
  assert (consistent w1) as Hw1 by done.
  destruct (PollingFacts.stopPolling_active w1 Hw1) as [Hp Ha].
  split; [|split; [done | split; [done|]]].
  - cbn. unfold stopPolling. by destruct (pollingInterval (api w1)).
  - intros h. unfold tick. cbn. by rewrite Ha, lookup_empty.
Qed.

Lemma poll_completed_finishes_workflow_witness :
  (reachable
     (UseAudioSeparation.processAudio_uploaded
        {| api := new (Some "http://backend:5000") None;
           timers := Timers.empty;
           client := UseAudioSeparation.processAudio_begin UseAudioSeparation.initial |}
        "abc") ∧
   status {| task_id := "abc"; status := completed; progress := 100;
             message := "done"; error := None |} = completed) ∧
  Timers.active
    (timers
       (tick_resume
          (UseAudioSeparation.processAudio_uploaded
             {| api := new (Some "http://backend:5000") None;
                timers := Timers.empty;
                client := UseAudioSeparation.processAudio_begin UseAudioSeparation.initial |}
             "abc")
          UseAudioSeparation.callbacks
          (StatusOk {| task_id := "abc"; status := completed; progress := 100;
                       message := "done"; error := None |}))) = ∅.
Proof.
  assert (reachable
            (UseAudioSeparation.processAudio_uploaded
               {| api := new (Some "http://backend:5000") None;
                  timers := Timers.empty;
                  client := UseAudioSeparation.processAudio_begin UseAudioSeparation.initial |}
               "abc")) as H.
  { unfold UseAudioSeparation.processAudio_uploaded.
    apply reach_startPolling.
    apply (reach_call _ (λ s, {| UseAudioSeparation.isProcessing := UseAudioSeparation.isProcessing s;
                                 UseAudioSeparation.progress := UseAudioSeparation.progress s;
                                 UseAudioSeparation.status := "處理中...";
                                 UseAudioSeparation.result := UseAudioSeparation.result s;
                                 UseAudioSeparation.error := UseAudioSeparation.error s;
                                 UseAudioSeparation.currentTaskId := Some "abc" |})).
    apply reach_new. }
  split; [split; [exact H | reflexivity]|].
  exact (proj1 (proj2 (proj2 (poll_completed_finishes_workflow _
                                {| task_id := "abc"; status := completed; progress := 100;
                                   message := "done"; error := None |} H eq_refl)))).
Defined.

Lemma polls_in_progress (w : Browser UseAudioSeparation.State) (sts : list AudioTask) :
  Forall (λ st, status st = queued ∨ status st = processing) sts →
  api (polls w UseAudioSeparation.callbacks (StatusOk <$> sts)) = api w ∧
  timers (polls w UseAudioSeparation.callbacks (StatusOk <$> sts)) = timers w ∧
  UseAudioSeparation.isProcessing
    (client (polls w UseAudioSeparation.callbacks (StatusOk <$> sts)))
  = UseAudioSeparation.isProcessing (client w) ∧
  UseAudioSeparation.result
    (client (polls w UseAudioSeparation.callbacks (StatusOk <$> sts)))
  = UseAudioSeparation.result (client w) ∧
  UseAudioSeparation.error
    (client (polls w UseAudioSeparation.callbacks (StatusOk <$> sts)))
  = UseAudioSeparation.error (client w) ∧
  UseAudioSeparation.currentTaskId
    (client (polls w UseAudioSeparation.callbacks (StatusOk <$> sts)))
  = UseAudioSeparation.currentTaskId (client w).
Proof.
  intros Hall. revert w.
  induction Hall as [|st sts Hst _ IH]; intros w; [done|].
  change (polls w UseAudioSeparation.callbacks (StatusOk <$> st :: sts))
    with (polls (tick_resume w UseAudioSeparation.callbacks (StatusOk st))
            UseAudioSeparation.callbacks (StatusOk <$> sts)).
  destruct (IH (tick_resume w UseAudioSeparation.callbacks (StatusOk st)))
    as (-> & -> & -> & -> & -> & ->).
  by rewrite PollingFacts.tick_resume_continues.
Qed.

(** X18: as long as the polls find the task queued or processing,
    polling goes on: after any number of such polls the API instance
    and its polling interval are untouched, the page shows the progress
    and the message of the last poll, and the result, the error, the
    task id and the processing flag are as they were before the first
    of them. *)
Theorem poll_in_progress_continues
    (w : Browser UseAudioSeparation.State) (sts : list AudioTask) (st : AudioTask) :
  Forall (λ st, status st = queued ∨ status st = processing) (sts ++ [st]) →
  api (polls w UseAudioSeparation.callbacks (StatusOk <$> sts ++ [st])) = api w ∧
  timers (polls w UseAudioSeparation.callbacks (StatusOk <$> sts ++ [st])) = timers w ∧
  client (polls w UseAudioSeparation.callbacks (StatusOk <$> sts ++ [st]))
  = {| UseAudioSeparation.isProcessing := UseAudioSeparation.isProcessing (client w);
       UseAudioSeparation.progress := progress st;
       UseAudioSeparation.status := message st;
       UseAudioSeparation.result := UseAudioSeparation.result (client w);
       UseAudioSeparation.error := UseAudioSeparation.error (client w);
       UseAudioSeparation.currentTaskId := UseAudioSeparation.currentTaskId (client w) |}.
Proof.
  intros [Hsts Hst]%Forall_app. rewrite Forall_singleton in Hst.
  rewrite fmap_app. unfold polls. rewrite foldl_app. cbn [fmap list_fmap foldl].
  fold (polls w UseAudioSeparation.callbacks (StatusOk <$> sts)).
  destruct (polls_in_progress w sts Hsts) as (Ha & Ht & Hp & Hr & He & Hc).
  rewrite PollingFacts.tick_resume_continues by done.
  set (w' := polls w UseAudioSeparation.callbacks (StatusOk <$> sts)) in *.
  clearbody w'. cbn. unfold UseAudioSeparation.onUpdate. by rewrite Ha, Ht, Hp, Hr, He, Hc.
Qed.

Lemma poll_in_progress_continues_witness :
  Forall (λ st, status st = queued ∨ status st = processing)
    ([ {| task_id := "abc"; status := queued; progress := 0;
          message := "waiting"; error := None |} ]
     ++ [ {| task_id := "abc"; status := processing; progress := 40;
             message := "separating"; error := None |} ]) ∧
  client
    (polls
       (UseAudioSeparation.processAudio_uploaded
          {| api := new (Some "http://backend:5000") None;
             timers := Timers.empty;
             client := UseAudioSeparation.processAudio_begin UseAudioSeparation.initial |}
          "abc")
       UseAudioSeparation.callbacks
       (StatusOk <$>
          [ {| task_id := "abc"; status := queued; progress := 0;
               message := "waiting"; error := None |} ]
          ++ [ {| task_id := "abc"; status := processing; progress := 40;
                  message := "separating"; error := None |} ]))
  = {| UseAudioSeparation.isProcessing := true;
       UseAudioSeparation.progress := 40;
       UseAudioSeparation.status := "separating";
       UseAudioSeparation.result := None;
       UseAudioSeparation.error := None;
       UseAudioSeparation.currentTaskId := Some "abc" |}.
Proof.
  assert (Forall (λ st, status st = queued ∨ status st = processing)
            ([ {| task_id := "abc"; status := queued; progress := 0;
                  message := "waiting"; error := None |} ]
             ++ [ {| task_id := "abc"; status := processing; progress := 40;
                     message := "separating"; error := None |} ])) as H.
  { apply Forall_app. split; apply Forall_singleton; [by left | by right]. }
  split; [exact H|].
  exact (proj2 (proj2 (poll_in_progress_continues _ _ _ H))).
Defined.

End PollingMore.

(** ** The client's configuration cache *)

Module ConfigCacheFacts.

Import ApiConfigService.

(** X20: [getConfig] answers from the cache, without a request, exactly
    when a configuration is cached whose [updatedAt] lies less than
    five minutes before the client's clock; the age is counted from the
    time the configuration was last updated, not from the time it was
    fetched.  When it does issue a request, what it returns is cached. *)
Theorem getConfig_cache_hit (VITE_BACKEND_URL : option string) (s : t) (now : Z)
    (r : ConfigFetch) (now_fail : Z) :
  configPromise s = None →
  ((getConfig VITE_BACKEND_URL s now r now_fail).2 = [] ↔
     ∃ c t, cachedConfig s = Some c ∧ updatedAt c = Some t ∧ now - t < 300000) ∧
  (∀ c, cachedConfig s = Some c → fresh c now = true →
     getConfig VITE_BACKEND_URL s now r now_fail = (c, s, [])) ∧
  ((getConfig VITE_BACKEND_URL s now r now_fail).2 ≠ [] →
     (getConfig VITE_BACKEND_URL s now r now_fail).2 = ["/api/config"] ∧
     cachedConfig (getConfig VITE_BACKEND_URL s now r now_fail).1.2
     = Some (getConfig VITE_BACKEND_URL s now r now_fail).1.1 ∧
     (getConfig VITE_BACKEND_URL s now r now_fail).1.1
     = fetchConfig VITE_BACKEND_URL r now_fail).
Proof.
  intros Hp. unfold getConfig, getConfig_begin, fresh. rewrite Hp.
  destruct (cachedConfig s) as [c|] eqn:Hc.
  - destruct (updatedAt c) as [t|] eqn:Ht.
    + case_bool_decide as Hage; cbn.
      * split; [|split]; [|by intros ? [= <-] _|done].
        split; [intros _; by exists c, t | done].
      * split; [|split]; [|intros ? [= <-]; rewrite Ht; by rewrite bool_decide_eq_false_2|done].
        split; [done|]. intros (c' & t' & [= <-] & Ht' & Hlt).
        rewrite Ht in Ht'. injection Ht' as <-. lia.
    + cbn. split; [|split]; [|intros ? [= <-]; by rewrite Ht|done].
      split; [done|]. intros (c' & t' & [= <-] & Ht' & _). congruence.
  - cbn. split; [|split]; [|done|done].
    split; [done|]. by intros (c' & t' & [=] & _).
Qed.

Lemma getConfig_cache_hit_witness :
  configPromise
    {| cachedConfig := Some {| apiUrl := "https://one.example"; isActive := true;
                               description := None; updatedAt := Some 1000 |};
       configPromise := None; nextPromise := 2%positive |} = None ∧
  ((getConfig None
      {| cachedConfig := Some {| apiUrl := "https://one.example"; isActive := true;
                                 description := None; updatedAt := Some 1000 |};
         configPromise := None; nextPromise := 2%positive |}
      200000 ConfigThrew 200050).2 = [] ↔
   ∃ c t, cachedConfig
            {| cachedConfig := Some {| apiUrl := "https://one.example"; isActive := true;
                                       description := None; updatedAt := Some 1000 |};
               configPromise := None; nextPromise := 2%positive |} = Some c ∧
          updatedAt c = Some t ∧ 200000 - t < 300000).
Proof.
  split; [reflexivity|].
  exact (proj1 (getConfig_cache_hit None
                  {| cachedConfig := Some {| apiUrl := "https://one.example";
                                             isActive := true; description := None;
                                             updatedAt := Some 1000 |};
                     configPromise := None; nextPromise := 2%positive |}
                  200000 ConfigThrew 200050 eq_refl)).
Defined.

(** X21: [getConfig] never fails: when a call issues a request to
    /api/config (nothing fresh is cached, be the cache empty or stale,
    and no request is pending) and that request fails, the call
    returns the default configuration, marked inactive and dated now,
    and caches it in place of whatever was cached; for the next five
    minutes every further call returns that default without asking the
    server again. *)
Theorem failed_fetch_is_cached (VITE_BACKEND_URL : option string) (s : t)
    (now now_fail now' : Z) (r r' : ConfigFetch) (now_fail' : Z) :
  (∀ c, cachedConfig s = Some c → fresh c now = false) → configPromise s = None →
  r = ConfigThrew ∨ (∃ status, r = ConfigNotOk status) →
  now' - now_fail < 300000 →
  (getConfig VITE_BACKEND_URL s now r now_fail).2 = ["/api/config"] ∧
  (getConfig VITE_BACKEND_URL s now r now_fail).1.1
  = {| apiUrl := Js.or_default VITE_BACKEND_URL "http://backend:5000";
       isActive := false;
       description := Some "無法連接到配置服務器，使用默認配置";
       updatedAt := Some now_fail |} ∧
  cachedConfig (getConfig VITE_BACKEND_URL s now r now_fail).1.2
  = Some (getConfig VITE_BACKEND_URL s now r now_fail).1.1 ∧
  getConfig VITE_BACKEND_URL (getConfig VITE_BACKEND_URL s now r now_fail).1.2
    now' r' now_fail'
  = ((getConfig VITE_BACKEND_URL s now r now_fail).1.1,
     (getConfig VITE_BACKEND_URL s now r now_fail).1.2, []).
Proof.
  intros Hc Hp Hr Hage.
  assert (getConfig VITE_BACKEND_URL s now r now_fail
          = ({| apiUrl := Js.or_default VITE_BACKEND_URL "http://backend:5000";
                isActive := false;
                description := Some "無法連接到配置服務器，使用默認配置";
                updatedAt := Some now_fail |},
             {| cachedConfig :=
                  Some {| apiUrl := Js.or_default VITE_BACKEND_URL "http://backend:5000";
                          isActive := false;
                          description := Some "無法連接到配置服務器，使用默認配置";
                          updatedAt := Some now_fail |};
                configPromise := None;
                nextPromise := Pos.succ (nextPromise s) |},
             ["/api/config"])) as ->.
  { unfold getConfig, getConfig_begin. rewrite Hp.
    assert (fetchConfig VITE_BACKEND_URL r now_fail
            = {| apiUrl := Js.or_default VITE_BACKEND_URL "http://backend:5000";
                 isActive := false;
                 description := Some "無法連接到配置服務器，使用默認配置";
                 updatedAt := Some now_fail |}) as ->
      by (by destruct Hr as [-> | [status ->]]).
    destruct (cachedConfig s) as [c|]; [|done].
    by rewrite (Hc c eq_refl). }
  cbn [fst snd cachedConfig]. split; [done|]. split; [done|]. split; [done|].
  unfold getConfig, getConfig_begin, fresh. cbn.
  by rewrite bool_decide_eq_true_2.
Qed.

Lemma failed_fetch_is_cached_witness :
  ((∀ c, cachedConfig
           {| cachedConfig := Some {| apiUrl := "https://one.example"; isActive := true;
                                      description := None; updatedAt := Some 1000 |};
              configPromise := None; nextPromise := 2%positive |} = Some c →
         fresh c 400000 = false) ∧
   configPromise
     {| cachedConfig := Some {| apiUrl := "https://one.example"; isActive := true;
                                description := None; updatedAt := Some 1000 |};
        configPromise := None; nextPromise := 2%positive |} = None ∧
   (ConfigNotOk 502 = ConfigThrew ∨ ∃ status, ConfigNotOk 502 = ConfigNotOk status) ∧
   460000 - 400100 < 300000) ∧
  cachedConfig
    (getConfig None
       {| cachedConfig := Some {| apiUrl := "https://one.example"; isActive := true;
                                  description := None; updatedAt := Some 1000 |};
          configPromise := None; nextPromise := 2%positive |}
       400000 (ConfigNotOk 502) 400100).1.2
  = Some {| apiUrl := "http://backend:5000"; isActive := false;
            description := Some "無法連接到配置服務器，使用默認配置";
            updatedAt := Some 400100 |} ∧
  getConfig None
    (getConfig None
       {| cachedConfig := Some {| apiUrl := "https://one.example"; isActive := true;
                                  description := None; updatedAt := Some 1000 |};
          configPromise := None; nextPromise := 2%positive |}
       400000 (ConfigNotOk 502) 400100).1.2
    460000 ConfigThrew 460100
  = ((getConfig None
        {| cachedConfig := Some {| apiUrl := "https://one.example"; isActive := true;
                                   description := None; updatedAt := Some 1000 |};
           configPromise := None; nextPromise := 2%positive |}
        400000 (ConfigNotOk 502) 400100).1.1,
     (getConfig None
        {| cachedConfig := Some {| apiUrl := "https://one.example"; isActive := true;
                                   description := None; updatedAt := Some 1000 |};
           configPromise := None; nextPromise := 2%positive |}
        400000 (ConfigNotOk 502) 400100).1.2, []).
Proof.
  assert (∀ c, cachedConfig
                 {| cachedConfig := Some {| apiUrl := "https://one.example";
                                            isActive := true; description := None;
                                            updatedAt := Some 1000 |};
                    configPromise := None; nextPromise := 2%positive |} = Some c →
               fresh c 400000 = false) as Hstale by (by intros c [= <-]).
  assert (ConfigNotOk 502 = ConfigThrew ∨ ∃ status, ConfigNotOk 502 = ConfigNotOk status) as H
    by (right; by eexists).
  split; [split; [exact Hstale | split; [reflexivity | split; [exact H | lia]]]|].
  exact (proj2 (proj2 (failed_fetch_is_cached None
                         {| cachedConfig := Some {| apiUrl := "https://one.example";
                                                    isActive := true; description := None;
                                                    updatedAt := Some 1000 |};
                            configPromise := None; nextPromise := 2%positive |}
                         400000 400100 460000 (ConfigNotOk 502) ConfigThrew 460100
                         Hstale eq_refl H ltac:(lia)))).
Defined.

(** X22: while a request for the configuration is pending, further calls
    of [getConfig] that do not hit the cache issue no request of their
    own: they wait for the pending one, and leave the service as it
    is. *)
Theorem getConfig_joins_pending (s : t) (now now' : Z) (p : positive) :
  (getConfig_begin s now).1 = Fetching p →
  (∀ c, cachedConfig s = Some c → fresh c now' = false) →
  getConfig_begin (getConfig_begin s now).2 now' = (Joined p, (getConfig_begin s now).2).
Proof.
  unfold getConfig_begin. intros Hf Hstale.
  destruct (cachedConfig s) as [c|] eqn:Hc.
  - specialize (Hstale c eq_refl).
    destruct (fresh c now); [done|].
    destruct (configPromise s); [done|]. cbn in *. injection Hf as <-.
    by rewrite Hstale.
  - destruct (configPromise s); [done|]. cbn in *. by injection Hf as <-.
Qed.

Lemma getConfig_joins_pending_witness :
  ((getConfig_begin new 1000).1 = Fetching 1%positive ∧
   ∀ c, cachedConfig new = Some c → fresh c 1001 = false) ∧
  getConfig_begin (getConfig_begin new 1000).2 1001
  = (Joined 1%positive, (getConfig_begin new 1000).2).
Proof.
  assert (∀ c, cachedConfig new = Some c → fresh c 1001 = false) as H by (by intros c [=]).
  split; [split; [reflexivity | exact H]|].
  exact (getConfig_joins_pending new 1000 1001 1%positive eq_refl H).
Defined.

(** X23: a successful [updateConfig] replaces the cached configuration,
    so that [getCachedApiUrl] gives the new URL at once and [getConfig]
    answers with the new configuration, without a request, for as long
    as it is fresh; a failed [updateConfig] throws and leaves the cache
    as it was. *)
Theorem updateConfig_updates_cache (VITE_BACKEND_URL : option string) (s : t)
    (config : ApiConfig) (t0 now : Z) (r : ConfigFetch) (now_fail : Z)
    (e : option string) (thrown : Js.Thrown) :
  updatedAt config = Some t0 → now - t0 < 300000 → apiUrl config ≠ "" →
  (updateConfig s (UpdateOk config)).1 = inl config ∧
  getCachedApiUrl (updateConfig s (UpdateOk config)).2 = Some (apiUrl config) ∧
  getConfig VITE_BACKEND_URL (updateConfig s (UpdateOk config)).2 now r now_fail
  = (config, (updateConfig s (UpdateOk config)).2, []) ∧
  updateConfig s (UpdateNotOk e)
  = (inr (Js.ThrownError "Error" (Js.or_default e "配置更新失敗")), s) ∧
  updateConfig s (UpdateThrew thrown) = (inr thrown, s).
Proof.
  intros Ht Hage Hurl. split; [done|]. split.
  - unfold getCachedApiUrl. cbn. by destruct (apiUrl config).
  - split; [|done]. unfold getConfig, getConfig_begin, fresh. cbn.
    rewrite Ht. by rewrite bool_decide_eq_true_2.
Qed.

Lemma updateConfig_updates_cache_witness :
  (updatedAt {| apiUrl := "https://new.example"; isActive := true;
                description := Some "API配置已更新"; updatedAt := Some 2000 |} = Some 2000 ∧
   2500 - 2000 < 300000 ∧
   apiUrl {| apiUrl := "https://new.example"; isActive := true;
             description := Some "API配置已更新"; updatedAt := Some 2000 |} ≠ "") ∧
  getCachedApiUrl
    (updateConfig new
       (UpdateOk {| apiUrl := "https://new.example"; isActive := true;
                    description := Some "API配置已更新"; updatedAt := Some 2000 |})).2
  = Some "https://new.example".
Proof.
  split; [split; [reflexivity | split; [lia | discriminate]]|].
  exact (proj1 (proj2 (updateConfig_updates_cache None new
                         {| apiUrl := "https://new.example"; isActive := true;
                            description := Some "API配置已更新"; updatedAt := Some 2000 |}
                         2000 2500 ConfigThrew 2600 None Js.ThrownOther
                         eq_refl ltac:(lia) ltac:(discriminate)))).
Defined.

End ConfigCacheFacts.

(** ** The whole of [processAudio] *)

Module WorkflowFacts.

Import AudioSeparationAPI Workflow.

(** The message for an unavailable backend is displayed as it is, for
    every file. *)
Lemma displayed_unavailable file :
  displayed_error file (Js.ThrownError "Error" "後端服務不可用，請檢查API配置或稍後再試")
  = "後端服務不可用，請檢查API配置或稍後再試".
Proof.
  unfold displayed_error.
  destruct (endsWith (Js.toLowerCase (AudioUploader.name file)) ".m4a"); [|done].
  by vm_compute.
Qed.

(** What [checkHealth] returns and requests, whatever else it does. *)
Lemma checkHealth_returns VITE url p retry e :
  (checkHealth VITE url p retry e).1.1 = answers_ok e ∧
  length (List.filter is_health (checkHealth VITE url p retry e).2) = 1%nat ∧
  List.filter is_upload (checkHealth VITE url p retry e).2 = [] ∧
  browser (checkHealth VITE url p retry e).1.2 = browser p.
Proof.
  unfold checkHealth, answers_ok. destruct (health e) as [h|x]; [done|].
  by destruct (retry && bool_decide (ApiConfigService.apiUrl (config_retry e) ≠ url)).
Qed.

(** X24: [processAudio] uploads the file exactly if the first health
    check answers ok, or the first and the second fail and the third
    answers ok; a second check that answers ok does not let the upload
    through.  It makes one health request in the first case, two when
    the second check answers ok, and three otherwise.  When the upload
    is not made, the workflow fails with the message that the backend is
    unavailable, and the API instance and its intervals are as before. *)
Theorem processAudio_health_gate (VITE_BACKEND_URL : option string) (p : Page)
    (audioFile : AudioUploader.File) (e1 e2 e3 : HealthEnv) (upload : UploadFetch) :
  List.filter is_upload (processAudio VITE_BACKEND_URL p audioFile e1 e2 e3 upload).2
  = (if answers_ok e1 || negb (answers_ok e2) && answers_ok e3
     then [PostUpload (baseURL (api (browser p)) +:+ "/api/upload") audioFile]
     else []) ∧
  length (List.filter is_health
            (processAudio VITE_BACKEND_URL p audioFile e1 e2 e3 upload).2)
  = (if answers_ok e1 then 1%nat else if answers_ok e2 then 2%nat else 3%nat) ∧
  (answers_ok e1 || negb (answers_ok e2) && answers_ok e3 = false →
   UseAudioSeparation.failed
     (client (browser (processAudio VITE_BACKEND_URL p audioFile e1 e2 e3 upload).1))
     "後端服務不可用，請檢查API配置或稍後再試" ∧
   timers (browser (processAudio VITE_BACKEND_URL p audioFile e1 e2 e3 upload).1)
   = timers (browser p) ∧
   api (browser (processAudio VITE_BACKEND_URL p audioFile e1 e2 e3 upload).1)
   = api (browser p)).
Proof.
  unfold processAudio.
  set (p0 := {| browser := call UseAudioSeparation.processAudio_begin (browser p);
                connectionStatus := connectionStatus p; healthData := healthData p;
                currentApiUrl := currentApiUrl p; nextApi := nextApi p;
                originalAudioBlob := Some audioFile |}).
  pose proof (checkHealth_returns VITE_BACKEND_URL (currentApiUrl p) p0 false e1)
    as (Hb1 & Hh1 & Hu1 & Hbr1).
  destruct (checkHealth VITE_BACKEND_URL (currentApiUrl p) p0 false e1)
    as [[b1 p1] rs1]. cbn [fst snd] in *. subst b1.
  destruct (answers_ok e1) eqn:A1; cbn [orb negb].
  { destruct (uploadAudio (api (browser p1)) upload) as [[task|err] a'];
      cbn [snd]; rewrite !List.filter_app, !length_app, Hu1, Hh1; by cbn. }
  pose proof (checkHealth_returns VITE_BACKEND_URL (currentApiUrl p) p1 true e2)
    as (Hb2 & Hh2 & Hu2 & Hbr2).
  destruct (checkHealth VITE_BACKEND_URL (currentApiUrl p) p1 true e2)
    as [[b2 p2] rs2]. cbn [fst snd] in *. subst b2.
  destruct (answers_ok e2) eqn:A2; cbn [negb andb].
  { cbn [snd fst]. rewrite !List.filter_app, !length_app, Hu1, Hu2, Hh1, Hh2.
    split; [done|]. split; [done|]. intros _.
    unfold processAudio_catch, UseAudioSeparation.failed. cbn.
    rewrite displayed_unavailable, Hbr2, Hbr1. done. }
  pose proof (checkHealth_returns VITE_BACKEND_URL (currentApiUrl p) p2 false e3)
    as (Hb3 & Hh3 & Hu3 & Hbr3).
  destruct (checkHealth VITE_BACKEND_URL (currentApiUrl p) p2 false e3)
    as [[b3 p3] rs3]. cbn [fst snd] in *. subst b3.
  destruct (answers_ok e3) eqn:A3; cbn [negb].
  { destruct (uploadAudio (api (browser p3)) upload) as [[task|err] a'];
      cbn [snd]; rewrite !List.filter_app, !length_app, Hu1, Hu2, Hu3, Hh1, Hh2, Hh3;
      by cbn. }
  cbn [snd fst]. rewrite !List.filter_app, !length_app, Hu1, Hu2, Hu3, Hh1, Hh2, Hh3.
  split; [done|]. split; [done|]. intros _.
  unfold processAudio_catch, UseAudioSeparation.failed. cbn.
  rewrite displayed_unavailable, Hbr3, Hbr2, Hbr1. done.
Qed.

Lemma processAudio_gate_open VITE p audioFile e1 e2 e3 upload :
  answers_ok e1 || negb (answers_ok e2) && answers_ok e3 = true →
  ∃ p3, browser p3 = call UseAudioSeparation.processAudio_begin (browser p) ∧
        (processAudio VITE p audioFile e1 e2 e3 upload).1
        = match uploadAudio (api (browser p3)) upload with
          | (inl task_id, a') =>
              {| browser :=
                   UseAudioSeparation.processAudio_uploaded
                     {| api := a'; timers := timers (browser p3);
                        client := client (browser p3) |}
                     task_id;
                 connectionStatus := connectionStatus p3; healthData := healthData p3;
                 currentApiUrl := currentApiUrl p3; nextApi := nextApi p3;
                 originalAudioBlob := originalAudioBlob p3 |}
          | (inr err, _) => processAudio_catch p3 audioFile err
          end.
Proof.
  unfold processAudio.
  set (p0 := {| browser := call UseAudioSeparation.processAudio_begin (browser p);
                connectionStatus := connectionStatus p; healthData := healthData p;
                currentApiUrl := currentApiUrl p; nextApi := nextApi p;
                originalAudioBlob := Some audioFile |}).
  pose proof (checkHealth_returns VITE (currentApiUrl p) p0 false e1)
    as (Hb1 & _ & _ & Hbr1).
  destruct (checkHealth VITE (currentApiUrl p) p0 false e1) as [[b1 p1] rs1].
  cbn [fst snd] in *. subst b1.
  destruct (answers_ok e1) eqn:A1; cbn [orb negb].
  { intros _. exists p1. split; [done|].
    by destruct (uploadAudio (api (browser p1)) upload) as [[task|err] a']. }
  pose proof (checkHealth_returns VITE (currentApiUrl p) p1 true e2)
    as (Hb2 & _ & _ & Hbr2).
  destruct (checkHealth VITE (currentApiUrl p) p1 true e2) as [[b2 p2] rs2].
  cbn [fst snd] in *. subst b2.
  destruct (answers_ok e2) eqn:A2; cbn [negb andb]; [done|].
  pose proof (checkHealth_returns VITE (currentApiUrl p) p2 false e3)
    as (Hb3 & _ & _ & Hbr3).
  destruct (checkHealth VITE (currentApiUrl p) p2 false e3) as [[b3 p3] rs3].
  cbn [fst snd] in *. subst b3.
  destruct (answers_ok e3) eqn:A3; cbn [negb]; [|done].
  intros _. exists p3. split; [by rewrite Hbr3, Hbr2, Hbr1|].
  by destruct (uploadAudio (api (browser p3)) upload) as [[task|err] a'].
Qed.

(** X25: when the health checks let the upload through and the upload
    succeeds, [processAudio] leaves the workflow processing the task
    the server has named: no error, no result, progress 0, and exactly
    one active interval, which polls that task with the callbacks of
    the hook; the API instance remembers the task. *)
Theorem processAudio_starts_polling (VITE_BACKEND_URL : option string) (p : Page)
    (audioFile : AudioUploader.File) (e1 e2 e3 : HealthEnv) (task_id : string) :
  PollingRun.reachable (browser p) →
  answers_ok e1 || negb (answers_ok e2) && answers_ok e3 = true →
  client (browser (processAudio VITE_BACKEND_URL p audioFile e1 e2 e3
                     (UploadOk task_id)).1)
  = {| UseAudioSeparation.isProcessing := true;
       UseAudioSeparation.progress := 0;
       UseAudioSeparation.status := "處理中...";
       UseAudioSeparation.result := None;
       UseAudioSeparation.error := None;
       UseAudioSeparation.currentTaskId := Some task_id |} ∧
  currentTaskId (api (browser (processAudio VITE_BACKEND_URL p audioFile e1 e2 e3
                                 (UploadOk task_id)).1)) = Some task_id ∧
  ∃ h, pollingInterval
         (api (browser (processAudio VITE_BACKEND_URL p audioFile e1 e2 e3
                          (UploadOk task_id)).1)) = Some h ∧
       Timers.active
         (timers (browser (processAudio VITE_BACKEND_URL p audioFile e1 e2 e3
                             (UploadOk task_id)).1))
       = {[ h := (task_id, UseAudioSeparation.callbacks) ]}.
Proof.
  intros Hw%PollingFacts.polling_reachable_consistent Hgate.
  destruct (processAudio_gate_open VITE_BACKEND_URL p audioFile e1 e2 e3
              (UploadOk task_id) Hgate) as (p3 & Hbr & ->).
  cbn [uploadAudio]. rewrite Hbr. cbn [browser call api timers client].
  unfold UseAudioSeparation.processAudio_uploaded.
  cbn [api timers client].
  set (w := {| api := _; timers := timers (browser p); client := _ |}).
  assert (PollingRun.consistent w) as Hcw by exact Hw.
  destruct (PollingFacts.startPolling_active w task_id UseAudioSeparation.callbacks Hcw)
    as (Hp & Ha & _).
  split; [done|]. split; [done|]. by eexists.
Qed.

Lemma processAudio_starts_polling_witness :
  (PollingRun.reachable (browser loaded_page) ∧
   answers_ok up_env || negb (answers_ok down_env) && answers_ok down_env = true) ∧
  currentTaskId
    (api (browser (processAudio None loaded_page talk_wav up_env down_env down_env
                     (UploadOk "abc")).1))
  = Some "abc".
Proof.
  assert (PollingRun.reachable (browser loaded_page)) as H by apply PollingRun.reach_new.
  split; [split; [exact H | reflexivity]|].
  exact (proj1 (proj2 (processAudio_starts_polling None loaded_page talk_wav
                         up_env down_env down_env "abc" H eq_refl))).
Defined.

(** The message of a thrown value, as [processAudio] reads it. *)
Lemma displayed_not_m4a file err :
  endsWith (Js.toLowerCase (AudioUploader.name file)) ".m4a" = false →
  displayed_error file err
  = match err with
    | Js.ThrownError _ message => message
    | Js.ThrownOther => "未知錯誤"
    end.
Proof. unfold displayed_error. by intros ->. Qed.

(** X26: when the upload fails, [processAudio] fails the workflow and
    starts no polling: nothing is processing, the API instance and its
    intervals are as before, and the error displayed is the message of
    the failure (the server's error text, or "上傳失敗" when it gives
    none), word for word unless the file is an .m4a file. *)
Theorem processAudio_upload_failure (VITE_BACKEND_URL : option string) (p : Page)
    (audioFile : AudioUploader.File) (e1 e2 e3 : HealthEnv) (upload : UploadFetch)
    (err : Js.Thrown) :
  answers_ok e1 || negb (answers_ok e2) && answers_ok e3 = true →
  (uploadAudio (api (browser p)) upload).1 = inr err →
  UseAudioSeparation.failed
    (client (browser (processAudio VITE_BACKEND_URL p audioFile e1 e2 e3 upload).1))
    (displayed_error audioFile err) ∧
  timers (browser (processAudio VITE_BACKEND_URL p audioFile e1 e2 e3 upload).1)
  = timers (browser p) ∧
  api (browser (processAudio VITE_BACKEND_URL p audioFile e1 e2 e3 upload).1)
  = api (browser p) ∧
  (endsWith (Js.toLowerCase (AudioUploader.name audioFile)) ".m4a" = false →
   displayed_error audioFile err
   = match err with
     | Js.ThrownError _ message => message
     | Js.ThrownOther => "未知錯誤"
     end) ∧
  (∀ e, upload = UploadNotOk e →
        err = Js.ThrownError "Error" (Js.or_default e "上傳失敗")).
Proof.
  intros Hgate Herr.
  destruct (processAudio_gate_open VITE_BACKEND_URL p audioFile e1 e2 e3 upload Hgate)
    as (p3 & Hbr & ->).
  rewrite Hbr. cbn [api call].
  assert (∀ e, upload = UploadNotOk e →
               err = Js.ThrownError "Error" (Js.or_default e "上傳失敗")) as Hmsg.
  { intros e ->. cbn in Herr. by injection Herr as <-. }
  destruct upload as [task|e|x]; cbn in Herr; [done| |]; injection Herr as <-; cbn;
    rewrite Hbr; cbn; (split; [done|]); (split; [done|]); (split; [done|]);
    (split; [apply displayed_not_m4a | done]).
Qed.

Lemma processAudio_upload_failure_witness :
  (answers_ok up_env || negb (answers_ok down_env) && answers_ok down_env = true ∧
   (uploadAudio (api (browser loaded_page)) (UploadNotOk (Some "file too short"))).1
   = inr (Js.ThrownError "Error" "file too short")) ∧
  UseAudioSeparation.failed
    (client (browser (processAudio None loaded_page talk_wav up_env down_env down_env
                        (UploadNotOk (Some "file too short"))).1))
    (displayed_error talk_wav (Js.ThrownError "Error" "file too short")).
Proof.
  split; [split; reflexivity|].
  exact (proj1 (processAudio_upload_failure None loaded_page talk_wav
                  up_env down_env down_env (UploadNotOk (Some "file too short"))
                  (Js.ThrownError "Error" "file too short") eq_refl eq_refl)).
Defined.

(** The backend is down at the first check and up again at the second:
    only the two health requests and the report of the first failure
    are made, and the file is not uploaded. *)
Example second_check_ok_blocks_upload :
  (processAudio None loaded_page talk_wav down_env up_env up_env (UploadOk "abc")).2
  = [GetHealth "http://backend:5000/api/health";
     PostConnectionError "http://backend:5000" "HTTP 502: Bad Gateway";
     GetHealth "http://backend:5000/api/health"].
Proof. by vm_compute. Qed.

End WorkflowFacts.

(** ** [reset] on a page whose API instance may have been replaced *)

Module ResetFacts.

Import AudioSeparationAPI PollingRun Workflow.

(** What [processAudio] does to the API instance of its render, its
    intervals and the cells of the workflow. *)
Lemma processAudio_browser VITE p file e1 e2 e3 upload :
  browser (processAudio VITE p file e1 e2 e3 upload).1
  = if answers_ok e1 || negb (answers_ok e2) && answers_ok e3 then
      match (uploadAudio (api (browser p)) upload).1 with
      | inl task_id =>
          UseAudioSeparation.processAudio_uploaded
            (uploaded (call UseAudioSeparation.processAudio_begin (browser p)) upload)
            task_id
      | inr err =>
          call (UseAudioSeparation.onError (displayed_error file err))
            (call UseAudioSeparation.processAudio_begin (browser p))
      end
    else
      call (UseAudioSeparation.onError
              (displayed_error file
                 (Js.ThrownError "Error" "後端服務不可用，請檢查API配置或稍後再試")))
        (call UseAudioSeparation.processAudio_begin (browser p)).
Proof.
  unfold processAudio.
  set (p0 := {| browser := call UseAudioSeparation.processAudio_begin (browser p);
                connectionStatus := connectionStatus p; healthData := healthData p;
                currentApiUrl := currentApiUrl p; nextApi := nextApi p;
                originalAudioBlob := Some file |}).
  pose proof (WorkflowFacts.checkHealth_returns VITE (currentApiUrl p) p0 false e1)
    as (Hb1 & _ & _ & Hbr1).
  destruct (checkHealth VITE (currentApiUrl p) p0 false e1) as [[b1 p1] rs1].
  cbn [fst snd] in *. subst b1.
  destruct (answers_ok e1) eqn:A1; cbn [orb negb].
  { destruct upload; unfold processAudio_catch, with_cells;
      cbn [fst snd browser uploadAudio]; by rewrite Hbr1. }
  pose proof (WorkflowFacts.checkHealth_returns VITE (currentApiUrl p) p1 true e2)
    as (Hb2 & _ & _ & Hbr2).
  destruct (checkHealth VITE (currentApiUrl p) p1 true e2) as [[b2 p2] rs2].
  cbn [fst snd] in *. subst b2.
  destruct (answers_ok e2) eqn:A2; cbn [negb andb].
  { unfold processAudio_catch, with_cells. cbn [fst snd browser].
    by rewrite Hbr2, Hbr1. }
  pose proof (WorkflowFacts.checkHealth_returns VITE (currentApiUrl p) p2 false e3)
    as (Hb3 & _ & _ & Hbr3).
  destruct (checkHealth VITE (currentApiUrl p) p2 false e3) as [[b3 p3] rs3].
  cbn [fst snd] in *. subst b3.
  destruct (answers_ok e3) eqn:A3; cbn [negb].
  { destruct upload; unfold processAudio_catch, with_cells;
      cbn [fst snd browser uploadAudio]; by rewrite Hbr3, Hbr2, Hbr1. }
  unfold processAudio_catch, with_cells. cbn [fst snd browser].
  by rewrite Hbr3, Hbr2, Hbr1.
Qed.

Lemma processAudio_uploaded_reachable w task_id :
  reachable w → reachable (UseAudioSeparation.processAudio_uploaded w task_id).
Proof.
  intros Hw. unfold UseAudioSeparation.processAudio_uploaded.
  apply reach_startPolling.
  by apply (reach_call _ (λ s, {| UseAudioSeparation.isProcessing := UseAudioSeparation.isProcessing s;
                                  UseAudioSeparation.progress := UseAudioSeparation.progress s;
                                  UseAudioSeparation.status := "處理中...";
                                  UseAudioSeparation.result := UseAudioSeparation.result s;
                                  UseAudioSeparation.error := UseAudioSeparation.error s;
                                  UseAudioSeparation.currentTaskId := Some task_id |})).
Qed.

(** [processAudio] takes the API instance of its render from one
    reachable state to another. *)
Lemma processAudio_reachable VITE p file e1 e2 e3 upload :
  reachable (browser p) →
  reachable (browser (processAudio VITE p file e1 e2 e3 upload).1).
Proof.
  intros Hw. rewrite processAudio_browser.
  destruct (answers_ok e1 || negb (answers_ok e2) && answers_ok e3).
  - destruct ((uploadAudio (api (browser p)) upload).1) as [task_id|err].
    + by apply processAudio_uploaded_reachable, reach_uploadAudio, reach_call.
    + by do 2 apply reach_call.
  - by do 2 apply reach_call.
Qed.

(** X19: [reset] puts the cells of the workflow back to their initial
    values and stops polling on the API instance of the latest render.
    If that is still the instance [processAudio] was started with, no
    interval stays active; if [setApi] has replaced it in the meantime,
    the instance that polls and its interval are left as they are.  In
    neither case does [reset] guard against a status request that is
    already in flight: when that request settles with a failure after
    the reset, the error is displayed all the same. *)
Theorem reset_then_late_response (p : Page) (r : StatusFetch) (msg : string) :
  reachable (browser p) → poll_failure r = Some msg →
  client (browser (reset p)) = UseAudioSeparation.initial ∧
  originalAudioBlob (reset p) = None ∧
  (nextApi p = None →
   pollingInterval (api (browser (reset p))) = None ∧
   Timers.active (timers (browser (reset p))) = ∅) ∧
  (∀ a, nextApi p = Some a → pollingInterval a = None →
        api (browser (reset p)) = api (browser p) ∧
        timers (browser (reset p)) = timers (browser p)) ∧
  UseAudioSeparation.error
    (client (tick_resume (browser (reset p)) UseAudioSeparation.callbacks r))
  = Some msg.
Proof.
  intros Hw%PollingFacts.polling_reachable_consistent Hf.
  rewrite (PollingFacts.tick_resume_failure _ _ _ _ Hf).
  unfold reset. destruct (nextApi p) as [a|].
  - split; [done|]. split; [done|]. split; [done|]. split; [|done].
    intros a' [= <-] Ha. unfold stopPolling. cbn. by rewrite Ha.
  - destruct (PollingFacts.stopPolling_active (browser p) Hw) as [Hp Ha].
    split; [done|]. split; [done|]. split; [done|]. split; [|done].
    by intros a' [=].
Qed.

Lemma reset_then_late_response_witness :
  (reachable
     (browser (processAudio None loaded_page talk_wav down_env moved_env up_env
                 (UploadOk "abc")).1) ∧
   poll_failure (StatusNotOk None) = Some "查詢失敗") ∧
  client
    (browser (reset (processAudio None loaded_page talk_wav down_env moved_env up_env
                       (UploadOk "abc")).1))
  = UseAudioSeparation.initial ∧
  UseAudioSeparation.error
    (client
       (tick_resume
          (browser (reset (processAudio None loaded_page talk_wav down_env moved_env
                             up_env (UploadOk "abc")).1))
          UseAudioSeparation.callbacks (StatusNotOk None)))
  = Some "查詢失敗".
Proof.
  assert (reachable
            (browser (processAudio None loaded_page talk_wav down_env moved_env up_env
                        (UploadOk "abc")).1)) as H
    by apply processAudio_reachable, reach_new.
  split; [split; [exact H | reflexivity]|].
  split.
  - exact (proj1 (reset_then_late_response _ (StatusNotOk None) "查詢失敗" H eq_refl)).
  - exact (proj2 (proj2 (proj2 (proj2
             (reset_then_late_response _ (StatusNotOk None) "查詢失敗" H eq_refl))))).
Defined.

(** A page whose second health check has found the configuration
    changed uploads through the instance it was started with, which
    then polls, while the page has a new instance in place.  A [reset]
    of that page leaves the interval active, so the polls go on and
    their callbacks write to the cells that [reset] has cleared. *)
Example reset_after_switch_keeps_polling :
  nextApi (processAudio None loaded_page talk_wav down_env moved_env up_env
             (UploadOk "abc")).1
  = Some (AudioSeparationAPI.new (Some "https://new.example") None) ∧
  Timers.active
    (timers (browser (reset (processAudio None loaded_page talk_wav down_env moved_env
                               up_env (UploadOk "abc")).1)))
  = {[ 1%positive := ("abc", UseAudioSeparation.callbacks) ]} ∧
  client
    (tick_resume
       (browser (reset (processAudio None loaded_page talk_wav down_env moved_env
                          up_env (UploadOk "abc")).1))
       UseAudioSeparation.callbacks
       (StatusOk {| task_id := "abc"; status := completed; progress := 100;
                    message := "done"; error := None |}))
  = {| UseAudioSeparation.isProcessing := false;
       UseAudioSeparation.progress := 100;
       UseAudioSeparation.status := "完成！";
       UseAudioSeparation.result :=
         Some {| task_id := "abc"; status := completed; progress := 100;
                 message := "done"; error := None |};
       UseAudioSeparation.error := None;
       UseAudioSeparation.currentTaskId := None |}.
Proof. repeat split. Qed.

End ResetFacts.

(** ** The download retry and the test mail *)

Module DownloadFacts.

Import AudioSeparationAPI Workflow Download.


(** X28: the test mail has a cooldown of its own: once a test mail has
    been delivered, POST /api/test-email answers
    [success: false] with the message for an unconfigured or failing
    mail service, and sends nothing, until 180 minutes have passed
    since the delivery; from then on it sends again. *)
Theorem test_email_cooldown (es : EmailService.t) (now1 now2 : Z)
    (e1 e2 : EmailService.Env) :
  EmailService.returned (EmailService.testEmail es now1 e1) = true →
  EmailService.now_sent e1 ≠ 0 →
  EmailService.mail_ok e2 = true →
  (post_test_email (EmailService.after (EmailService.testEmail es now1 e1)) now2 e2).1.1.2
  = (if bool_decide (EmailService.now_sent e1 + 180 * 60 * 1000
                     ≤ EmailService.now_check e2)
     then {| success := true; message := "測試郵件發送成功" |}
     else {| success := false; message := "郵件服務未配置或發送失敗" |}) ∧
  length (post_test_email
            (EmailService.after (EmailService.testEmail es now1 e1)) now2 e2).2
  = (if bool_decide (EmailService.now_sent e1 + 180 * 60 * 1000
                     ≤ EmailService.now_check e2)
     then 1%nat else 0%nat).
Proof.
  unfold post_test_email, EmailService.testEmail. intros Hret Hnz Hok2.
  set (n1 := {| EmailService.title := "系統測試"; EmailService.message := _;
                EmailService.severity := info;
                EmailService.details := Some [("測試時間", DLocaleTime now1); _] |}) in *.
  set (n2 := {| EmailService.title := "系統測試"; EmailService.message := _;
                EmailService.severity := info;
                EmailService.details := Some [("測試時間", DLocaleTime now2); _] |}).
  destruct (MailFacts.sendNotification_cases es n1 None e1)
    as [(_ & Hr & _) | [(_ & _ & Hr & _) | [(Ht & Hc & Hm & _) | (_ & _ & _ & Hr & _)]]];
    try congruence.
  destruct (NotifyMore.second_notice es n1 n2 None None e1 e2
              Ht Hc Hm Hnz eq_refl Hok2) as [Hreturned Hlen].
  cbn [fst snd]. rewrite Hreturned, Hlen. by case_bool_decide.
Qed.

Lemma test_email_cooldown_witness :
  (EmailService.returned
     (EmailService.testEmail MailRun.configured 1000 (EmailService.Build_Env 1000 true 1200))
   = true ∧
   EmailService.now_sent (EmailService.Build_Env 1000 true 1200) ≠ 0 ∧
   EmailService.mail_ok (EmailService.Build_Env 60000 true 60200) = true) ∧
  (post_test_email
     (EmailService.after
        (EmailService.testEmail MailRun.configured 1000
           (EmailService.Build_Env 1000 true 1200)))
     60000 (EmailService.Build_Env 60000 true 60200)).1.1.2
  = (if bool_decide (EmailService.now_sent (EmailService.Build_Env 1000 true 1200)
                     + 180 * 60 * 1000
                     ≤ EmailService.now_check (EmailService.Build_Env 60000 true 60200))
     then {| success := true; message := "測試郵件發送成功" |}
     else {| success := false; message := "郵件服務未配置或發送失敗" |}).
Proof.
  split; [split; [reflexivity | split; [discriminate | reflexivity]]|].
  exact (proj1 (test_email_cooldown MailRun.configured 1000 60000
                  (EmailService.Build_Env 1000 true 1200)
                  (EmailService.Build_Env 60000 true 60200)
                  eq_refl ltac:(discriminate) eq_refl)).
Defined.

Example test_email_twice :
  (post_test_email
     (EmailService.after
        (EmailService.testEmail MailRun.configured 1000
           (EmailService.Build_Env 1000 true 1200)))
     60000 (EmailService.Build_Env 60000 true 60200)).1.1.2
  = {| success := false; message := "郵件服務未配置或發送失敗" |}.
Proof. by vm_compute. Qed.

End DownloadFacts.
